(** * ip2cc: the prefix-indexing engine

    A shallow embedding of the Go packages [index] (Patricia trie and its
    binary codec), [snapshot] (snapshot directory manager and metadata) and of
    the build step of [cli.runUpdate], followed by the properties proved about
    them.

    Conventions of the embedding
    - Go [int] is modelled as [Z]; every position that occurs stays far below
      2^63, so no wrap-around is written for it.  The fixed-width conversions
      of the codec ([uint8], [uint16], [uint32]) are written out with [mod].
    - Go [byte] is [byte]; a [[]byte] is a [list byte]; a Go [string] is a
      [string] (a sequence of 8-bit characters).  A nil slice and an empty
      slice are both the empty list.
    - The trie is a tree of uniquely owned nodes, so the in-place updates of
      [insertRecursive] are modelled by rebuilding the path that was walked.
    - Go's [/] and [%] truncate toward zero: [Z.quot] and [Z.rem]. *)

From Stdlib Require Import ZArith List String Ascii Lia Bool Sorting Permutation.
From Stdlib Require Strings.Byte.
From Stdlib Require Import DecimalString.
From stdpp Require Import base list gmap strings.
From coqutil Require Import Byte.
Import ListNotations.
Local Open Scope Z_scope.

(* ================================================================== *)
(** * Part I: definitions                                              *)
(* ================================================================== *)

(** ** Errors and outcomes of fallible operations *)

Inductive error : Type :=
| ErrVersionMismatch        (* Insert: "IP version mismatch" *)
| ErrInvalidCIDR            (* InsertCIDR: "invalid CIDR ..." *)
| ErrReadHeader             (* loadTrie: "read header: ..." *)
| ErrInvalidMagic           (* loadTrie: "invalid magic: ..." *)
| ErrUnsupportedVersion     (* loadTrie: "unsupported index version ..." *)
| ErrDeserializeNodes       (* loadTrie: "deserialize nodes: ..." *)
| ErrReadCount              (* loadTrie: "read count: ..." *)
| ErrIO                     (* an error returned by the operating system *)
| ErrNoSnapshots            (* GetLatestSnapshot: "no snapshots available" *)
| ErrLoadMetadata           (* GetLatestSnapshot: "load metadata for ..." *)
| PanicNilDeref.            (* run-time panic: nil pointer dereference *)

Inductive result (A : Type) : Type :=
| Ok (a : A)
| Err (e : error).
Arguments Ok {A} a.
Arguments Err {A} e.

(** ** net/netip and strings: the library calls of [InsertCIDR]

    [netip.ParsePrefix], [Prefix.Masked], [Prefix.String] and
    [strings.ToUpper] belong to the Go standard library.  They are modelled
    here after their documented behaviour.  The IPv4 text form is modelled in
    full; the IPv6 text form (RFC 4291 parsing, RFC 5952 printing) is left to
    an interface, [IPv6Text], so that every property below holds for any
    IPv6 parser and printer. *)

Module Netip.

(** An address: its family and its bytes in network order (4 bytes for
    IPv4, 16 for IPv6).  The zero [Addr] of Go is not represented. *)
Record Addr : Type := mkAddr { Is6 : bool; octets : list byte }.

Definition Is4 (a : Addr) : bool := negb (Is6 a).
Definition As4 (a : Addr) : list byte := octets a.
Definition As16 (a : Addr) : list byte := octets a.

(** A prefix: an address and a prefix length. *)
Record Prefix : Type := mkPrefix { PAddr : Addr; Bits : Z }.

Definition BitLen (a : Addr) : Z := if Is6 a then 128 else 32.

(** The IPv6 text form: [parseIPv6 s] is the 16 bytes and the zone of an
    IPv6 address text, or a failure; [formatIPv6] prints 16 bytes. *)
Class IPv6Text : Type := {
  parseIPv6 : string -> option (list byte * string);
  formatIPv6 : list byte -> string
}.

(** *** Decimal numerals *)

Definition isDigit (c : ascii) : bool :=
  (48 <=? nat_of_ascii c)%nat && (nat_of_ascii c <=? 57)%nat.

Definition digitVal (c : ascii) : Z := Z.of_nat (nat_of_ascii c) - 48.

(** The value of a non-empty run of decimal digits. *)
Fixpoint digitsVal (s : string) (acc : Z) : option Z :=
  match s with
  | EmptyString => Some acc
  | String c s' => if isDigit c then digitsVal s' (10 * acc + digitVal c) else None
  end.

Definition parseDigits (s : string) : option Z :=
  match s with
  | EmptyString => None
  | _ => digitsVal s 0
  end.

(** [strconv.Atoi]: an optional sign and decimal digits. *)
Definition Atoi (s : string) : option Z :=
  match s with
  | String "+" s' => parseDigits s'
  | String "-" s' => option_map Z.opp (parseDigits s')
  | _ => parseDigits s
  end.

(** [strconv.Itoa] *)
Definition Itoa (z : Z) : string := NilZero.string_of_int (Z.to_int z).

(** *** Splitting text *)

(** [splitLast c s]: the text before and after the last [c] of [s]
    ([s[:i]] and [s[i+1:]] for [i := LastIndexByte(s, c)]). *)
Fixpoint splitLast (c : ascii) (s : string) : option (string * string) :=
  match s with
  | EmptyString => None
  | String x s' =>
      match splitLast c s' with
      | Some (a, b) => Some (String x a, b)
      | None => if Ascii.eqb x c then Some (EmptyString, s') else None
      end
  end.

(** The fields of [s] between the separators [c]. *)
Fixpoint fields (c : ascii) (s : string) : list string :=
  match s with
  | EmptyString => [EmptyString]
  | String x s' =>
      if Ascii.eqb x c then EmptyString :: fields c s'
      else match fields c s' with
           | f :: fs => String x f :: fs
           | [] => [String x EmptyString]
           end
  end.

(** *** IPv4 text *)

(** One field of a dotted quad: digits, no leading zero, at most 255. *)
Definition parseOctet (f : string) : option byte :=
  match f with
  | String "0" (String _ _) => None
  | _ =>
      match parseDigits f with
      | Some v => if v <=? 255 then Some (byte.of_Z v) else None
      | None => None
      end
  end.

Definition parseIPv4 (s : string) : option Addr :=
  match fields "." s with
  | [a; b; c; d] =>
      match parseOctet a, parseOctet b, parseOctet c, parseOctet d with
      | Some a, Some b, Some c, Some d => Some (mkAddr false [a; b; c; d])
      | _, _, _, _ => None
      end
  | _ => None
  end.

(** *** ParseAddr: the first of '.', ':' and '%' decides the form. *)

Inductive form : Type := FormV4 | FormV6 | FormNone.

Fixpoint addrForm (s : string) : form :=
  match s with
  | EmptyString => FormNone
  | String "." _ => FormV4
  | String ":" _ => FormV6
  | String "%" _ => FormNone
  | String _ s' => addrForm s'
  end.

(** The address and its zone. *)
Definition ParseAddr `{IPv6Text} (s : string) : option (Addr * string) :=
  match addrForm s with
  | FormV4 => option_map (fun a => (a, EmptyString)) (parseIPv4 s)
  | FormV6 => option_map (fun '(o, zone) => (mkAddr true o, zone)) (parseIPv6 s)
  | FormNone => None
  end.

(** The text after the slash: [Atoi] would accept a sign or leading
    zeros, so a text of two or more characters must start with '1'..'9'. *)
Definition parseBits (ip : Addr) (bitsStr : string) : option Z :=
  let badStart :=
    match bitsStr with
    | String c (String _ _) =>
        negb ((49 <=? nat_of_ascii c)%nat && (nat_of_ascii c <=? 57)%nat)
    | _ => false
    end in
  if badStart then None
  else match Atoi bitsStr with
       | None => None
       | Some bits =>
           let maxBits := if Is6 ip then 128 else 32 in
           if (bits <? 0) || (bits >? maxBits) then None else Some bits
       end.

Definition ParsePrefix `{IPv6Text} (s : string) : option Prefix :=
  match splitLast "/" s with
  | None => None
  | Some (addrStr, bitsStr) =>
      match ParseAddr addrStr with
      | None => None
      | Some (ip, zone) =>
          if Is6 ip && negb (String.eqb zone EmptyString) then None
          else match parseBits ip bitsStr with
               | None => None
               | Some bits => Some (mkPrefix ip bits)
               end
      end
  end.

(** *** Masked: the bits beyond the prefix length are cleared. *)

(** Byte [j] of an address masked to [bits] bits. *)
Definition maskByte (bits : Z) (j : Z) (b : byte) : byte :=
  if 8 * (j + 1) <=? bits then b
  else if bits <=? 8 * j then Byte.x00
  else byte.of_Z (Z.land (byte.unsigned b)
                         (Z.land (Z.shiftl 255 (8 - (bits - 8 * j))) 255)).

Definition maskOctets (bits : Z) (o : list byte) : list byte :=
  imap (fun j b => maskByte bits (Z.of_nat j) b) o.

(** Defined for the prefixes whose length is in range, which is all that
    [ParsePrefix] returns. *)
Definition Masked (p : Prefix) : Prefix :=
  mkPrefix (mkAddr (Is6 (PAddr p)) (maskOctets (Bits p) (octets (PAddr p)))) (Bits p).

(** *** String *)

Fixpoint joinDots (l : list string) : string :=
  match l with
  | [] => EmptyString
  | [x] => x
  | x :: l' => x ++ "." ++ joinDots l'
  end.

Definition AddrString `{IPv6Text} (a : Addr) : string :=
  if Is6 a then formatIPv6 (octets a)
  else joinDots (map (fun b => Itoa (byte.unsigned b)) (octets a)).

Definition String `{IPv6Text} (p : Prefix) : string :=
  AddrString (PAddr p) ++ "/" ++ Itoa (Bits p).

End Netip.

(** [strings.ToUpper], on the ASCII letters. *)
Definition ToUpperAscii (c : ascii) : ascii :=
  if (97 <=? nat_of_ascii c)%nat && (nat_of_ascii c <=? 122)%nat
  then ascii_of_nat (nat_of_ascii c - 32) else c.

Fixpoint ToUpper (s : string) : string :=
  match s with
  | EmptyString => EmptyString
  | String c s' => String (ToUpperAscii c) (ToUpper s')
  end.

(** ** Package index: the Patricia trie (trie.go) *)

Module Index.

Record PrefixData : Type := mkPrefixData {
  CountryCode : string;
  PrefixStr : string
}.

(** [Children [2]*TrieNode] is the pair [Child0], [Child1]. *)
#[local] Unset Elimination Schemes.
Inductive TrieNode : Type := mkTrieNode {
  Prefix : list byte;
  PrefixLen : Z;
  Data : option PrefixData;
  Child0 : option TrieNode;
  Child1 : option TrieNode
}.
#[local] Set Elimination Schemes.

Record Trie : Type := mkTrie {
  Root : option TrieNode;
  IsIPv6 : bool;
  Count : Z
}.

Definition emptyNode : TrieNode :=
  {| Prefix := []; PrefixLen := 0; Data := None; Child0 := None; Child1 := None |}.

Definition NewTrie (isIPv6 : bool) : Trie :=
  {| Root := Some emptyNode; IsIPv6 := isIPv6; Count := 0 |}.

(** [node.Children[bit]] for a bit 0 or 1, and the three field updates
    that the code performs through the node pointer. *)
Definition Children (node : TrieNode) (bit : Z) : option TrieNode :=
  if bit =? 0 then Child0 node else Child1 node.

Definition setChild (node : TrieNode) (bit : Z) (c : option TrieNode) : TrieNode :=
  if bit =? 0
  then {| Prefix := Prefix node; PrefixLen := PrefixLen node; Data := Data node;
          Child0 := c; Child1 := Child1 node |}
  else {| Prefix := Prefix node; PrefixLen := PrefixLen node; Data := Data node;
          Child0 := Child0 node; Child1 := c |}.

Definition setData (node : TrieNode) (d : option PrefixData) : TrieNode :=
  {| Prefix := Prefix node; PrefixLen := PrefixLen node; Data := d;
     Child0 := Child0 node; Child1 := Child1 node |}.

Definition setEdge (node : TrieNode) (p : list byte) (len : Z) : TrieNode :=
  {| Prefix := p; PrefixLen := len; Data := Data node;
     Child0 := Child0 node; Child1 := Child1 node |}.

Definition min (a b : Z) : Z := if a <? b then a else b.

(** [getBit]: the byte index is compared with the length before the slice
    is read, so the read below the guard is always in range. *)
Definition getBit (data : list byte) (pos : Z) : Z :=
  let byteIdx := Z.quot pos 8 in
  let bitIdx := 7 - Z.rem pos 8 in
  if byteIdx >=? Z.of_nat (length data) then 0
  else Z.land (Z.shiftr (byte.unsigned (default Byte.x00 (data !! Z.to_nat byteIdx))) bitIdx) 1.

Definition getBitFromSlice (data : list byte) (pos : Z) : Z := getBit data pos.

(** [result[byteIdx] |= 1 << bitIdx] *)
Definition orBit (result : list byte) (i : Z) : list byte :=
  let byteIdx := Z.quot i 8 in
  let bitIdx := 7 - Z.rem i 8 in
  <[Z.to_nat byteIdx :=
      byte.of_Z (Z.lor (byte.unsigned (default Byte.x00 (result !! Z.to_nat byteIdx)))
                       (Z.shiftl 1 bitIdx))]> result.

(** The body of the [for i := 0; i < length; i++] loop of [extractBits],
    [n] iterations starting at [i]. *)
Fixpoint extractLoop (data : list byte) (start : Z) (n : nat) (i : Z)
         (result : list byte) : list byte :=
  match n with
  | O => result
  | S n' =>
      let bit := getBit data (start + i) in
      let result := if bit =? 1 then orBit result i else result in
      extractLoop data start n' (i + 1) result
  end.

Definition extractBits (data : list byte) (start length : Z) : list byte :=
  if length <=? 0 then []
  else extractLoop data start (Z.to_nat length) 0
                   (replicate (Z.to_nat (Z.quot (length + 7) 8)) Byte.x00).

Definition extractBitsFromSlice (data : list byte) (start length : Z) : list byte :=
  extractBits data start length.

(** The common-prefix loop of [insertRecursive]: [commonLen] and [i] move
    together, so one counter is kept; [n] is the number of iterations left
    before [i] reaches [maxCheck]. *)
Fixpoint commonLoop (bits childBits : list byte) (pos : Z) (n : nat) (i : Z) : Z :=
  match n with
  | O => i
  | S n' =>
      if negb (getBit bits (pos + i) =? getBitFromSlice childBits i) then i
      else commonLoop bits childBits pos n' (i + 1)
  end.

Definition leaf (p : list byte) (len : Z) (data : PrefixData) : TrieNode :=
  {| Prefix := p; PrefixLen := len; Data := Some data; Child0 := None; Child1 := None |}.

(** [insertRecursive] returns the node that stands where [node] stood. *)
Fixpoint insertRecursive (node : TrieNode) (bits : list byte) (pos prefixLen : Z)
         (data : PrefixData) {struct node} : TrieNode :=
  if pos =? prefixLen then setData node (Some data)
  else
    let bit := getBit bits pos in
    match Children node bit with
    | None =>
        let newNode := leaf (extractBits bits pos (prefixLen - pos)) (prefixLen - pos) data in
        setChild node bit (Some newNode)
    | Some child =>
        let childBits := Prefix child in
        let childLen := PrefixLen child in
        let remainingLen := prefixLen - pos in
        let maxCheck := min remainingLen childLen in
        let commonLen := commonLoop bits childBits pos (Z.to_nat maxCheck) 0 in
        if commonLen =? childLen then
          if commonLen =? remainingLen then
            setChild node bit (Some (setData child (Some data)))
          else
            setChild node bit (Some (insertRecursive child bits (pos + childLen) prefixLen data))
        else
          let newParent :=
            {| Prefix := extractBits bits pos commonLen; PrefixLen := commonLen;
               Data := None; Child0 := None; Child1 := None |} in
          let oldChildBit := getBitFromSlice childBits commonLen in
          let child := setEdge child
                         (extractBitsFromSlice childBits commonLen (childLen - commonLen))
                         (childLen - commonLen) in
          let newParent := setChild newParent oldChildBit (Some child) in
          if commonLen =? remainingLen then
            setChild node bit (Some (setData newParent (Some data)))
          else
            let newLeafBit := getBit bits (pos + commonLen) in
            let newLeaf := leaf (extractBits bits (pos + commonLen) (remainingLen - commonLen))
                                (remainingLen - commonLen) data in
            setChild node bit (Some (setChild newParent newLeafBit (Some newLeaf)))
    end.

Definition prefixToBits (prefix : Netip.Prefix) : list byte :=
  let addr := Netip.PAddr prefix in
  if Netip.Is4 addr then Netip.As4 addr else Netip.As16 addr.

Definition addrToBits (addr : Netip.Addr) : list byte :=
  if Netip.Is4 addr then Netip.As4 addr else Netip.As16 addr.

(** [Insert]: the trie after the call, or the error returned.  With a nil
    root the first access through [node] panics. *)
Definition Insert (t : Trie) (prefix : Netip.Prefix) (data : PrefixData) : result Trie :=
  if negb (Bool.eqb (Netip.Is6 (Netip.PAddr prefix)) (IsIPv6 t)) then Err ErrVersionMismatch
  else
    let bits := prefixToBits prefix in
    let prefixLen := Netip.Bits prefix in
    match Root t with
    | None => Err PanicNilDeref
    | Some root =>
        Ok {| Root := Some (insertRecursive root bits 0 prefixLen data);
              IsIPv6 := IsIPv6 t;
              Count := Count t + 1 |}
    end.

(** [InsertCIDR]: the trie after the call, or the error returned. *)
Definition InsertCIDR `{Netip.IPv6Text} (t : Trie) (cidr countryCode : string)
  : result Trie :=
  match Netip.ParsePrefix cidr with
  | None => Err ErrInvalidCIDR
  | Some prefix =>
      let data := {| CountryCode := ToUpper countryCode;
                     PrefixStr := Netip.String (Netip.Masked prefix) |} in
      Insert t (Netip.Masked prefix) data
  end.

(** The verification loop of [lookupRecursive]: [n] bounds the number of
    iterations, the loop condition is the code's. *)
Fixpoint matchLoop (bits childPrefix : list byte) (pos childLen childPrefixLen : Z)
         (n : nat) (i : Z) : bool :=
  match n with
  | O => true
  | S n' =>
      if (i <? childLen) && (i <? childPrefixLen) then
        if negb (getBit bits (pos + i) =? getBitFromSlice childPrefix i) then false
        else matchLoop bits childPrefix pos childLen childPrefixLen n' (i + 1)
      else true
  end.

(** One pass of the [for node != nil] loop per call. *)
Fixpoint lookupLoop (node : TrieNode) (bits : list byte) (pos maxBits : Z)
         (lastMatch : option PrefixData) {struct node} : option PrefixData :=
  let lastMatch := match Data node with Some d => Some d | None => lastMatch end in
  if pos >=? maxBits then lastMatch
  else
    let bit := getBit bits pos in
    match Children node bit with
    | None => lastMatch
    | Some child =>
        let childLen :=
          if pos + PrefixLen child >? maxBits then maxBits - pos else PrefixLen child in
        let matches :=
          matchLoop bits (Prefix child) pos childLen (PrefixLen child) (Z.to_nat childLen) 0 in
        if negb matches then lastMatch
        else lookupLoop child bits (pos + PrefixLen child) maxBits lastMatch
    end.

Definition lookupRecursive (node : option TrieNode) (bits : list byte) (pos maxBits : Z)
  : option PrefixData :=
  match node with
  | None => None
  | Some n => lookupLoop n bits pos maxBits None
  end.

Definition Lookup (t : Trie) (ip : Netip.Addr) : option PrefixData :=
  if negb (Bool.eqb (Netip.Is6 ip) (IsIPv6 t)) then None
  else
    let bits := addrToBits ip in
    let maxBits := if IsIPv6 t then 128 else 32 in
    lookupRecursive (Root t) bits 0 maxBits.

End Index.

(** ** Package index: binary serialization (serialize.go)

    A writer is modelled by the bytes it receives, a reader by the bytes
    that remain.  [encoding/binary] with [binary.LittleEndian] writes a
    fixed-size value as its bytes, low byte first, and a [bool] as one byte 1
    or 0; it reads a [bool] as "the byte is not zero". *)

Module Codec.
Import Index.

Definition Magic : string := "IP2CCIDX".
Definition HeaderSize : Z := 32.
Definition FlagHasIPv4 : Z := 1.
Definition FlagHasIPv6 : Z := 2.

(** [config.IndexFormatVersion] *)
Definition IndexFormatVersion : Z := 1.

Record Header : Type := mkHeader {
  HMagic : list byte;      (* [8]byte *)
  Version : Z;             (* uint32 *)
  Flags : Z;               (* uint32 *)
  IPv4Offset : Z;          (* uint64 *)
  IPv6Offset : Z           (* uint64 *)
}.

(** *** Fixed-width values, little-endian *)

Definition uint8 (z : Z) : byte := byte.of_Z z.

Fixpoint putLE (n : nat) (z : Z) : list byte :=
  match n with
  | O => []
  | S n' => byte.of_Z z :: putLE n' (z / 256)
  end.

Fixpoint getLE (bs : list byte) : Z :=
  match bs with
  | [] => 0
  | b :: bs' => byte.unsigned b + 256 * getLE bs'
  end.

Definition putUint16 (z : Z) : list byte := putLE 2 z.
Definition putUint32 (z : Z) : list byte := putLE 4 z.
Definition putUint64 (z : Z) : list byte := putLE 8 z.
Definition putBool (b : bool) : list byte := [if b then Byte.x01 else Byte.x00].

(** [copy(dst, src)] into a zeroed array of [n] bytes. *)
Definition copyInto (n : nat) (src : list byte) : list byte :=
  take n (src ++ replicate n Byte.x00).

Definition putHeader (h : Header) : list byte :=
  copyInto 8 (HMagic h) ++ putUint32 (Version h) ++ putUint32 (Flags h) ++
  putUint64 (IPv4Offset h) ++ putUint64 (IPv6Offset h).

(** [io.ReadFull] into a buffer of [n] bytes: the bytes and the rest, or
    a failure when fewer than [n] bytes remain. *)
Definition readFull (n : nat) (r : list byte) : option (list byte * list byte) :=
  if (length r <? n)%nat then None else Some (take n r, drop n r).

Definition readUint (n : nat) (r : list byte) : option (Z * list byte) :=
  match readFull n r with
  | Some (bs, r') => Some (getLE bs, r')
  | None => None
  end.

Definition readBool (r : list byte) : option (bool * list byte) :=
  match readFull 1 r with
  | Some (bs, r') => Some (negb (getLE bs =? 0), r')
  | None => None
  end.

(** *** serializeNode *)

(** The bytes written for the prefix of a node. *)
Definition prefixField (node : TrieNode) : list byte :=
  let prefixBytes := Z.quot (PrefixLen node + 7) 8 in
  if prefixBytes >? 0 then
    if Z.of_nat (length (Prefix node)) <? prefixBytes then
      (* padded := make([]byte, prefixBytes); copy(padded, node.Prefix) *)
      copyInto (Z.to_nat prefixBytes) (Prefix node)
    else take (Z.to_nat prefixBytes) (Prefix node)
  else [].

(** The bytes written for the record of a node. *)
Definition dataField (d : PrefixData) : list byte :=
  let code := list_byte_of_string (CountryCode d) in
  let cc := if (2 <=? length code)%nat then take 2 code else [Byte.x00; Byte.x00] in
  let prefixStr := list_byte_of_string (PrefixStr d) in
  cc ++ putUint16 (Z.of_nat (length prefixStr)) ++ prefixStr.

(** The bytes written for a non-nil node. *)
Fixpoint serializeNonNil (node : TrieNode) : list byte :=
  [uint8 (PrefixLen node)] ++
  prefixField node ++
  match Data node with
  | Some d => putBool true ++ dataField d
  | None => putBool false
  end ++
  putBool (match Child0 node with Some _ => true | None => false end) ++
  putBool (match Child1 node with Some _ => true | None => false end) ++
  match Child0 node with Some c => serializeNonNil c | None => [] end ++
  match Child1 node with Some c => serializeNonNil c | None => [] end.

Definition serializeNode (node : option TrieNode) : list byte :=
  match node with
  | None => [byte.of_Z 255]   (* nil marker *)
  | Some n => serializeNonNil n
  end.

(** The bytes that [saveTrie] hands to its writer. *)
Definition saveTrieBytes (trie : Trie) (isIPv6 : bool) : list byte :=
  let header :=
    {| HMagic := list_byte_of_string Magic;
       Version := IndexFormatVersion;
       Flags := if isIPv6 then FlagHasIPv6 else FlagHasIPv4;
       IPv4Offset := 0; IPv6Offset := 0 |} in
  putHeader header ++ serializeNode (Root trie) ++ putUint32 (Count trie).

(** *** deserializeNode

    The recursion is on the bytes that remain; [fuel] bounds its depth.
    Every call reads at least one byte before it recurses, so a fuel above
    the number of bytes is never exhausted (lemma [deserializeNode_fuel]). *)

Definition readData (r : list byte) : option (PrefixData * list byte) :=
  match readFull 2 r with
  | None => None
  | Some (cc, r) =>
      match readUint 2 r with
      | None => None
      | Some (prefixStrLen, r) =>
          match readFull (Z.to_nat prefixStrLen) r with
          | None => None
          | Some (prefixStr, r) =>
              Some ({| CountryCode := string_of_list_byte cc;
                       PrefixStr := string_of_list_byte prefixStr |}, r)
          end
      end
  end.

Fixpoint deserializeNode (fuel : nat) (r : list byte)
  : option (option TrieNode * list byte) :=
  match fuel with
  | O => None
  | S fuel' =>
      match readUint 1 r with
      | None => None
      | Some (prefixLen, r) =>
          if prefixLen =? 255 then Some (None, r)
          else
            let prefixBytes := Z.quot (prefixLen + 7) 8 in
            match (if prefixBytes >? 0 then readFull (Z.to_nat prefixBytes) r
                   else Some ([], r)) with
            | None => None
            | Some (prefix, r) =>
                match readBool r with
                | None => None
                | Some (hasData, r) =>
                    match (if hasData
                           then match readData r with
                                | Some (d, r) => Some (Some d, r)
                                | None => None
                                end
                           else Some (None, r)) with
                    | None => None
                    | Some (data, r) =>
                        match readBool r with
                        | None => None
                        | Some (hasLeft, r) =>
                            match readBool r with
                            | None => None
                            | Some (hasRight, r) =>
                                match (if hasLeft then deserializeNode fuel' r
                                       else Some (None, r)) with
                                | None => None
                                | Some (lchild, r) =>
                                    match (if hasRight then deserializeNode fuel' r
                                           else Some (None, r)) with
                                    | None => None
                                    | Some (rchild, r) =>
                                        Some (Some {| Prefix := prefix;
                                                      PrefixLen := prefixLen;
                                                      Data := data;
                                                      Child0 := lchild;
                                                      Child1 := rchild |}, r)
                                    end
                                end
                            end
                        end
                    end
                end
            end
      end
  end.

Definition readHeader (r : list byte) : option (Header * list byte) :=
  match readFull 8 r with
  | None => None
  | Some (magic, r) =>
      match readUint 4 r with
      | None => None
      | Some (version, r) =>
          match readUint 4 r with
          | None => None
          | Some (flags, r) =>
              match readUint 8 r with
              | None => None
              | Some (o4, r) =>
                  match readUint 8 r with
                  | None => None
                  | Some (o6, r) =>
                      Some ({| HMagic := magic; Version := version; Flags := flags;
                               IPv4Offset := o4; IPv6Offset := o6 |}, r)
                  end
              end
          end
      end
  end.

(** [loadTrie] on the bytes of the file. *)
Definition loadTrieBytes (data : list byte) (isIPv6 : bool) : result Trie :=
  match readHeader data with
  | None => Err ErrReadHeader
  | Some (header, r) =>
      if negb (String.eqb (string_of_list_byte (HMagic header)) Magic) then Err ErrInvalidMagic
      else if negb (Version header =? IndexFormatVersion) then Err ErrUnsupportedVersion
      else
        let trie := NewTrie isIPv6 in
        match deserializeNode (S (length r)) r with
        | None => Err ErrDeserializeNodes
        | Some (root, r) =>
            match readUint 4 r with
            | None => Err ErrReadCount
            | Some (count, _) =>
                Ok {| Root := root; IsIPv6 := IsIPv6 trie; Count := count |}
            end
        end
  end.

(** *** What a round trip keeps

    [normNode n] is [n] with every prefix slice cut or padded to the
    [(PrefixLen+7)/8] bytes that are written; [nodeOk n] says that the
    fixed-width fields of the format hold the values of [n]: edge lengths
    0..254 (255 is the nil marker), country codes of exactly two bytes and
    CIDR texts shorter than 2^16 bytes. *)

Fixpoint normNode (n : TrieNode) : TrieNode :=
  {| Prefix := prefixField n;
     PrefixLen := PrefixLen n;
     Data := Data n;
     Child0 := match Child0 n with Some c => Some (normNode c) | None => None end;
     Child1 := match Child1 n with Some c => Some (normNode c) | None => None end |}.

Definition dataOk (d : PrefixData) : bool :=
  (length (list_byte_of_string (CountryCode d)) =? 2)%nat &&
  (Z.of_nat (length (list_byte_of_string (PrefixStr d))) <? 65536).

Fixpoint nodeOk (n : TrieNode) : bool :=
  (0 <=? PrefixLen n) && (PrefixLen n <? 255) &&
  match Data n with Some d => dataOk d | None => true end &&
  match Child0 n with Some c => nodeOk c | None => true end &&
  match Child1 n with Some c => nodeOk c | None => true end.

Definition trieOk (t : Trie) : bool :=
  match Root t with Some r => nodeOk r | None => true end &&
  (0 <=? Count t) && (Count t <? 2 ^ 32).

End Codec.

(** ** The operating system, as the writers see it

    [files] holds the content of every regular file by path and [links] the
    target of every symbolic link by path.  A write can fail: [fault] says
    whether the file can be opened and how many bytes it accepts.  Opening
    with [os.Create] (or [os.WriteFile]) truncates the file that is there. *)

Module OS.

Record FS : Type := mkFS {
  files : gmap string (list byte);
  links : gmap string string
}.

Inductive fault : Type :=
| NoFault
| OpenFails                    (* the file cannot be created or opened *)
| WriteFailsAfter (n : nat).   (* the file accepts [n] bytes, then writes fail *)

(** A file system with no file and no link. *)
Definition emptyFS : FS := {| files := empty; links := empty |}.

Definition setFile (fs : FS) (path : string) (data : list byte) : FS :=
  {| files := <[path := data]> (files fs); links := links fs |}.

(** Open [path] for writing (create or truncate), write [data], close.
    Used for [os.Create] + buffered writes + [Flush], and for
    [os.WriteFile]: what reaches the file is a prefix of [data]. *)
Definition createAndWrite (fs : FS) (path : string) (data : list byte) (f : fault)
  : FS * option error :=
  match f with
  | OpenFails => (fs, Some ErrIO)
  | NoFault => (setFile fs path data, None)
  | WriteFailsAfter n =>
      if (n <? length data)%nat then (setFile fs path (take n data), Some ErrIO)
      else (setFile fs path data, None)
  end.

(** What a writer that writes in place leaves behind: every other path
    is untouched, and the destination holds what was written of [data]. *)
Definition inPlace (fs : FS) (path : string) (data : list byte) (f : fault)
           (out : FS * option error) : Prop :=
  (forall p, p <> path -> files (fst out) !! p = files fs !! p) /\
  links (fst out) = links fs /\
  match f with
  | OpenFails => fst out = fs /\ snd out = Some ErrIO
  | NoFault => files (fst out) !! path = Some data /\ snd out = None
  | WriteFailsAfter n =>
      if (n <? length data)%nat
      then files (fst out) !! path = Some (take n data) /\ snd out = Some ErrIO
      else files (fst out) !! path = Some data /\ snd out = None
  end.

(** [filepath.Join] of two clean, non-empty path elements. *)
Definition Join (a b : string) : string := a ++ "/" ++ b.

(** [filepath.IsAbs], on Unix. *)
Definition IsAbs (p : string) : bool :=
  match p with String "/" _ => true | _ => false end.

End OS.

(** ** Package config: the paths of a snapshot (config.go) *)

Module Config.
Definition SnapshotsDirName : string := "snapshots".
Definition LatestSymlink : string := "latest".
Definition MetadataFileName : string := "metadata.json".
Definition IndexV4FileName : string := "index_v4.bin".
Definition IndexV6FileName : string := "index_v6.bin".
Definition RawDirName : string := "raw".
Definition MaxConcurrency : Z := 8.

Definition SnapshotsDir (cacheDir : string) : string := OS.Join cacheDir SnapshotsDirName.
Definition SnapshotDir (cacheDir date : string) : string :=
  OS.Join (SnapshotsDir cacheDir) date.
Definition LatestSnapshotPath (cacheDir : string) : string :=
  OS.Join (SnapshotsDir cacheDir) LatestSymlink.
Definition MetadataPath (snapshotDir : string) : string :=
  OS.Join snapshotDir MetadataFileName.
Definition IndexV4Path (snapshotDir : string) : string := OS.Join snapshotDir IndexV4FileName.
Definition IndexV6Path (snapshotDir : string) : string := OS.Join snapshotDir IndexV6FileName.
Definition RawDir (snapshotDir : string) : string := OS.Join snapshotDir RawDirName.
End Config.

(** ** Writing an index file (serialize.go: saveTrie, SaveIndex) *)

Module IndexFile.
Import Index Codec.

Definition saveTrie (fs : OS.FS) (path : string) (trie : Trie) (isIPv6 : bool)
           (f : OS.fault) : OS.FS * option error :=
  OS.createAndWrite fs path (saveTrieBytes trie isIPv6) f.

Definition SaveIndex (fs : OS.FS) (v4Path v6Path : string) (v4Trie v6Trie : Trie)
           (f4 f6 : OS.fault) : OS.FS * option error :=
  match saveTrie fs v4Path v4Trie false f4 with
  | (fs, Some e) => (fs, Some e)
  | (fs, None) => saveTrie fs v6Path v6Trie true f6
  end.

(** [loadTrie]: [os.ReadFile], then [loadTrieBytes]. *)
Definition loadTrie (fs : OS.FS) (path : string) (isIPv6 : bool) : result Trie :=
  match OS.files fs !! path with
  | None => Err ErrIO
  | Some data => loadTrieBytes data isIPv6
  end.

(** [LoadIndex]: both tries, or the first error (returned here without
    the text that wraps it). *)
Definition LoadIndex (fs : OS.FS) (v4Path v6Path : string) : result (Trie * Trie) :=
  match loadTrie fs v4Path false with
  | Err e => Err e
  | Ok v4Trie =>
      match loadTrie fs v6Path true with
      | Err e => Err e
      | Ok v6Trie => Ok (v4Trie, v6Trie)
      end
  end.

End IndexFile.

(** ** Package snapshot (metadata.go, manager.go) *)

Module Snapshot.

Record Metadata : Type := mkMetadata {
  Version : Z;
  CreatedAt : Z;                 (* time.Time, as a count of seconds *)
  RequestedTime : string;
  ActualQueryTime : string;
  CountriesCount : Z;
  Countries : list string;
  PrefixesV4 : Z;
  PrefixesV6 : Z;
  IndexFormatVersion : Z;
  Source : string;
  IsLatest : bool
}.

Definition MetadataVersion : Z := 1.

(** [time.Now().UTC()] is the argument [now]. *)
Definition NewMetadata (now : Z) : Metadata :=
  {| Version := MetadataVersion; CreatedAt := now;
     RequestedTime := ""; ActualQueryTime := "";
     CountriesCount := 0; Countries := [];
     PrefixesV4 := 0; PrefixesV6 := 0;
     IndexFormatVersion := 1;
     Source := "RIPEstat country-resource-list";
     IsLatest := false |}.

(** [encoding/json] for [Metadata]: an interface of the library. *)
Class MetadataJSON : Type := {
  marshalIndent : Metadata -> list byte;
  unmarshal : list byte -> option Metadata
}.

(** [Metadata.Save]: marshal, then [os.WriteFile]. *)
Definition Save `{MetadataJSON} (m : Metadata) (fs : OS.FS) (path : string) (f : OS.fault)
  : OS.FS * option error :=
  OS.createAndWrite fs path (marshalIndent m) f.

(** *** The snapshot directory, as the manager reads it

    The results of the three system calls that the manager makes:
    [os.Readlink] on the latest link, [os.ReadDir] on the snapshots
    directory (after [config.EnsureDir]) and [LoadMetadata] on a path
    ([os.ReadFile] followed by [json.Unmarshal]). *)

Record DirEntry : Type := mkDirEntry { Name : string; IsDir : bool }.

Record Store : Type := mkStore {
  readlink : string -> option string;
  ensureDir : string -> option error;
  (* the entries of a directory, in any order; [None] when it cannot be read *)
  entries : string -> option (list DirEntry);
  loadMetadata : string -> option Metadata
}.

(** [os.ReadDir] returns the entries sorted by filename. *)
Fixpoint insertEntry (e : DirEntry) (l : list DirEntry) : list DirEntry :=
  match l with
  | [] => [e]
  | x :: l' => if String.leb (Name e) (Name x) then e :: l else x :: insertEntry e l'
  end.

Definition sortEntries (l : list DirEntry) : list DirEntry :=
  fold_right insertEntry [] l.

Definition ReadDir (st : Store) (dir : string) : result (list DirEntry) :=
  match entries st dir with
  | None => Err ErrIO
  | Some l => Ok (sortEntries l)
  end.

(** [strings.Count(name, "-")] *)
Fixpoint countHyphens (name : string) : nat :=
  match name with
  | EmptyString => 0
  | String c s => (if Ascii.eqb c "-" then 1 else 0) + countHyphens s
  end.

Definition isSnapshotEntry (entry : DirEntry) : bool :=
  IsDir entry &&
  negb (String.eqb (Name entry) Config.LatestSymlink) &&
  (String.length (Name entry) =? 10)%nat && (countHyphens (Name entry) =? 2)%nat.

Record Manager : Type := mkManager { cacheDir : string }.

Definition GetSnapshotDir (m : Manager) (date : string) : string :=
  Config.SnapshotDir (cacheDir m) date.

Definition ListSnapshots (m : Manager) (st : Store) : result (list string) :=
  let snapshotsDir := Config.SnapshotsDir (cacheDir m) in
  match ensureDir st snapshotsDir with
  | Some e => Err e
  | None =>
      match ReadDir st snapshotsDir with
      | Err e => Err e
      | Ok entries => Ok (map Name (List.filter isSnapshotEntry entries))
      end
  end.

(** [sort.Sort(sort.Reverse(sort.StringSlice(snapshots)))] *)
Fixpoint insertDesc (x : string) (l : list string) : list string :=
  match l with
  | [] => [x]
  | y :: l' => if String.leb y x then x :: l else y :: insertDesc x l'
  end.

Definition sortDesc (l : list string) : list string := fold_right insertDesc [] l.

Definition GetLatestSnapshot (m : Manager) (st : Store) : result (string * Metadata) :=
  let latestPath := Config.LatestSnapshotPath (cacheDir m) in
  let fallback :=
    match ListSnapshots m st with
    | Err e => Err e
    | Ok snapshots =>
        match sortDesc snapshots with
        | [] => Err ErrNoSnapshots
        | latestDate :: _ =>
            let dir := GetSnapshotDir m latestDate in
            match loadMetadata st (Config.MetadataPath dir) with
            | None => Err ErrLoadMetadata
            | Some meta => Ok (dir, meta)
            end
        end
    end in
  match readlink st latestPath with
  | Some target =>
      let target := if negb (OS.IsAbs target)
                    then OS.Join (Config.SnapshotsDir (cacheDir m)) target else target in
      match loadMetadata st (Config.MetadataPath target) with
      | Some meta => Ok (target, meta)
      | None => fallback
      end
  | None => fallback
  end.

(** [SnapshotExists]: [os.Stat] finds the metadata file. *)
Definition SnapshotExists (m : Manager) (fs : OS.FS) (date : string) : bool :=
  let metaPath := Config.MetadataPath (GetSnapshotDir m date) in
  match OS.files fs !! metaPath with Some _ => true | None => false end.

(** [SetLatest]: [os.Remove] of what is at the latest path, then
    [os.Symlink]; [ok] says whether the link can be created. *)
Definition SetLatest (m : Manager) (fs : OS.FS) (date : string) (ok : bool)
  : OS.FS * option error :=
  let latestPath := Config.LatestSnapshotPath (cacheDir m) in
  let fs := {| OS.files := delete latestPath (OS.files fs);
               OS.links := delete latestPath (OS.links fs) |} in
  if ok then ({| OS.files := OS.files fs; OS.links := <[latestPath := date]> (OS.links fs) |}, None)
  else (fs, Some ErrIO).

(** *** Stores used in the examples *)

Definition exampleManager : Manager := mkManager "/cache".

Definition metaOf (date : string) : Metadata :=
  {| Version := 1; CreatedAt := 0; RequestedTime := date; ActualQueryTime := date;
     CountriesCount := 1; Countries := ["us"]; PrefixesV4 := 1; PrefixesV6 := 0;
     IndexFormatVersion := 1; Source := "RIPEstat country-resource-list";
     IsLatest := true |}.

(** No latest link; two date directories, of which only the older one
    holds a metadata file. *)
Definition storeNewestWithoutMetadata : Store :=
  {| readlink := fun _ => None;
     ensureDir := fun _ => None;
     entries := fun _ => Some [ mkDirEntry "2025-01-01" true;
                                mkDirEntry "2025-01-02" true ];
     loadMetadata := fun path =>
       if String.eqb path "/cache/snapshots/2025-01-01/metadata.json"
       then Some (metaOf "2025-01-01") else None |}.

(** A directory whose ten-character name has its two hyphens at the
    positions 5 and 7, next to a date directory and the latest link. *)
Definition storeMisplacedHyphens : Store :=
  {| readlink := fun _ => Some "2025-01-15";
     ensureDir := fun _ => None;
     entries := fun _ => Some [ mkDirEntry "latest" false;
                                mkDirEntry "20250-1-15" true;
                                mkDirEntry "2025-01-15" true ];
     loadMetadata := fun _ => Some (metaOf "2025-01-15") |}.

(** The latest link, resolved as [GetLatestSnapshot] does, and the
    snapshot behind it when its metadata loads. *)
Definition linkedSnapshot (m : Manager) (st : Store) : option (string * Metadata) :=
  match readlink st (Config.LatestSnapshotPath (cacheDir m)) with
  | None => None
  | Some target =>
      let target := if negb (OS.IsAbs target)
                    then OS.Join (Config.SnapshotsDir (cacheDir m)) target else target in
      match loadMetadata st (Config.MetadataPath target) with
      | Some meta => Some (target, meta)
      | None => None
      end
  end.

(** The orders of the two sorts: [os.ReadDir] sorts entries by name,
    [sort.Strings] sorts names. *)
Definition nameLe (a b : DirEntry) : Prop := String.leb (Name a) (Name b) = true.
Definition strLe (a b : string) : Prop := String.leb a b = true.

End Snapshot.

(** ** Package cli: the update command (update.go, runUpdate)

    What [runUpdate] reads from outside is gathered in [Env]: the flags, the
    clock, the list of country codes (package [countries] is not part of the
    sources at hand: its result is an input), the outcome of every fetch, the
    order in which the download goroutines enter the critical section, and
    the faults of the operating system.  Printing is not modelled. *)

Module Ripestat.
Record CountryResourceListResult : Type := mkResult {
  CountryCode : string;
  IPv4 : list string;
  IPv6 : list string;
  QueryTime : string;
  RawJSON : list byte
}.
End Ripestat.

Module Cli.
Import Ripestat.

Record Env : Type := mkEnv {
  force : bool;
  keepRaw : bool;
  timeFlag : string;
  cacheDir : string;
  today : string;                       (* time.Now().Format("2006-01-02") *)
  now : Z;                              (* time.Now().UTC() *)
  countryCodes : result (list string);  (* countries file, or all codes *)
  (* client.GetCountryResourceList in goroutine [idx], for its code *)
  fetch : nat -> string -> result CountryResourceListResult;
  (* the indices of the goroutines, in the order they take the mutex *)
  schedule : list nat;
  mkdirOk : bool;                       (* CreateSnapshot's EnsureDir *)
  rawDirOk : bool;                      (* EnsureDir of the raw directory *)
  faultV4 : OS.fault;
  faultV6 : OS.fault;
  faultMeta : OS.fault;
  symlinkOk : bool
}.

(** The state shared by the download goroutines, under the mutex. *)
Record Download : Type := mkDownload {
  results : list (option CountryResourceListResult);
  errors : list string;
  dfs : OS.FS
}.

(** The critical section of goroutine [idx]. *)
Definition downloadStep (env : Env) (codes : list string) (snapshotDir : string)
           (d : Download) (idx : nat) : Download :=
  match codes !! idx with
  | None => d
  | Some countryCode =>
      match fetch env idx countryCode with
      | Err _ =>
          {| results := results d; errors := errors d ++ [countryCode]; dfs := dfs d |}
      | Ok result =>
          {| results := <[idx := Some result]> (results d);
             errors := errors d;
             dfs := if keepRaw env
                    then OS.setFile (dfs d)
                           (OS.Join (Config.RawDir snapshotDir) (countryCode ++ ".json"))
                           (RawJSON result)
                    else dfs d |}
      end
  end.

Definition download (env : Env) (codes : list string) (snapshotDir : string) (fs : OS.FS)
  : Download :=
  fold_left (downloadStep env codes snapshotDir) (schedule env)
            {| results := replicate (length codes) None; errors := []; dfs := fs |}.

(** [for _, prefix := range ...: if InsertCIDR(...) == nil { count++ }] *)
Definition insertPrefixes `{Netip.IPv6Text} (acc : Index.Trie * Z)
           (prefixes : list string) (countryCode : string) : Index.Trie * Z :=
  fold_left (fun '(t, count) prefix =>
               match Index.InsertCIDR t prefix countryCode with
               | Ok t' => (t', count + 1)
               | Err _ => (t, count)
               end) prefixes acc.

Definition buildIndex `{Netip.IPv6Text} (isIPv6 : bool)
           (results : list (option CountryResourceListResult)) : Index.Trie * Z :=
  fold_left (fun acc result =>
               match result with
               | None => acc
               | Some r => insertPrefixes acc (if isIPv6 then IPv6 r else IPv4 r)
                                          (CountryCode r)
               end) results (Index.NewTrie isIPv6, 0).

(** The first non-empty query time of the results, else the date. *)
Fixpoint actualQueryTime (snapshotDate : string)
         (results : list (option CountryResourceListResult)) : string :=
  match results with
  | [] => snapshotDate
  | Some r :: rest =>
      if negb (String.eqb (QueryTime r) "") then QueryTime r
      else actualQueryTime snapshotDate rest
  | None :: rest => actualQueryTime snapshotDate rest
  end.

Definition buildMetadata (env : Env) (snapshotDate : string) (codes : list string)
           (results : list (option CountryResourceListResult)) (v4Count v6Count : Z)
  : Snapshot.Metadata :=
  let meta := Snapshot.NewMetadata (now env) in
  {| Snapshot.Version := Snapshot.Version meta;
     Snapshot.CreatedAt := Snapshot.CreatedAt meta;
     Snapshot.RequestedTime := snapshotDate;
     Snapshot.ActualQueryTime := actualQueryTime snapshotDate results;
     Snapshot.CountriesCount := Z.of_nat (length codes);
     Snapshot.Countries := codes;
     Snapshot.PrefixesV4 := v4Count;
     Snapshot.PrefixesV6 := v6Count;
     Snapshot.IndexFormatVersion := Snapshot.IndexFormatVersion meta;
     Snapshot.Source := Snapshot.Source meta;
     Snapshot.IsLatest := true |}.

Definition runUpdate `{Netip.IPv6Text} `{Snapshot.MetadataJSON} (env : Env) (fs : OS.FS)
  : OS.FS * option error :=
  let snapshotDate := if String.eqb (timeFlag env) "" then today env else timeFlag env in
  let mgr := Snapshot.mkManager (cacheDir env) in
  if negb (force env) && Snapshot.SnapshotExists mgr fs snapshotDate then (fs, None)
  else
    match countryCodes env with
    | Err e => (fs, Some e)
    | Ok codes =>
        if negb (mkdirOk env) then (fs, Some ErrIO)
        else
          let snapshotDir := Snapshot.GetSnapshotDir mgr snapshotDate in
          if keepRaw env && negb (rawDirOk env) then (fs, Some ErrIO)
          else
            let d := download env codes snapshotDir fs in
            let '(v4Trie, v4Count) := buildIndex false (results d) in
            let '(v6Trie, v6Count) := buildIndex true (results d) in
            match IndexFile.SaveIndex (dfs d) (Config.IndexV4Path snapshotDir)
                                      (Config.IndexV6Path snapshotDir)
                                      v4Trie v6Trie (faultV4 env) (faultV6 env) with
            | (fs, Some e) => (fs, Some e)
            | (fs, None) =>
                let meta := buildMetadata env snapshotDate codes (results d)
                                          v4Count v6Count in
                match Snapshot.Save meta fs (Config.MetadataPath snapshotDir)
                                    (faultMeta env) with
                | (fs, Some e) => (fs, Some e)
                | (fs, None) =>
                    (* a failure of SetLatest is only a warning *)
                    let '(fs, _) := Snapshot.SetLatest mgr fs snapshotDate (symlinkOk env) in
                    (fs, None)
                end
            end
    end.

(** The texts of a family's lists that [InsertCIDR] accepts into a trie
    of that family. *)
Definition accepted `{Netip.IPv6Text} (isIPv6 : bool) (prefix : string) : bool :=
  match Netip.ParsePrefix prefix with
  | Some p => Bool.eqb (Netip.Is6 (Netip.PAddr p)) isIPv6
  | None => false
  end.

(** The outcome of the fetches, by index. *)
Definition fetched (env : Env) (codes : list string)
  : list (option CountryResourceListResult) :=
  imap (fun idx cc => match fetch env idx cc with Ok r => Some r | Err _ => None end) codes.

Definition fetchedPrefixes (isIPv6 : bool)
           (rs : list (option CountryResourceListResult)) : list string :=
  concat (map (fun o => match o with
                        | Some r => if isIPv6 then IPv6 r else IPv4 r
                        | None => []
                        end) rs).

(** The same run under another order of the goroutines. *)
Definition withSchedule (env : Env) (sch : list nat) : Env :=
  {| force := force env; keepRaw := keepRaw env; timeFlag := timeFlag env;
     cacheDir := cacheDir env; today := today env; now := now env;
     countryCodes := countryCodes env; fetch := fetch env; schedule := sch;
     mkdirOk := mkdirOk env; rawDirOk := rawDirOk env;
     faultV4 := faultV4 env; faultV6 := faultV6 env; faultMeta := faultMeta env;
     symlinkOk := symlinkOk env |}.

(** *** Values used in the examples *)

(** A stand-in for [encoding/json]: the requested date is all that is
    written. *)
Definition exampleJSON : Snapshot.MetadataJSON :=
  {| Snapshot.marshalIndent := fun m => list_byte_of_string (Snapshot.RequestedTime m);
     Snapshot.unmarshal := fun _ => None |}.

(** Two countries are requested; the fetch for "de" fails, the one for
    "us" returns one well-formed prefix and one whose length is out of
    range. *)
Definition exampleEnv : Env :=
  {| force := false; keepRaw := false;
     timeFlag := "2025-01-15"; cacheDir := "/cache"; today := "2025-01-16"; now := 0;
     countryCodes := Ok ["de"; "us"]%string;
     fetch := fun _ cc =>
       if String.eqb cc "us"
       then Ok {| CountryCode := "US"; IPv4 := ["8.8.8.0/24"; "8.8.8.8/33"]%string;
                  IPv6 := []; QueryTime := "2025-01-15T00:00:00"; RawJSON := [] |}
       else Err ErrIO;
     schedule := [1; 0]%nat;
     mkdirOk := true; rawDirOk := true;
     faultV4 := OS.NoFault; faultV6 := OS.NoFault; faultMeta := OS.NoFault;
     symlinkOk := true |}.

End Cli.

(** ** The trie operations with the run-time checks of Go made explicit

    Indexing a slice outside its bounds, indexing the two-element array of
    children with something else than 0 or 1, and shifting by a negative
    count panic in Go.  In this layer every such operation returns [None]
    when it would panic; the functions are otherwise those of [Index]. *)

Module Checked.
Import Index.

(** [data[i]] *)
Definition index (data : list byte) (i : Z) : option byte :=
  if (i <? 0) || (i >=? Z.of_nat (length data)) then None
  else data !! Z.to_nat i.

(** [node.Children[bit]] is in range for the indices 0 and 1. *)
Definition inRange2 (bit : Z) : bool := (bit =? 0) || (bit =? 1).

Definition getBit (data : list byte) (pos : Z) : option Z :=
  let byteIdx := Z.quot pos 8 in
  let bitIdx := 7 - Z.rem pos 8 in
  if byteIdx >=? Z.of_nat (length data) then Some 0
  else
    match index data byteIdx with
    | None => None
    | Some b => if bitIdx <? 0 then None
                else Some (Z.land (Z.shiftr (byte.unsigned b) bitIdx) 1)
    end.

(** [result[byteIdx] |= 1 << bitIdx] *)
Definition orBit (result : list byte) (i : Z) : option (list byte) :=
  let byteIdx := Z.quot i 8 in
  let bitIdx := 7 - Z.rem i 8 in
  match index result byteIdx with
  | None => None
  | Some b =>
      if bitIdx <? 0 then None
      else Some (<[Z.to_nat byteIdx :=
                    byte.of_Z (Z.lor (byte.unsigned b) (Z.shiftl 1 bitIdx))]> result)
  end.

Fixpoint extractLoop (data : list byte) (start : Z) (n : nat) (i : Z)
         (result : list byte) : option (list byte) :=
  match n with
  | O => Some result
  | S n' =>
      match getBit data (start + i) with
      | None => None
      | Some bit =>
          match (if bit =? 1 then orBit result i else Some result) with
          | None => None
          | Some result => extractLoop data start n' (i + 1) result
          end
      end
  end.

Definition extractBits (data : list byte) (start length : Z) : option (list byte) :=
  if length <=? 0 then Some []
  else extractLoop data start (Z.to_nat length) 0
                   (replicate (Z.to_nat (Z.quot (length + 7) 8)) Byte.x00).

Fixpoint commonLoop (bits childBits : list byte) (pos : Z) (n : nat) (i : Z) : option Z :=
  match n with
  | O => Some i
  | S n' =>
      match getBit bits (pos + i), getBit childBits i with
      | Some a, Some b => if negb (a =? b) then Some i
                          else commonLoop bits childBits pos n' (i + 1)
      | _, _ => None
      end
  end.

Fixpoint insertRecursive (node : TrieNode) (bits : list byte) (pos prefixLen : Z)
         (data : PrefixData) {struct node} : option TrieNode :=
  if pos =? prefixLen then Some (setData node (Some data))
  else
    match getBit bits pos with
    | None => None
    | Some bit =>
        if negb (inRange2 bit) then None else
        match Children node bit with
        | None =>
            match extractBits bits pos (prefixLen - pos) with
            | None => None
            | Some p => Some (setChild node bit (Some (leaf p (prefixLen - pos) data)))
            end
        | Some child =>
            let childBits := Prefix child in
            let childLen := PrefixLen child in
            let remainingLen := prefixLen - pos in
            let maxCheck := min remainingLen childLen in
            match commonLoop bits childBits pos (Z.to_nat maxCheck) 0 with
            | None => None
            | Some commonLen =>
                if commonLen =? childLen then
                  if commonLen =? remainingLen then
                    Some (setChild node bit (Some (setData child (Some data))))
                  else
                    match insertRecursive child bits (pos + childLen) prefixLen data with
                    | None => None
                    | Some child' => Some (setChild node bit (Some child'))
                    end
                else
                  match extractBits bits pos commonLen,
                        getBit childBits commonLen,
                        extractBits childBits commonLen (childLen - commonLen) with
                  | Some pp, Some oldChildBit, Some cp =>
                      let newParent :=
                        {| Prefix := pp; PrefixLen := commonLen;
                           Data := None; Child0 := None; Child1 := None |} in
                      let child := setEdge child cp (childLen - commonLen) in
                      if negb (inRange2 oldChildBit) then None
                      else
                          let newParent := setChild newParent oldChildBit (Some child) in
                          if commonLen =? remainingLen then
                            Some (setChild node bit (Some (setData newParent (Some data))))
                          else
                            match getBit bits (pos + commonLen),
                                  extractBits bits (pos + commonLen)
                                              (remainingLen - commonLen) with
                            | Some newLeafBit, Some lp =>
                                if negb (inRange2 newLeafBit) then None
                                else
                                  let newLeaf := leaf lp (remainingLen - commonLen) data in
                                  Some (setChild node bit
                                          (Some (setChild newParent newLeafBit
                                                          (Some newLeaf))))
                            | _, _ => None
                            end
                  | _, _, _ => None
                  end
            end
        end
    end.

Fixpoint matchLoop (bits childPrefix : list byte) (pos childLen childPrefixLen : Z)
         (n : nat) (i : Z) : option bool :=
  match n with
  | O => Some true
  | S n' =>
      if (i <? childLen) && (i <? childPrefixLen) then
        match getBit bits (pos + i), getBit childPrefix i with
        | Some a, Some b =>
            if negb (a =? b) then Some false
            else matchLoop bits childPrefix pos childLen childPrefixLen n' (i + 1)
        | _, _ => None
        end
      else Some true
  end.

Fixpoint lookupLoop (node : TrieNode) (bits : list byte) (pos maxBits : Z)
         (lastMatch : option PrefixData) {struct node} : option (option PrefixData) :=
  let lastMatch := match Data node with Some d => Some d | None => lastMatch end in
  if pos >=? maxBits then Some lastMatch
  else
    match getBit bits pos with
    | None => None
    | Some bit =>
        if negb (inRange2 bit) then None else
        match Children node bit with
        | None => Some lastMatch
        | Some child =>
            let childLen :=
              if pos + PrefixLen child >? maxBits then maxBits - pos else PrefixLen child in
            match matchLoop bits (Prefix child) pos childLen (PrefixLen child)
                            (Z.to_nat childLen) 0 with
            | None => None
            | Some matches =>
                if negb matches then Some lastMatch
                else lookupLoop child bits (pos + PrefixLen child) maxBits lastMatch
            end
        end
    end.

Definition lookupRecursive (node : option TrieNode) (bits : list byte) (pos maxBits : Z)
  : option (option PrefixData) :=
  match node with
  | None => Some None
  | Some n => lookupLoop n bits pos maxBits None
  end.

(** Every edge length below the node is non-negative. *)
Fixpoint nonnegLens (n : TrieNode) : bool :=
  match Child0 n with Some c => (0 <=? PrefixLen c) && nonnegLens c | None => true end &&
  match Child1 n with Some c => (0 <=? PrefixLen c) && nonnegLens c | None => true end.

Definition nonnegRoot (t : Trie) : bool :=
  match Root t with Some r => nonnegLens r | None => true end.

(** [Insert] and [Lookup] over the checked operations.  A nil root is the
    nil dereference that [Index.Insert] reports: it is no index error. *)
Definition Insert (t : Trie) (prefix : Netip.Prefix) (data : PrefixData)
  : option (result Trie) :=
  if negb (Bool.eqb (Netip.Is6 (Netip.PAddr prefix)) (IsIPv6 t))
  then Some (Err ErrVersionMismatch)
  else
    let bits := prefixToBits prefix in
    let prefixLen := Netip.Bits prefix in
    match Root t with
    | None => Some (Err PanicNilDeref)
    | Some root =>
        match insertRecursive root bits 0 prefixLen data with
        | None => None
        | Some root' =>
            Some (Ok {| Root := Some root'; IsIPv6 := IsIPv6 t; Count := Count t + 1 |})
        end
    end.

Definition Lookup (t : Trie) (ip : Netip.Addr) : option (option PrefixData) :=
  if negb (Bool.eqb (Netip.Is6 ip) (IsIPv6 t)) then Some None
  else
    let bits := addrToBits ip in
    let maxBits := if IsIPv6 t then 128 else 32 in
    lookupRecursive (Root t) bits 0 maxBits.

End Checked.

(** ** Predicates used to state and prove the properties of the trie *)

Module TrieSpec.
Import Index.

(** Width of an address of a family, as [Lookup] picks [maxBits]. *)
Definition familyBits (isIPv6 : bool) : Z := if isIPv6 then 128 else 32.

(** The bits of [k] from [pos] on spell the edge of [c]. *)
Definition edgeAgree (k : list byte) (pos : Z) (c : TrieNode) : Prop :=
  forall i, 0 <= i < PrefixLen c -> getBit k (pos + i) = getBit (Prefix c) i.

(** [stores n pos k kl d]: walking down from node [n], reached at depth
    [pos], along the bits of [k], a node carrying [d] is reached at depth
    exactly [kl]; that is, the key made of the first [kl] bits of [k] is
    bound to [d]. *)
Inductive stores : TrieNode -> Z -> list byte -> Z -> PrefixData -> Prop :=
| stores_here n pos k kl d :
    pos = kl -> Data n = Some d -> stores n pos k kl d
| stores_child n pos k kl d c :
    pos < kl ->
    Children n (getBit k pos) = Some c ->
    0 <= PrefixLen c -> pos + PrefixLen c <= kl ->
    edgeAgree k pos c ->
    stores c (pos + PrefixLen c) k kl d ->
    stores n pos k kl d.

(** [via oc pos k kl d]: the same, entering through the child slot [oc]. *)
Definition via (oc : option TrieNode) (pos : Z) (k : list byte) (kl : Z)
           (d : PrefixData) : Prop :=
  exists c, oc = Some c /\ 0 <= PrefixLen c /\ pos + PrefixLen c <= kl /\
            edgeAgree k pos c /\ stores c (pos + PrefixLen c) k kl d.

(** Shape invariant of the nodes below a node at depth [pos]: every child
    has a non-empty edge whose first bit is the index of its slot, and no
    path is longer than [maxBits]. *)
Definition wfEdge (maxBits pos b : Z) (c : TrieNode) : bool :=
  (1 <=? PrefixLen c) && (pos + PrefixLen c <=? maxBits) && (getBit (Prefix c) 0 =? b).

Fixpoint wfNode (maxBits : Z) (n : TrieNode) (pos : Z) {struct n} : bool :=
  match Child0 n with
  | None => true
  | Some c => wfEdge maxBits pos 0 c && wfNode maxBits c (pos + PrefixLen c)
  end &&
  match Child1 n with
  | None => true
  | Some c => wfEdge maxBits pos 1 c && wfNode maxBits c (pos + PrefixLen c)
  end.

(** [sameKey bits plen pos k kl]: from bit [pos] on, the key [(k, kl)] is
    the key [(bits, plen)]. *)
Definition sameKey (bits : list byte) (plen pos : Z) (k : list byte) (kl : Z) : Prop :=
  kl = plen /\ forall i, pos <= i < plen -> getBit bits i = getBit k i.

(** What [lookupLoop] returns, in terms of the records bound along the
    path of the address. *)
Definition lookupPost (n : TrieNode) (A : list byte) (pos : Z)
           (last r : option PrefixData) : Prop :=
  ((forall kl d, ~ stores n pos A kl d) /\ r = last) \/
  (exists kl d, stores n pos A kl d /\
                (forall kl' d', stores n pos A kl' d' -> kl' <= kl) /\ r = Some d).

(** A sequence of [Insert] calls. *)
Definition entry : Type := Netip.Prefix * PrefixData.

Fixpoint insertAll (t : Trie) (l : list entry) : result Trie :=
  match l with
  | [] => Ok t
  | (p, d) :: l' =>
      match Insert t p d with
      | Ok t' => insertAll t' l'
      | Err e => Err e
      end
  end.

(** [agreeb a b len]: the first [len] bits of [a] and [b] are equal. *)
Definition agreeb (a b : list byte) (len : Z) : bool :=
  forallb (fun i => getBit a i =? getBit b i) (seqZ 0 len).

(** The prefix contains the address: its bits are a prefix of the
    address's bits. *)
Definition Contains (p : Netip.Prefix) (ip : Netip.Addr) : bool :=
  agreeb (prefixToBits p) (addrToBits ip) (Netip.Bits p).

(** Two prefixes are the same key [(bits, len)]. *)
Definition sameKeyB (p q : Netip.Prefix) : bool :=
  (Netip.Bits p =? Netip.Bits q) &&
  agreeb (prefixToBits p) (prefixToBits q) (Netip.Bits p).

Fixpoint distinctKeys (l : list entry) : bool :=
  match l with
  | [] => true
  | (p, _) :: l' => forallb (fun e => negb (sameKeyB p (fst e))) l' && distinctKeys l'
  end.

(** A prefix of the family: the family tag and a length in range. *)
Definition validPrefix (isIPv6 : bool) (p : Netip.Prefix) : bool :=
  Bool.eqb (Netip.Is6 (Netip.PAddr p)) isIPv6 &&
  (0 <=? Netip.Bits p) && (Netip.Bits p <=? familyBits isIPv6).

(** Concrete values used in the examples. *)
Definition ip4 (a b c d : Z) : Netip.Addr :=
  Netip.mkAddr false [byte.of_Z a; byte.of_Z b; byte.of_Z c; byte.of_Z d].

Definition cidr4 (a b c d n : Z) : Netip.Prefix := Netip.mkPrefix (ip4 a b c d) n.

Definition scenario1 : list entry :=
  [ (cidr4 8 8 8 0 24, mkPrefixData "US" "8.8.8.0/24");
    (cidr4 8 8 0 0 16, mkPrefixData "US" "8.8.0.0/16");
    (cidr4 1 0 0 0 8, mkPrefixData "AU" "1.0.0.0/8") ].

(** An [IPv6Text] that accepts no IPv6 text, for the IPv4 examples. *)
Definition ipv4Only : Netip.IPv6Text :=
  {| Netip.parseIPv6 := fun _ => None; Netip.formatIPv6 := fun _ => EmptyString |}.

(** A linear scan over a sequence of inserted entries, the reference for
    [Lookup]: of the entries whose prefix contains the address, the last
    one among those of greatest prefix length. *)
Definition scanStep (ip : Netip.Addr) (acc : option (Z * PrefixData)) (e : entry)
  : option (Z * PrefixData) :=
  if Contains (fst e) ip &&
     match acc with Some (n, _) => n <=? Netip.Bits (fst e) | None => true end
  then Some (Netip.Bits (fst e), snd e) else acc.

Definition scan (l : list entry) (ip : Netip.Addr) : option PrefixData :=
  option_map snd (fold_left (scanStep ip) l None).

(** The number of nodes of a trie. *)
Fixpoint nodeCount (n : TrieNode) : nat :=
  S (match Child0 n with Some c => nodeCount c | None => 0 end +
     match Child1 n with Some c => nodeCount c | None => 0 end).

Definition trieNodes (t : Trie) : nat :=
  match Root t with Some r => nodeCount r | None => 0 end.

(** The value of the byte of [data] at index [i], 0 beyond its end. *)
Definition byteAt (data : list byte) (i : Z) : Z :=
  byte.unsigned (default Byte.x00 (data !! Z.to_nat i)).

End TrieSpec.

(** ** Package ripestat: the HTTP client (client.go)

    The network and the context are the environment of [Client.Get]: what
    each request returns, whether the context is done when the client
    waits or after a failed request, and what the random source draws are
    given by a [World].  Durations are counts of nanoseconds, in the 64
    bits of [time.Duration]. *)

Module Client.

Definition MaxRetries : Z := 3.
Definition BaseBackoff : Z := 1000000000.
Definition MaxBackoff : Z := 30000000000.

(** An integer as the 64-bit signed value with the same low 64 bits. *)
Definition wrap64 (z : Z) : Z := (z + 2 ^ 63) mod 2 ^ 64 - 2 ^ 63.

(** [calculateBackoff]; [int63n] is the draw of [rand.Int63n], which
    panics when its argument is not positive: [None]. *)
Definition calculateBackoff (int63n : Z -> Z) (attempt : Z) : option Z :=
  let s := (attempt - 1) mod 2 ^ 64 in                      (* uint(attempt-1) *)
  let shifted := if s <? 64 then wrap64 (2 ^ s) else 0 in   (* 1 << s *)
  let backoff := wrap64 (BaseBackoff * shifted) in
  let backoff := if backoff >? MaxBackoff then MaxBackoff else backoff in
  let n := Z.quot backoff 4 in
  if n <=? 0 then None
  else Some (wrap64 (backoff + int63n n)).

Section Get.
Variables R E : Type.

Record World : Type := mkWorld {
  doRequest : nat -> R + E;     (* what the request of an attempt returns *)
  doneInWait : nat -> bool;     (* the select of an attempt receives from ctx.Done() *)
  errAfter : nat -> bool;       (* ctx.Err() != nil after the failed request *)
  draw : nat -> Z -> Z          (* rand.Int63n in the backoff of an attempt *)
}.

Inductive outcome : Type :=
| Response (r : R)
| CtxErr                        (* ctx.Err() *)
| AfterRetries (lastErr : E).   (* "after 3 retries: ..." *)

(** What a call did: the requests it made and the backoffs it slept. *)
Record trace : Type := mkTrace { requests : nat; waits : list Z }.

(** The [for attempt := 0; attempt <= MaxRetries; attempt++] loop, with
    [n] iterations left; [None] is a panic. *)
Fixpoint getLoop (w : World) (n : nat) (attempt : nat) (lastErr : option E) (tr : trace)
  : option (outcome * trace) :=
  match n with
  | O =>
      match lastErr with
      | Some e => Some (AfterRetries e, tr)
      | None => None             (* not reached: the loop runs at least once *)
      end
  | S n' =>
      let request tr :=
        let tr := {| requests := S (requests tr); waits := waits tr |} in
        match doRequest w attempt with
        | inl resp => Some (Response resp, tr)
        | inr err =>
            if errAfter w attempt then Some (CtxErr, tr)
            else getLoop w n' (S attempt) (Some err) tr
        end in
      if (0 <? attempt)%nat then
        match calculateBackoff (draw w attempt) (Z.of_nat attempt) with
        | None => None
        | Some backoff =>
            if doneInWait w attempt then Some (CtxErr, tr)
            else request {| requests := requests tr; waits := waits tr ++ [backoff] |}
        end
      else request tr
  end.

Definition Get (w : World) : option (outcome * trace) :=
  getLoop w (Z.to_nat (MaxRetries + 1)) 0 None {| requests := 0; waits := [] |}.

(** A failure of every attempt below [k]. *)
Definition failsBefore (w : World) (k : nat) : Prop :=
  forall j, (j < k)%nat -> exists e, doRequest w j = inr e.

(** A context that is never done. *)
Definition neverDone (w : World) : Prop :=
  forall i, doneInWait w i = false /\ errAfter w i = false.

(** A random source that keeps the contract of [rand.Int63n]. *)
Definition drawsInRange (w : World) : Prop :=
  forall i n, 0 < n -> 0 <= draw w i n < n.
End Get.

Arguments doRequest {R E} w attempt.
Arguments doneInWait {R E} w attempt.
Arguments errAfter {R E} w attempt.
Arguments draw {R E} w attempt n.
Arguments Response {R E} r.
Arguments CtxErr {R E}.
Arguments AfterRetries {R E} lastErr.
Arguments Get {R E} w.
Arguments getLoop {R E} w n attempt lastErr tr.
Arguments failsBefore {R E} w k.
Arguments neverDone {R E} w.
Arguments drawsInRange {R E} w.

End Client.

(** ** Package provider: the cache of ASN holders (cache.go)

    Every method runs under the mutex of the cache, so a method is one
    step on the state of the cache.  An instant of [time.Time] is a count
    of nanoseconds, and [time.Now()] is the argument [now].  [Load] and
    [Save], which go through [encoding/json], are not modelled. *)

Module ProviderCache.

Record CacheEntry : Type := mkCacheEntry {
  Holder : string;
  CachedAt : Z;
  ExpiresAt : Z
}.

Record Cache : Type := mkCache {
  entries : gmap Z CacheEntry;
  path : string;
  ttl : Z;
  dirty : bool
}.

Definition Hour : Z := 3600000000000.

(** [time.Duration(ttlDays) * 24 * time.Hour], in 64 bits. *)
Definition NewCache (path : string) (ttlDays : Z) : Cache :=
  {| entries := empty; path := path;
     ttl := Client.wrap64 (Client.wrap64 (ttlDays * 24) * Hour);
     dirty := false |}.

Definition Get (c : Cache) (now : Z) (asn : Z) : string * bool :=
  match entries c !! asn with
  | None => (EmptyString, false)
  | Some entry =>
      if now >? ExpiresAt entry then (EmptyString, false)
      else (Holder entry, true)
  end.

(** [Set]; the name is a keyword here. *)
Definition Set' (c : Cache) (now : Z) (asn : Z) (holder : string) : Cache :=
  {| entries := <[asn := {| Holder := holder; CachedAt := now; ExpiresAt := now + ttl c |}]>
                  (entries c);
     path := path c; ttl := ttl c; dirty := true |}.

Definition Clear (c : Cache) : Cache :=
  {| entries := empty; path := path c; ttl := ttl c; dirty := true |}.

(** [Cleanup]: every entry that has expired is deleted and counted. *)
Definition expired (now : Z) (entry : CacheEntry) : bool := now >? ExpiresAt entry.

Definition Cleanup (c : Cache) (now : Z) : Cache * Z :=
  let kept := filter (fun kv => expired now (snd kv) = false) (entries c) in
  let removed := Z.of_nat (size (filter (fun kv => expired now (snd kv) = true) (entries c))) in
  ({| entries := kept; path := path c; ttl := ttl c;
      dirty := if removed >? 0 then true else dirty c |}, removed).

Definition Size (c : Cache) : Z := Z.of_nat (size (entries c)).

End ProviderCache.

(** ** Package ripestat: whois (whois.go)

    [GetWhois] after the request and the decoding of its answer, which
    are its environment: the fields are read off the decoded record sets.
    [strings.ToLower] is a parameter. *)

Module Whois.

Record WhoisRecord : Type := mkWhoisRecord { Key : string; Value : string }.

Record WhoisResult : Type := mkWhoisResult {
  Resource : string;
  OrgName : string;
  Description : string;
  Country : string;
  NetName : string
}.

Definition isEmpty (s : string) : bool := String.eqb s EmptyString.

(** The body of the inner loop of [GetWhois]. *)
Definition readRecord (ToLower : string -> string) (result : WhoisResult)
           (record : WhoisRecord) : WhoisResult :=
  let key := ToLower (Key record) in
  if String.eqb key "org-name" || String.eqb key "orgname" then
    if isEmpty (OrgName result)
    then {| Resource := Resource result; OrgName := Value record;
            Description := Description result; Country := Country result;
            NetName := NetName result |}
    else result
  else if String.eqb key "descr" || String.eqb key "description" then
    if isEmpty (Description result)
    then {| Resource := Resource result; OrgName := OrgName result;
            Description := Value record; Country := Country result;
            NetName := NetName result |}
    else result
  else if String.eqb key "country" then
    if isEmpty (Country result)
    then {| Resource := Resource result; OrgName := OrgName result;
            Description := Description result; Country := Value record;
            NetName := NetName result |}
    else result
  else if String.eqb key "netname" || String.eqb key "net-name" then
    if isEmpty (NetName result)
    then {| Resource := Resource result; OrgName := OrgName result;
            Description := Description result; Country := Country result;
            NetName := Value record |}
    else result
  else result.

(** [GetWhois] on the decoded record sets, or the error of the request
    or of the decoding. *)
Definition GetWhois (ToLower : string -> string) (resource : string)
           (records : result (list (list WhoisRecord))) : result WhoisResult :=
  match records with
  | Err e => Err e
  | Ok records =>
      Ok (fold_left (fun result recordSet => fold_left (readRecord ToLower) recordSet result)
                    records
                    {| Resource := resource; OrgName := ""; Description := "";
                       Country := ""; NetName := "" |})
  end.

(** [GetProviderFromWhois]; [None] is the error that no provider
    information was found. *)
Definition GetProviderFromWhois (ToLower : string -> string) (resource : string)
           (records : result (list (list WhoisRecord))) : result (option string) :=
  match GetWhois ToLower resource records with
  | Err e => Err e
  | Ok result =>
      if negb (isEmpty (OrgName result)) then Ok (Some (OrgName result))
      else if negb (isEmpty (Description result)) then Ok (Some (Description result))
      else if negb (isEmpty (NetName result)) then Ok (Some (NetName result))
      else Ok None
  end.

(** The first text of a list that is not empty, or the empty text. *)
Fixpoint firstNonEmpty (l : list string) : string :=
  match l with
  | [] => EmptyString
  | s :: l' => if isEmpty s then firstNonEmpty l' else s
  end.

(** The values of the records whose lower-cased key is one of [keys],
    in the order of the record sets. *)
Definition valuesOf (ToLower : string -> string) (keys : list string)
           (records : list (list WhoisRecord)) : list string :=
  map Value (List.filter (fun r => existsb (String.eqb (ToLower (Key r))) keys)
                         (concat records)).

(** Lower-casing of the ASCII letters, for the examples. *)
Definition lowerAscii (c : ascii) : ascii :=
  if (65 <=? nat_of_ascii c)%nat && (nat_of_ascii c <=? 90)%nat
  then ascii_of_nat (nat_of_ascii c + 32) else c.

Fixpoint lowerAsciiString (s : string) : string :=
  match s with
  | EmptyString => EmptyString
  | String c s' => String (lowerAscii c) (lowerAsciiString s')
  end.

End Whois.

(** ** Packages provider and output: the text of a result
    (resolver.go: Result, GetHolderString; formatter.go) *)

Module Output.

Record ProviderResult : Type := mkProviderResult {
  Mode : string;
  ASNs : list Z;
  Holders : list string;
  Source : string;
  Cached : bool;
  PError : string               (* the field [Error] of [provider.Result] *)
}.

(** [GetHolderString]: both branches of the test on [Error] return the
    same text. *)
Definition GetHolderString (r : ProviderResult) : string :=
  match Holders r with
  | [] => if negb (String.eqb (PError r) "") then "unknown" else "unknown"
  | h :: _ => h
  end.

Record LookupResult : Type := mkLookupResult {
  IP : string;
  CountryCode : string;
  CountryName : string;
  Network : string;
  Provider : option ProviderResult;
  SnapshotTime : string;
  IndexBuiltAt : Z;
  Error : string
}.

Definition tab : ascii := ascii_of_nat 9.
Definition newline : ascii := ascii_of_nat 10.
Definition tabs : string := String tab EmptyString.

(** [fmt.Sprintf] with [%s] verbs and tabs between them. *)
Definition FormatText (r : LookupResult) : string :=
  if negb (String.eqb (Error r) "") then
    IP r ++ tabs ++ "-" ++ tabs ++ "-" ++ tabs ++ "-" ++ tabs ++ "ERROR: " ++ Error r
  else
    let providerStr :=
      match Provider r with
      | Some p => GetHolderString p
      | None => "unknown"
      end in
    IP r ++ tabs ++ CountryCode r ++ tabs ++ CountryName r ++ tabs ++ Network r ++ tabs ++
    providerStr.

(** [FormatError], on the text of the error. *)
Definition FormatError (ip err : string) : string :=
  ip ++ tabs ++ "-" ++ tabs ++ "-" ++ tabs ++ "-" ++ tabs ++ "ERROR: " ++ err.

(** [strings.Join(lines, "\n")] *)
Fixpoint joinLines (lines : list string) : string :=
  match lines with
  | [] => EmptyString
  | [x] => x
  | x :: rest => x ++ String newline (joinLines rest)
  end.

(** [BatchResult.FormatText] *)
Definition BatchFormatText (results : list LookupResult) : string :=
  joinLines (map FormatText results).

(** [strings.Split] at a separator of one byte, and [strings.Contains]
    for one byte. *)
Definition Split (s : string) (sep : ascii) : list string := Netip.fields sep s.

Fixpoint hasByte (c : ascii) (s : string) : bool :=
  match s with
  | EmptyString => false
  | String x s' => Ascii.eqb x c || hasByte c s'
  end.

(** The five columns of a result. *)
Definition columns (r : LookupResult) : list string :=
  if negb (String.eqb (Error r) "")
  then [IP r; "-"; "-"; "-"; "ERROR: " ++ Error r]%string
  else [IP r; CountryCode r; CountryName r; Network r;
        match Provider r with Some p => GetHolderString p | None => "unknown"%string end].

End Output.

(** ** What the update command puts into its indices *)

Module UpdateSpec.
Import Index.



End UpdateSpec.

(** * Part II: theorems *)

(** ** The trie: insert and lookup *)

Section TrieCorrect.
Import Index TrieSpec.

(** *** The bits of a byte slice *)

Lemma land_1_testbit x : Z.land x 1 = Z.b2z (Z.testbit x 0).
Proof.
  change 1 with (Z.ones 1). rewrite Z.land_ones by lia.
  rewrite Z.bit0_mod. reflexivity.
Qed.

Lemma getBit_01 data pos : getBit data pos = 0 \/ getBit data pos = 1.
Proof.
  unfold getBit. destruct (_ >=? _); [now left|].
  rewrite land_1_testbit. destruct (Z.testbit _ _); simpl; auto.
Qed.

Lemma getBit_testbit data pos :
  0 <= pos ->
  getBit data pos =
    if pos / 8 <? Z.of_nat (length data)
    then Z.b2z (Z.testbit (byteAt data (pos / 8)) (7 - pos mod 8)) else 0.
Proof.
  intros Hpos. unfold getBit, byteAt.
  rewrite Z.quot_div_nonneg, Z.rem_mod_nonneg by lia.
  rewrite Z.geb_leb.
  destruct (Z.ltb_spec (pos / 8) (Z.of_nat (length data))) as [Hlt|Hge];
    destruct (Z.leb_spec (Z.of_nat (length data)) (pos / 8)); try lia.
  rewrite land_1_testbit, Z.shiftr_spec by lia. f_equal.
Qed.

Lemma getBit_beyond data pos :
  0 <= pos -> Z.of_nat (length data) <= pos / 8 -> getBit data pos = 0.
Proof.
  intros. rewrite getBit_testbit by lia.
  destruct (Z.ltb_spec (pos / 8) (Z.of_nat (length data))); [lia|reflexivity].
Qed.

Lemma length_orBit result i : length (orBit result i) = length result.
Proof. unfold orBit. apply length_insert. Qed.

Lemma lor_lt_256 a b : 0 <= a < 256 -> 0 <= b < 256 -> 0 <= Z.lor a b < 256.
Proof.
  intros Ha Hb. split; [apply Z.lor_nonneg; lia|].
  assert (Hl : forall x, 0 <= x < 256 -> Z.log2 x < 8).
  { intros x Hx. destruct (Z.eq_dec x 0) as [->|]; [simpl; lia|].
    apply Z.log2_lt_pow2; lia. }
  destruct (Z.eq_dec (Z.lor a b) 0) as [->|Hne]; [lia|].
  assert (0 <= Z.lor a b) by (apply Z.lor_nonneg; lia).
  change 256 with (2 ^ 8). apply Z.log2_lt_pow2; [lia|].
  rewrite Z.log2_lor by lia. apply Z.max_lub_lt; apply Hl; lia.
Qed.

Lemma shiftl_1_lt_256 k : 0 <= k <= 7 -> 0 <= Z.shiftl 1 k < 256.
Proof.
  intros Hk. rewrite Z.shiftl_1_l. split; [apply Z.pow_nonneg; lia|].
  apply Z.lt_le_trans with (2 ^ 8); [apply Z.pow_lt_mono_r; lia|lia].
Qed.

Lemma byteAt_orBit result i q :
  0 <= i -> i / 8 < Z.of_nat (length result) -> 0 <= q ->
  byteAt (orBit result i) q =
    if q =? i / 8 then Z.lor (byteAt result q) (Z.shiftl 1 (7 - i mod 8)) else byteAt result q.
Proof.
  intros Hi Hlen Hq. unfold orBit, byteAt.
  rewrite Z.quot_div_nonneg, Z.rem_mod_nonneg by lia.
  destruct (Z.eqb_spec q (i / 8)) as [->|Hne].
  - rewrite list_lookup_insert_eq by lia. simpl.
    rewrite byte.unsigned_of_Z. unfold byte.wrap.
    pose proof (Z.mod_pos_bound i 8 ltac:(lia)) as Hm.
    apply Z.mod_small. change (2 ^ 8) with 256.
    apply lor_lt_256; [apply byte.unsigned_range|apply shiftl_1_lt_256; lia].
  - assert (0 <= i / 8) by (apply Z.div_pos; lia). rewrite list_lookup_insert_ne by lia. reflexivity.
Qed.

Lemma getBit_orBit result i j :
  0 <= i -> i / 8 < Z.of_nat (length result) -> 0 <= j ->
  getBit (orBit result i) j = if j =? i then 1 else getBit result j.
Proof.
  intros Hi Hlen Hj.
  rewrite !getBit_testbit by lia. rewrite length_orBit.
  fold (byteAt (orBit result i) (j / 8)).
  rewrite byteAt_orBit by (try lia; apply Z.div_pos; lia).
  pose proof (Z.mod_pos_bound i 8 ltac:(lia)) as Hmi.
  pose proof (Z.mod_pos_bound j 8 ltac:(lia)) as Hmj.
  pose proof (Z.div_mod i 8 ltac:(lia)).
  pose proof (Z.div_mod j 8 ltac:(lia)).
  destruct (Z.eqb_spec j i) as [->|Hne].
  - rewrite Z.eqb_refl.
    destruct (Z.ltb_spec (i / 8) (Z.of_nat (length result))); [|lia].
    rewrite Z.lor_spec, Z.shiftl_spec by lia.
    replace (7 - i mod 8 - (7 - i mod 8)) with 0 by lia.
    simpl. rewrite orb_true_r. reflexivity.
  - destruct (Z.ltb_spec (j / 8) (Z.of_nat (length result))); [|reflexivity].
    destruct (Z.eqb_spec (j / 8) (i / 8)) as [He|]; [|reflexivity].
    rewrite Z.lor_spec, Z.shiftl_spec by lia.
    assert (Hd : 7 - j mod 8 - (7 - i mod 8) <> 0) by lia.
    replace (Z.testbit 1 (7 - j mod 8 - (7 - i mod 8))) with false.
    + rewrite orb_false_r. reflexivity.
    + symmetry. destruct (Z.lt_ge_cases (7 - j mod 8 - (7 - i mod 8)) 0).
      * apply Z.testbit_neg_r. lia.
      * apply Z.bits_above_log2; simpl; lia.
Qed.

Lemma getBit_zeros n j : getBit (replicate n Byte.x00) j = 0.
Proof.
  unfold getBit. destruct (_ >=? _); [reflexivity|].
  destruct (replicate n Byte.x00 !! _) as [b|] eqn:E.
  - apply lookup_replicate in E as [-> _]. simpl.
    rewrite land_1_testbit, Z.shiftr_spec.
    + change (byte.unsigned Byte.x00) with 0. rewrite Z.testbit_0_l. reflexivity.
    + lia.
  - simpl. rewrite land_1_testbit. change (byte.unsigned Byte.x00) with 0.
    rewrite Z.shiftr_0_l. reflexivity.
Qed.


Lemma getBit_extractLoop data start n i result j :
  0 <= i -> i + Z.of_nat n <= 8 * Z.of_nat (length result) -> 0 <= j ->
  getBit (extractLoop data start n i result) j =
    if (i <=? j) && (j <? i + Z.of_nat n) && (getBit data (start + j) =? 1)
    then 1 else getBit result j.
Proof.
  revert i result. induction n as [|n IH]; intros i result Hi Hlen Hj.
  - simpl. replace ((i <=? j) && (j <? i + Z.of_nat 0)) with false; [reflexivity|].
    symmetry. apply andb_false_iff. destruct (Z.leb_spec i j); [right|now left].
    apply Z.ltb_ge. lia.
  - cbn [extractLoop].
    assert (Hdiv : i / 8 < Z.of_nat (length result)).
    { apply Z.div_lt_upper_bound; lia. }
    rewrite IH; try lia.
    2: { destruct (getBit data (start + i) =? 1); rewrite ?length_orBit; lia. }
    destruct (Z.eqb_spec j i) as [->|Hne].
    + replace (i + 1 <=? i) with false by (symmetry; apply Z.leb_gt; lia).
      rewrite Z.leb_refl. replace (i <? i + Z.of_nat (S n)) with true by (symmetry; apply Z.ltb_lt; lia).
      cbn [andb]. destruct (getBit data (start + i) =? 1).
      * rewrite getBit_orBit by lia. rewrite Z.eqb_refl. reflexivity.
      * reflexivity.
    + assert (Hsame : getBit (if getBit data (start + i) =? 1 then orBit result i else result) j
                      = getBit result j).
      { destruct (getBit data (start + i) =? 1); [|reflexivity]. rewrite getBit_orBit by lia.
        destruct (Z.eqb_spec j i); [lia|reflexivity]. }
      rewrite Hsame.
      replace ((i + 1 <=? j) && (j <? i + 1 + Z.of_nat n))
        with ((i <=? j) && (j <? i + Z.of_nat (S n))); [reflexivity|].
      destruct (Z.leb_spec (i + 1) j), (Z.leb_spec i j),
        (Z.ltb_spec j (i + 1 + Z.of_nat n)), (Z.ltb_spec j (i + Z.of_nat (S n))); simpl; try reflexivity; lia.
Qed.

Lemma getBit_extractBits data start len j :
  0 <= j < len -> getBit (extractBits data start len) j = getBit data (start + j).
Proof.
  intros Hj. unfold extractBits.
  destruct (Z.leb_spec len 0); [lia|].
  rewrite Z.quot_div_nonneg by lia.
  rewrite getBit_extractLoop; try lia.
  - replace (0 <=? j) with true by (symmetry; apply Z.leb_le; lia).
    replace (j <? 0 + Z.of_nat (Z.to_nat len)) with true by (symmetry; apply Z.ltb_lt; lia).
    simpl. rewrite getBit_zeros.
    destruct (getBit_01 data (start + j)) as [->| ->]; reflexivity.
  - rewrite length_replicate.
    assert (0 <= (len + 7) / 8) by (apply Z.div_pos; lia).
    pose proof (Z.div_mod (len + 7) 8 ltac:(lia)).
    pose proof (Z.mod_pos_bound (len + 7) 8 ltac:(lia)). lia.
Qed.

Lemma commonLoop_spec bits cb pos n i :
  let L := commonLoop bits cb pos n i in
  i <= L <= i + Z.of_nat n /\
  (forall j, i <= j < L -> getBit bits (pos + j) = getBit cb j) /\
  (L < i + Z.of_nat n -> getBit bits (pos + L) <> getBit cb L).
Proof.
  revert i. induction n as [|n IH]; intros i; cbn [commonLoop].
  - cbv zeta. split; [lia|]. split; intros; lia.
  - unfold getBitFromSlice.
    destruct (Z.eqb_spec (getBit bits (pos + i)) (getBit cb i)) as [He|Hne]; cbn [negb].
    + specialize (IH (i + 1)). cbv zeta in IH. destruct IH as (Hr & Hag & Hdf).
      cbv zeta. split; [lia|]. split.
      * intros j Hj. destruct (Z.eq_dec j i) as [->|]; [assumption|]. apply Hag. lia.
      * intros HL. apply Hdf. lia.
    + cbv zeta. split; [lia|]. split; [intros; lia|]. intros _. assumption.
Qed.

Lemma matchLoop_spec bits cp pos childLen cpl n i :
  matchLoop bits cp pos childLen cpl n i = true <->
  (forall j, i <= j -> j < i + Z.of_nat n -> j < childLen -> j < cpl ->
             getBit bits (pos + j) = getBit cp j).
Proof.
  revert i. induction n as [|n IH]; intros i; cbn [matchLoop].
  - split; [intros _ j; lia|reflexivity].
  - unfold getBitFromSlice.
    destruct (Z.ltb_spec i childLen); cbn [andb].
    2: { split; [intros _ j; lia|reflexivity]. }
    destruct (Z.ltb_spec i cpl).
    2: { split; [intros _ j; lia|reflexivity]. }
    destruct (Z.eqb_spec (getBit bits (pos + i)) (getBit cp i)) as [He|Hne]; cbn [negb].
    + rewrite IH. split; intros Hall j ? ? ? ?.
      * destruct (Z.eq_dec j i) as [->|]; [assumption|]. apply Hall; lia.
      * apply Hall; lia.
    + split; [discriminate|]. intros Hall. exfalso. apply Hne. apply Hall; lia.
Qed.

(** *** What a trie stores *)

(* ---- lemmas ---- *)
Lemma TrieNode_ind (P : TrieNode -> Prop) :
  (forall n, (forall b c, Children n b = Some c -> P c) -> P n) -> forall n, P n.
Proof.
  intros H. fix IH 1. intros [p l d c0 c1]. apply H.
  intros b c. unfold Children. cbn [Child0 Child1].
  destruct (b =? 0).
  - destruct c0 as [c0|]; [|discriminate]. intros [= <-]. apply IH.
  - destruct c1 as [c1|]; [|discriminate]. intros [= <-]. apply IH.
Qed.

Lemma Children_setChild n b c b' :
  (b = 0 \/ b = 1) -> (b' = 0 \/ b' = 1) ->
  Children (setChild n b c) b' = if b' =? b then c else Children n b'.
Proof.
  intros [-> | ->] [-> | ->]; reflexivity.
Qed.

Lemma wfNode_children maxBits n pos :
  wfNode maxBits n pos = true <->
  (forall b c, (b = 0 \/ b = 1) -> Children n b = Some c ->
     1 <= PrefixLen c /\ pos + PrefixLen c <= maxBits /\ getBit (Prefix c) 0 = b /\
     wfNode maxBits c (pos + PrefixLen c) = true).
Proof.
  destruct n as [p l d c0 c1]. cbn [wfNode Child0 Child1]. unfold Children, wfEdge. cbn [Child0 Child1].
  split.
  - intros H b c [-> | ->] Hc; cbn in Hc; subst;
      apply andb_prop in H as [H0 H1]; [clear H1; rename H0 into H|clear H0; rename H1 into H];
      apply andb_prop in H as [H Hw]; apply andb_prop in H as [H H3];
      apply andb_prop in H as [H1 H2]; repeat split; auto; lia.
  - intros H. apply andb_true_intro. split.
    + destruct c0 as [c|]; [|reflexivity].
      destruct (H 0 c) as (H1 & H2 & H3 & H4); auto.
      rewrite H4. repeat (apply andb_true_intro; split); auto; lia.
    + destruct c1 as [c|]; [|reflexivity].
      destruct (H 1 c) as (H1 & H2 & H3 & H4); auto.
      rewrite H4. repeat (apply andb_true_intro; split); auto; lia.
Qed.

Lemma stores_inv n pos k kl d :
  stores n pos k kl d <->
  (pos = kl /\ Data n = Some d) \/
  (pos < kl /\ exists c, Children n (getBit k pos) = Some c /\ 0 <= PrefixLen c /\
      pos + PrefixLen c <= kl /\ edgeAgree k pos c /\ stores c (pos + PrefixLen c) k kl d).
Proof.
  split.
  - intros H. inversion H; subst; [left; auto|right]. split; [assumption|]. eauto 10.
  - intros [[? ?]|[? (c & ? & ? & ? & ? & ?)]]; [apply stores_here; auto|eapply stores_child; eauto].
Qed.

Lemma stores_ext n pos k k' kl d :
  (forall i, pos <= i < kl -> getBit k i = getBit k' i) ->
  stores n pos k kl d -> stores n pos k' kl d.
Proof.
  intros Hag H. induction H as [n pos k kl d ? ?|n pos k kl d c Hlt Hc Hnn Hle He Hs IH].
  - apply stores_here; auto.
  - eapply stores_child; eauto.
    + rewrite <- Hag by lia. exact Hc.
    + intros i Hi. rewrite <- Hag by lia. apply He. lia.
    + apply IH. intros i Hi. apply Hag. lia.
Qed.

Lemma stores_det n pos k kl d d' :
  stores n pos k kl d -> stores n pos k kl d' -> d = d'.
Proof.
  intros H. revert d'. induction H as [n pos k kl d ? ?|n pos k kl d c Hlt Hc Hnn Hle He Hs IH];
    intros d' H'; inversion H'; subst; try lia.
  - congruence.
  - apply IH. congruence.
Qed.

Lemma stores_range n pos k kl d : stores n pos k kl d -> pos <= kl.
Proof. induction 1; lia. Qed.

Lemma stores_depth maxBits n pos k kl d :
  wfNode maxBits n pos = true -> pos <= maxBits -> stores n pos k kl d -> kl <= maxBits.
Proof.
  intros Hwf Hp H. induction H as [n pos k kl d ? ?|n pos k kl d c Hlt Hc Hnn Hle He Hs IH].
  - lia.
  - rewrite wfNode_children in Hwf.
    destruct (Hwf (getBit k pos) c) as (H1 & H2 & H3 & H4); auto using getBit_01.
Qed.

(** *** The lookup loop *)

Lemma geb_false a b : a < b -> (a >=? b) = false.
Proof. intros. rewrite Z.geb_leb. apply Z.leb_gt. lia. Qed.
Lemma geb_true a b : b <= a -> (a >=? b) = true.
Proof. intros. rewrite Z.geb_leb. apply Z.leb_le. lia. Qed.
Lemma gtb_false a b : a <= b -> (a >? b) = false.
Proof. intros. rewrite Z.gtb_ltb. apply Z.ltb_ge. lia. Qed.

Lemma lookupPost_here n A pos last :
  (forall kl d, stores n pos A kl d -> kl = pos) ->
  lookupPost n A pos last (match Data n with Some d => Some d | None => last end).
Proof.
  intros Honly. destruct (Data n) as [d|] eqn:Hd.
  - right. exists pos, d. split; [apply stores_here; auto|]. split; [|reflexivity].
    intros kl' d' H. apply Honly in H. lia.
  - left. split; [|reflexivity]. intros kl d H.
    pose proof (Honly _ _ H) as ->. apply stores_inv in H as [[_ H]|[H _]]; [congruence|lia].
Qed.

Lemma lookupLoop_spec maxBits A n :
  forall pos last,
    wfNode maxBits n pos = true -> pos <= maxBits ->
    lookupPost n A pos last (lookupLoop n A pos maxBits last).
Proof.
  induction n as [n IH] using TrieNode_ind. intros pos last Hwf Hpos.
  destruct n as [p l dat c0 c1] eqn:En. rewrite <- En in *.
  assert (Hunf : lookupLoop n A pos maxBits last =
    let lastMatch := match Data n with Some d => Some d | None => last end in
    if pos >=? maxBits then lastMatch
    else match Children n (getBit A pos) with
         | None => lastMatch
         | Some child =>
             let childLen := if pos + PrefixLen child >? maxBits then maxBits - pos else PrefixLen child in
             if negb (matchLoop A (Prefix child) pos childLen (PrefixLen child) (Z.to_nat childLen) 0)
             then lastMatch
             else lookupLoop child A (pos + PrefixLen child) maxBits lastMatch
         end).
  { rewrite En. reflexivity. }
  rewrite Hunf. clear Hunf. cbv zeta.
  pose proof (proj1 (wfNode_children maxBits n pos) Hwf) as Hch.
  destruct (Z.le_gt_cases maxBits pos) as [Hge|Hlt].
  { rewrite geb_true by lia. apply lookupPost_here.
    intros kl d H. pose proof (stores_depth _ _ _ _ _ _ Hwf Hpos H).
    pose proof (stores_range _ _ _ _ _ H). lia. }
  rewrite geb_false by lia.
  destruct (Children n (getBit A pos)) as [c|] eqn:Hc.
  2: { apply lookupPost_here. intros kl d H.
       apply stores_inv in H as [[? _]|[_ (c & Hc' & _)]]; [lia|congruence]. }
  destruct (Hch _ _ (getBit_01 A pos) Hc) as (Hl1 & Hl2 & Hfirst & Hwfc).
  rewrite gtb_false by lia.
  destruct (matchLoop A (Prefix c) pos (PrefixLen c) (PrefixLen c) (Z.to_nat (PrefixLen c)) 0) eqn:Hm;
    cbn [negb].
  2: { apply lookupPost_here. intros kl d H.
       apply stores_inv in H as [[? _]|[_ (c' & Hc' & _ & _ & Hag & _)]]; [lia|].
       assert (c' = c) by congruence. subst c'. exfalso.
       assert (Ht : matchLoop A (Prefix c) pos (PrefixLen c) (PrefixLen c) (Z.to_nat (PrefixLen c)) 0 = true).
       { apply matchLoop_spec. intros j ? ? ? ?. apply Hag. lia. }
       congruence. }
  assert (Hag : edgeAgree A pos c).
  { intros i Hi. apply (proj1 (matchLoop_spec _ _ _ _ _ _ _) Hm); lia. }
  specialize (IH _ _ Hc (pos + PrefixLen c) (match Data n with Some d => Some d | None => last end)
                 Hwfc ltac:(lia)).
  destruct IH as [[Hnone Hr]|(kl & d & Hs & Hmax & Hr)].
  - rewrite Hr. apply lookupPost_here. intros kl d H.
    apply stores_inv in H as [[? _]|[_ (c' & Hc' & _ & _ & _ & Hs)]]; [lia|].
    assert (c' = c) by congruence. subst c'. exfalso. eapply Hnone; eauto.
  - right. exists kl, d. split; [|split; [|assumption]].
    + apply stores_inv. right. pose proof (stores_range _ _ _ _ _ Hs). split; [lia|].
      exists c. repeat split; auto; lia.
    + intros kl' d' H. apply stores_inv in H as [[? _]|[_ (c' & Hc' & _ & _ & _ & Hs')]].
      * pose proof (stores_range _ _ _ _ _ Hs). lia.
      * assert (c' = c) by congruence. subst c'. eauto.
Qed.

(** *** The steps of an insert *)

Lemma stores_via n pos k kl d :
  stores n pos k kl d <->
  (pos = kl /\ Data n = Some d) \/ (pos < kl /\ via (Children n (getBit k pos)) pos k kl d).
Proof. apply stores_inv. Qed.

Lemma via_None pos k kl d : ~ via None pos k kl d.
Proof. intros (c & H & _). discriminate. Qed.

Lemma via_Some c pos k kl d :
  via (Some c) pos k kl d <->
  0 <= PrefixLen c /\ pos + PrefixLen c <= kl /\ edgeAgree k pos c /\
  stores c (pos + PrefixLen c) k kl d.
Proof.
  split.
  - intros (c' & [= <-] & H). exact H.
  - intros H. exists c. split; [reflexivity|exact H].
Qed.

Lemma stores_leaf p len d pos k kl d' :
  stores (leaf p len d) pos k kl d' <-> pos = kl /\ d' = d.
Proof.
  rewrite stores_via. unfold leaf, Children. cbn [Data Child0 Child1]. split.
  - intros [[? [= ->]]|[_ H]]; [auto|].
    destruct (_ =? 0); apply via_None in H; contradiction.
  - intros [-> ->]. left. auto.
Qed.

Lemma stores_setEdge c p l pos k kl d :
  stores (setEdge c p l) pos k kl d <-> stores c pos k kl d.
Proof. rewrite !stores_via. destruct c; reflexivity. Qed.

Lemma stores_setData c d pos k kl d' :
  stores (setData c (Some d)) pos k kl d' <->
  (pos = kl /\ d' = d) \/ (pos < kl /\ stores c pos k kl d').
Proof.
  rewrite !stores_via.
  replace (Children (setData c (Some d))) with (Children c) by (destruct c; reflexivity).
  cbn [setData Data]. split.
  - intros [[? [= ->]]|[? H]]; [left; auto|right; split; auto].
  - intros [[-> ->]|[? [[? ?]|[_ H]]]]; [left; auto|lia|right; auto].
Qed.

Lemma Data_setChild n b X : Data (setChild n b X) = Data n.
Proof. unfold setChild. destruct (b =? 0); reflexivity. Qed.

Lemma Prefix_setChild n b X : Prefix (setChild n b X) = Prefix n.
Proof. unfold setChild. destruct (b =? 0); reflexivity. Qed.

Lemma PrefixLen_setChild n b X : PrefixLen (setChild n b X) = PrefixLen n.
Proof. unfold setChild. destruct (b =? 0); reflexivity. Qed.

Lemma wfNode_setData maxBits n d pos : wfNode maxBits (setData n d) pos = wfNode maxBits n pos.
Proof. destruct n; reflexivity. Qed.

Lemma wfNode_setEdge maxBits n p l pos : wfNode maxBits (setEdge n p l) pos = wfNode maxBits n pos.
Proof. destruct n; reflexivity. Qed.

Lemma wfNode_leaf maxBits p l d pos : wfNode maxBits (leaf p l d) pos = true.
Proof. reflexivity. Qed.

Lemma wfNode_setChild maxBits n b X pos :
  (b = 0 \/ b = 1) ->
  wfNode maxBits n pos = true ->
  (forall c, X = Some c ->
     1 <= PrefixLen c /\ pos + PrefixLen c <= maxBits /\ getBit (Prefix c) 0 = b /\
     wfNode maxBits c (pos + PrefixLen c) = true) ->
  wfNode maxBits (setChild n b X) pos = true.
Proof.
  intros Hb Hwf HX. rewrite wfNode_children in *. intros b' c Hb' Hc.
  rewrite Children_setChild in Hc by assumption.
  destruct (Z.eqb_spec b' b) as [->|Hne]; [apply HX; assumption|apply Hwf; assumption].
Qed.

Lemma insertRecursive_eq node bits pos prefixLen data :
  insertRecursive node bits pos prefixLen data =
    if pos =? prefixLen then setData node (Some data)
    else
      let bit := getBit bits pos in
      match Children node bit with
      | None =>
          let newNode := leaf (extractBits bits pos (prefixLen - pos)) (prefixLen - pos) data in
          setChild node bit (Some newNode)
      | Some child =>
          let childBits := Prefix child in
          let childLen := PrefixLen child in
          let remainingLen := prefixLen - pos in
          let maxCheck := min remainingLen childLen in
          let commonLen := commonLoop bits childBits pos (Z.to_nat maxCheck) 0 in
          if commonLen =? childLen then
            if commonLen =? remainingLen then
              setChild node bit (Some (setData child (Some data)))
            else
              setChild node bit (Some (insertRecursive child bits (pos + childLen) prefixLen data))
          else
            let newParent :=
              {| Prefix := extractBits bits pos commonLen; PrefixLen := commonLen;
                 Data := None; Child0 := None; Child1 := None |} in
            let oldChildBit := getBitFromSlice childBits commonLen in
            let child := setEdge child
                           (extractBitsFromSlice childBits commonLen (childLen - commonLen))
                           (childLen - commonLen) in
            let newParent := setChild newParent oldChildBit (Some child) in
            if commonLen =? remainingLen then
              setChild node bit (Some (setData newParent (Some data)))
            else
              let newLeafBit := getBit bits (pos + commonLen) in
              let newLeaf := leaf (extractBits bits (pos + commonLen) (remainingLen - commonLen))
                                  (remainingLen - commonLen) data in
              setChild node bit (Some (setChild newParent newLeafBit (Some newLeaf)))
      end.
Proof. destruct node; reflexivity. Qed.

Lemma insertRecursive_edge node bits pos prefixLen data :
  Prefix (insertRecursive node bits pos prefixLen data) = Prefix node /\
  PrefixLen (insertRecursive node bits pos prefixLen data) = PrefixLen node.
Proof.
  rewrite insertRecursive_eq. cbv zeta.
  repeat match goal with
         | |- context [if ?b then _ else _] => destruct b
         | |- context [match ?x with Some _ => _ | None => _ end] => destruct x
         end;
    rewrite ?Prefix_setChild, ?PrefixLen_setChild; auto.
Qed.

(** The facts about the common-prefix length that the cases of
    [insertRecursive] rely on. *)
Lemma commonLen_facts bits cb pos rem clen b :
  1 <= rem -> 1 <= clen ->
  getBit bits pos = b -> getBit cb 0 = b ->
  let L := commonLoop bits cb pos (Z.to_nat (min rem clen)) 0 in
  1 <= L /\ L <= rem /\ L <= clen /\
  (forall j, 0 <= j < L -> getBit bits (pos + j) = getBit cb j) /\
  (L < rem -> L < clen -> getBit bits (pos + L) <> getBit cb L).
Proof.
  intros Hr Hc Hb1 Hb2 L.
  pose proof (commonLoop_spec bits cb pos (Z.to_nat (min rem clen)) 0) as H.
  cbv zeta in H. fold L in H. destruct H as (Hrange & Hag & Hdf).
  assert (Hmin : Z.of_nat (Z.to_nat (min rem clen)) = Z.min rem clen).
  { unfold min. destruct (Z.ltb_spec rem clen); lia. }
  rewrite Hmin in *.
  assert (1 <= L).
  { destruct (Z.eq_dec L 0) as [E|]; [|lia]. exfalso. apply Hdf; [lia|].
    rewrite E, Z.add_0_r. congruence. }
  repeat split; try lia.
  - intros j Hj. apply Hag. lia.
Qed.

(** *** An insert stores its key and keeps the others *)

Section InsertCorrect.
Variables (maxBits : Z) (bits : list byte) (plen : Z) (d : PrefixData).
Hypothesis Hplen : plen <= maxBits.

Lemma getBit_extractBits_0 data start len :
  1 <= len -> getBit (extractBits data start len) 0 = getBit data start.
Proof. intros. rewrite getBit_extractBits by lia. f_equal. lia. Qed.

Lemma insert_wf n :
  forall pos, wfNode maxBits n pos = true -> 0 <= pos <= plen ->
    wfNode maxBits (insertRecursive n bits pos plen d) pos = true.
Proof.
  induction n as [n IH] using TrieNode_ind. intros pos Hwf Hpos.
  rewrite insertRecursive_eq. cbv zeta.
  destruct (Z.eqb_spec pos plen) as [->|Hne]; [rewrite wfNode_setData; assumption|].
  pose proof (getBit_01 bits pos) as Hb.
  destruct (Children n (getBit bits pos)) as [c|] eqn:Hc.
  2: { apply wfNode_setChild; auto. intros c [= <-]. cbn [leaf PrefixLen Prefix].
       rewrite getBit_extractBits_0 by lia. rewrite wfNode_leaf. repeat split; lia. }
  destruct (proj1 (wfNode_children _ _ _) Hwf _ _ Hb Hc) as (Hl1 & Hl2 & Hfirst & Hwfc).
  destruct (commonLen_facts bits (Prefix c) pos (plen - pos) (PrefixLen c) (getBit bits pos)
              ltac:(lia) Hl1 eq_refl Hfirst) as (HL1 & HLr & HLc & Hag & Hdf).
  set (L := commonLoop bits (Prefix c) pos (Z.to_nat (min (plen - pos) (PrefixLen c))) 0) in *.
  destruct (Z.eqb_spec L (PrefixLen c)) as [ELc|NLc].
  - destruct (Z.eqb_spec L (plen - pos)) as [ELr|NLr].
    + apply wfNode_setChild; auto. intros c' [= <-]. cbn [setData PrefixLen Prefix].
      rewrite wfNode_setData. auto.
    + apply wfNode_setChild; auto. intros c' [= <-].
      destruct (insertRecursive_edge c bits (pos + PrefixLen c) plen d) as [-> ->].
      repeat split; auto. apply (IH _ _ Hc); [assumption|lia].
  - unfold getBitFromSlice, extractBitsFromSlice.
    pose proof (getBit_01 (Prefix c) L) as Hob.
    assert (Hc' : forall X, X = setEdge c (extractBits (Prefix c) L (PrefixLen c - L)) (PrefixLen c - L) ->
              1 <= PrefixLen X /\ pos + L + PrefixLen X <= maxBits /\
              getBit (Prefix X) 0 = getBit (Prefix c) L /\
              wfNode maxBits X (pos + L + PrefixLen X) = true).
    { intros X ->. cbn [setEdge PrefixLen Prefix]. rewrite wfNode_setEdge.
      rewrite getBit_extractBits_0 by lia.
      replace (pos + L + (PrefixLen c - L)) with (pos + PrefixLen c) by lia.
      repeat split; auto; lia. }
    destruct (Z.eqb_spec L (plen - pos)) as [ELr|NLr].
    + apply wfNode_setChild; auto. intros c' [= <-].
      cbn [setData PrefixLen Prefix]. rewrite wfNode_setData.
      rewrite Prefix_setChild, PrefixLen_setChild. cbn [PrefixLen Prefix].
      rewrite getBit_extractBits_0 by lia.
      repeat split; auto; try lia.
      apply wfNode_setChild; auto. intros X [= <-]. apply Hc'. reflexivity.
    + apply wfNode_setChild; auto. intros c' [= <-].
      pose proof (getBit_01 bits (pos + L)) as Hnb.
      rewrite !Prefix_setChild, !PrefixLen_setChild. cbn [PrefixLen Prefix].
      rewrite getBit_extractBits_0 by lia.
      repeat split; auto; try lia.
      apply wfNode_setChild; auto.
      * apply wfNode_setChild; auto. intros X [= <-]. apply Hc'. reflexivity.
      * intros X [= <-]. cbn [leaf PrefixLen Prefix].
        rewrite getBit_extractBits_0 by lia. rewrite wfNode_leaf. repeat split; lia.
Qed.

Local Abbreviation sameKey := (TrieSpec.sameKey bits plen).

Lemma insert_step n pos X :
  0 <= pos < plen ->
  (forall k kl d', getBit k pos = getBit bits pos ->
     (via X pos k kl d' <->
      (sameKey pos k kl /\ d' = d) \/
      (~ sameKey pos k kl /\ via (Children n (getBit bits pos)) pos k kl d'))) ->
  forall k kl d',
    stores (setChild n (getBit bits pos) X) pos k kl d' <->
    (sameKey pos k kl /\ d' = d) \/ (~ sameKey pos k kl /\ stores n pos k kl d').
Proof.
  intros Hpos HX k kl d'.
  pose proof (getBit_01 bits pos) as Hb. pose proof (getBit_01 k pos) as Hbk.
  rewrite !stores_via. rewrite Data_setChild, Children_setChild by assumption.
  destruct (Z.eqb_spec (getBit k pos) (getBit bits pos)) as [E|NE].
  - rewrite (HX k kl d' E). rewrite E. unfold TrieSpec.sameKey. split.
    + intros [[-> Hd]|[Hlt [Hs|[Hn Hv]]]].
      * right. split; [lia|]. left; auto.
      * left; assumption.
      * right. split; [assumption|]. right. auto.
    + intros [[Hs ->]|[Hn [[-> Hd]|[Hlt Hv]]]].
      * right. split; [destruct Hs; lia|]. left. auto.
      * left. auto.
      * right. split; [assumption|]. right. auto.
  - assert (Hn : ~ sameKey pos k kl).
    { intros [_ Hag]. apply NE. symmetry. apply Hag. lia. }
    split.
    + intros H. right. split; assumption.
    + intros [[Hs _]|[_ H]]; [contradiction|assumption].
Qed.

Lemma edgeAgree_extract k pos c src s :
  Prefix c = extractBits src s (PrefixLen c) ->
  edgeAgree k pos c <->
  (forall i, 0 <= i < PrefixLen c -> getBit k (pos + i) = getBit src (s + i)).
Proof.
  intros E. unfold edgeAgree. rewrite E. split; intros H i Hi.
  - rewrite H by lia. apply getBit_extractBits. lia.
  - rewrite H by lia. symmetry. apply getBit_extractBits. lia.
Qed.

Lemma edgeAgree_same_edge k pos c c' :
  Prefix c' = Prefix c -> PrefixLen c' = PrefixLen c ->
  edgeAgree k pos c' <-> edgeAgree k pos c.
Proof. unfold edgeAgree. intros -> ->. reflexivity. Qed.

Lemma via_new_leaf pos k kl d' :
  0 <= pos < plen ->
  via (Some (leaf (extractBits bits pos (plen - pos)) (plen - pos) d)) pos k kl d' <->
  sameKey pos k kl /\ d' = d.
Proof.
  intros Hpos. rewrite via_Some.
  rewrite stores_leaf, (edgeAgree_extract k pos _ bits pos) by reflexivity.
  cbn [leaf PrefixLen].
  unfold TrieSpec.sameKey. split.
  - intros (_ & _ & Hag & Hkl & ->). split; [split; [lia|]|reflexivity].
    intros i Hi. replace i with (pos + (i - pos)) by lia. symmetry. apply Hag. lia.
  - intros [[-> Hag] ->]. repeat split; try lia.
    intros i Hi. symmetry. apply Hag. lia.
Qed.

Lemma insert_stores n :
  forall pos, wfNode maxBits n pos = true -> 0 <= pos <= plen ->
  forall k kl d',
    stores (insertRecursive n bits pos plen d) pos k kl d' <->
    (sameKey pos k kl /\ d' = d) \/ (~ sameKey pos k kl /\ stores n pos k kl d').
Proof.
  induction n as [n IH] using TrieNode_ind. intros pos Hwf Hpos.
  rewrite insertRecursive_eq. cbv zeta.
  destruct (Z.eqb_spec pos plen) as [->|Hne].
  { intros k kl d'. rewrite stores_setData. unfold TrieSpec.sameKey. split.
    - intros [[-> ->]|[Hlt Hs]].
      + left. repeat split. intros; lia.
      + right. split; [lia|assumption].
    - intros [[[-> _] ->]|[Hn Hs]]; [left; auto|].
      right. split; [|assumption].
      pose proof (stores_range _ _ _ _ _ Hs).
      destruct (Z.eq_dec plen kl) as [<-|]; [|lia].
      exfalso. apply Hn. split; [reflexivity|intros; lia]. }
  pose proof (getBit_01 bits pos) as Hb.
  destruct (Children n (getBit bits pos)) as [c|] eqn:Hc.
  2: { apply insert_step; [lia|]. intros k kl d' Hkb. rewrite Hc.
       rewrite via_new_leaf by lia. split.
       - intros H. left. exact H.
       - intros [H|[_ H]]; [exact H|]. apply via_None in H. contradiction. }
  destruct (proj1 (wfNode_children _ _ _) Hwf _ _ Hb Hc) as (Hl1 & Hl2 & Hfirst & Hwfc).
  destruct (commonLen_facts bits (Prefix c) pos (plen - pos) (PrefixLen c) (getBit bits pos)
              ltac:(lia) Hl1 eq_refl Hfirst) as (HL1 & HLr & HLc & Hag & Hdf).
  set (L := commonLoop bits (Prefix c) pos (Z.to_nat (min (plen - pos) (PrefixLen c))) 0) in *.
  (* the inserted key seen through the edge of [c] *)
  assert (Hsame_edge : forall k kl j, sameKey pos k kl -> 0 <= j < L ->
                                 getBit k (pos + j) = getBit (Prefix c) j).
  { intros k kl j [_ Hs] Hj. rewrite <- Hs by lia. apply Hag. lia. }
  destruct (Z.eqb_spec L (PrefixLen c)) as [ELc|NLc].
  - destruct (Z.eqb_spec L (plen - pos)) as [ELr|NLr].
    + (* exact match: the record goes to the child *)
      apply insert_step; [lia|]. intros k kl d' Hkb. rewrite Hc.
      rewrite !via_Some. cbn [setData PrefixLen].
      rewrite (edgeAgree_same_edge k pos c (setData c (Some d))) by reflexivity.
      rewrite stores_setData.
      replace (pos + PrefixLen c) with plen by lia.
      unfold TrieSpec.sameKey. split.
      * intros (H0 & H1 & He & [[-> ->]|[Hlt Hs]]).
        -- left. repeat split. intros i Hi.
           replace i with (pos + (i - pos)) by lia. rewrite Hag, He by lia. reflexivity.
        -- right. split; [lia|]. auto.
      * intros [[[-> Hs] ->]|[Hn (H0 & H1 & He & Hs)]].
        -- repeat split; try lia; [|left; auto].
           intros j Hj. rewrite <- Hs by lia. apply Hag. lia.
        -- repeat split; try lia; [assumption|].
           destruct (Z.eq_dec plen kl) as [<-|]; [|right; split; [lia|assumption]].
           exfalso. apply Hn. split; [reflexivity|]. intros i Hi.
           replace i with (pos + (i - pos)) by lia. rewrite Hag, He by lia. reflexivity.
    + (* the child's edge is consumed: descend *)
      apply insert_step; [lia|]. intros k kl d' Hkb. rewrite Hc.
      rewrite !via_Some.
      destruct (insertRecursive_edge c bits (pos + PrefixLen c) plen d) as [Ep El].
      rewrite (edgeAgree_same_edge k pos c (insertRecursive c bits (pos + PrefixLen c) plen d))
        by assumption.
      rewrite El.
      rewrite (IH _ _ Hc (pos + PrefixLen c) Hwfc ltac:(lia)).
      assert (Hsk : edgeAgree k pos c ->
                    (sameKey pos k kl <-> sameKey (pos + PrefixLen c) k kl)).
      { intros He. unfold TrieSpec.sameKey. split; intros [-> Hs]; (split; [reflexivity|]); intros i Hi.
        - apply Hs. lia.
        - destruct (Z.lt_ge_cases i (pos + PrefixLen c)); [|apply Hs; lia].
          replace i with (pos + (i - pos)) by lia. rewrite Hag, He by lia. reflexivity. }
      split.
      * intros (H0 & H1 & He & [[Hs ->]|[Hn Hs]]).
        -- left. split; [apply Hsk; assumption|reflexivity].
        -- right. split; [rewrite Hsk; assumption|]. auto.
      * intros [[Hs ->]|[Hn (H0 & H1 & He & Hs)]].
        -- assert (He : edgeAgree k pos c).
           { intros j Hj. eapply Hsame_edge; [eassumption|lia]. }
           repeat split; try lia; [destruct Hs; lia|assumption|].
           left. split; [apply Hsk; assumption|reflexivity].
        -- repeat split; try lia; [assumption|]. right. split; [rewrite <- Hsk; assumption|assumption].
  - (* split of the child's edge at [L] *)
    unfold getBitFromSlice, extractBitsFromSlice.
    pose proof (getBit_01 (Prefix c) L) as Hob.
    set (c' := setEdge c (extractBits (Prefix c) L (PrefixLen c - L)) (PrefixLen c - L)).
    set (m0 := {| Prefix := extractBits bits pos L; PrefixLen := L; Data := None;
                  Child0 := None; Child1 := None |}).
    assert (Hm0 : forall b, Children m0 b = None).
    { intros b. unfold Children. destruct (b =? 0); reflexivity. }
    assert (Hviac' : forall k kl d' p, via (Some c') p k kl d' <->
               p + (PrefixLen c - L) <= kl /\
               (forall j, 0 <= j < PrefixLen c - L -> getBit k (p + j) = getBit (Prefix c) (L + j)) /\
               stores c (p + (PrefixLen c - L)) k kl d').
    { intros k kl d' p. rewrite via_Some. unfold c'.
      rewrite stores_setEdge, (edgeAgree_extract k p _ (Prefix c) L) by reflexivity.
      cbn [setEdge PrefixLen].
      split; [intros (? & ? & ? & ?); auto|intros (? & ? & ?); repeat split; auto; lia]. }
    assert (Hviac : forall k kl d', via (Some c) pos k kl d' <->
               (forall j, 0 <= j < L -> getBit k (pos + j) = getBit bits (pos + j)) /\
               getBit k (pos + L) = getBit (Prefix c) L /\
               via (Some c') (pos + L) k kl d').
    { intros k kl d'. rewrite Hviac', via_Some.
      replace (pos + L + (PrefixLen c - L)) with (pos + PrefixLen c) by lia.
      unfold edgeAgree. split.
      - intros (_ & Hle & He & Hs). repeat split; auto.
        + intros j Hj. rewrite Hag, He by lia. reflexivity.
        + apply He. lia.
        + intros j Hj. replace (pos + L + j) with (pos + (L + j)) by lia. apply He. lia.
      - intros (H1 & H2 & Hle & H3 & Hs). repeat split; auto; [lia|].
        intros i Hi. destruct (Z.lt_trichotomy i L) as [?|[->|?]].
        + rewrite H1, Hag by lia. reflexivity.
        + assumption.
        + replace i with (L + (i - L)) at 2 by lia. rewrite <- H3 by lia. f_equal. lia. }
    destruct (Z.eqb_spec L (plen - pos)) as [ELr|NLr].
    + (* the new prefix ends at the split point *)
      apply insert_step; [lia|]. intros k kl d' Hkb. rewrite Hc.
      rewrite Hviac. rewrite via_Some.
      rewrite (edgeAgree_extract k pos _ bits pos)
        by (unfold setData; cbn [Prefix PrefixLen];
            rewrite ?Prefix_setChild, ?PrefixLen_setChild; reflexivity).
      cbn [setData PrefixLen]. rewrite PrefixLen_setChild. cbn [PrefixLen m0].
      rewrite stores_setData, stores_via, Data_setChild.
      rewrite Children_setChild by (auto using getBit_01). rewrite Hm0.
      cbn [Data m0]. unfold TrieSpec.sameKey. split.
      * intros (_ & Hle & He & [[Hkl ->]|[Hlt [[? [=]]|[_ Hv]]]]).
        -- left. split; [split; [lia|]|reflexivity].
           intros i Hi. replace i with (pos + (i - pos)) by lia. symmetry. apply He. lia.
        -- right. split; [lia|].
           destruct (Z.eqb_spec (getBit k (pos + L)) (getBit (Prefix c) L));
             [|apply via_None in Hv; contradiction].
           repeat split; auto.
      * intros [[[-> Hs] ->]|[Hn (H1 & H2 & Hv)]].
        -- repeat split; try lia; [intros i Hi; symmetry; apply Hs; lia|].
           left. split; [lia|reflexivity].
        -- pose proof (proj1 (Hviac' _ _ _ _) Hv) as (? & _).
           repeat split; try lia; [assumption|].
           right. split; [lia|]. right. split; [lia|].
           rewrite H2, Z.eqb_refl. assumption.
    + (* a new leaf next to the shortened child *)
      apply insert_step; [lia|]. intros k kl d' Hkb. rewrite Hc.
      pose proof (getBit_01 bits (pos + L)) as Hnb.
      assert (Hdiff : getBit bits (pos + L) <> getBit (Prefix c) L) by (apply Hdf; lia).
      rewrite Hviac. rewrite via_Some.
      rewrite (edgeAgree_extract k pos _ bits pos)
        by (rewrite ?Prefix_setChild, ?PrefixLen_setChild; reflexivity).
      rewrite !PrefixLen_setChild. cbn [PrefixLen m0].
      rewrite stores_via, !Data_setChild.
      rewrite !Children_setChild by (auto using getBit_01). rewrite Hm0.
      cbn [Data m0].
      assert (Hleaf : via (Some (leaf (extractBits bits (pos + L) (plen - pos - L)) (plen - pos - L) d))
                        (pos + L) k kl d' <->
                      kl = plen /\ d' = d /\
                      (forall i, pos + L <= i < plen -> getBit bits i = getBit k i)).
      { rewrite via_Some.
        rewrite stores_leaf, (edgeAgree_extract k (pos + L) _ bits (pos + L)) by reflexivity.
        cbn [leaf PrefixLen]. split.
        - intros (_ & _ & He & Hkl & ->). repeat split; [lia|].
          intros i Hi. replace i with (pos + L + (i - (pos + L))) by lia. symmetry. apply He. lia.
        - intros (-> & -> & Hs). repeat split; try lia.
          intros i Hi. symmetry. apply Hs. lia. }
      unfold TrieSpec.sameKey. split.
      * intros (_ & Hle & He & [[? [=]]|[Hlt Hv]]).
        destruct (Z.eqb_spec (getBit k (pos + L)) (getBit bits (pos + L))) as [E1|N1].
        -- apply Hleaf in Hv as (-> & -> & Hs). left. repeat split. intros i Hi.
           destruct (Z.lt_ge_cases i (pos + L)); [|apply Hs; lia].
           replace i with (pos + (i - pos)) by lia. symmetry. apply He. lia.
        -- destruct (Z.eqb_spec (getBit k (pos + L)) (getBit (Prefix c) L)) as [E2|N2];
             [|apply via_None in Hv; contradiction].
           right. split; [|repeat split; auto].
           intros [_ Hs]. apply N1. symmetry. apply Hs. lia.
      * intros [[[-> Hs] ->]|[Hn (H1 & H2 & Hv)]].
        -- repeat split; try lia; [intros i Hi; symmetry; apply Hs; lia|].
           right. split; [lia|]. rewrite (proj2 (Z.eqb_eq _ _)) by (symmetry; apply Hs; lia).
           apply Hleaf. repeat split. intros i Hi. apply Hs. lia.
        -- pose proof (proj1 (Hviac' _ _ _ _) Hv) as (? & _).
           repeat split; try lia; [assumption|].
           right. split; [lia|].
           destruct (Z.eqb_spec (getBit k (pos + L)) (getBit bits (pos + L))) as [E1|N1]; [congruence|].
           rewrite H2, Z.eqb_refl. assumption.
Qed.

End InsertCorrect.

(** *** Tries built by inserts *)

(* ---- lemmas ---- *)
Lemma agreeb_spec a b len :
  agreeb a b len = true <-> (forall i, 0 <= i < len -> getBit a i = getBit b i).
Proof.
  unfold agreeb. rewrite forallb_forall. split.
  - intros H i Hi. apply Z.eqb_eq. apply H. apply list_elem_of_In, elem_of_seqZ. lia.
  - intros H i Hi. apply list_elem_of_In, elem_of_seqZ in Hi. apply Z.eqb_eq, H. lia.
Qed.

Lemma validPrefix_spec v6 p :
  validPrefix v6 p = true <->
  Netip.Is6 (Netip.PAddr p) = v6 /\ 0 <= Netip.Bits p <= familyBits v6.
Proof.
  unfold validPrefix, familyBits. rewrite !andb_true_iff, Z.leb_le, Z.leb_le, eqb_true_iff. tauto.
Qed.

Lemma sameKey_keyIs p k kl :
  sameKey (prefixToBits p) (Netip.Bits p) 0 k kl <->
  kl = Netip.Bits p /\ agreeb (prefixToBits p) k (Netip.Bits p) = true.
Proof. unfold sameKey. rewrite agreeb_spec. reflexivity. Qed.

Lemma agreeb_sym a b len : agreeb a b len = agreeb b a len.
Proof.
  apply eq_true_iff_eq. rewrite !agreeb_spec. split; intros H i Hi; symmetry; apply H; lia.
Qed.

Lemma agreeb_trans a b c len :
  agreeb a b len = true -> agreeb b c len = true -> agreeb a c len = true.
Proof.
  rewrite !agreeb_spec. intros H1 H2 i Hi. rewrite H1, H2 by lia. reflexivity.
Qed.

(** The state of a trie reached from [t] by the inserts of [l]. *)
Lemma insertAll_stores l :
  forall t r,
    Root t = Some r ->
    wfNode (familyBits (IsIPv6 t)) r 0 = true ->
    Forall (fun e => validPrefix (IsIPv6 t) (fst e) = true) l ->
    exists t' r',
      insertAll t l = Ok t' /\ Root t' = Some r' /\ IsIPv6 t' = IsIPv6 t /\
      Count t' = Count t + Z.of_nat (length l) /\
      wfNode (familyBits (IsIPv6 t)) r' 0 = true /\
      (forall k kl d, stores r' 0 k kl d ->
         (exists p, In (p, d) l /\ kl = Netip.Bits p /\
                    agreeb (prefixToBits p) k (Netip.Bits p) = true) \/
         stores r 0 k kl d) /\
      (forall k kl d, stores r 0 k kl d ->
         (forall p d', In (p, d') l ->
            ~ (kl = Netip.Bits p /\ agreeb (prefixToBits p) k (Netip.Bits p) = true)) ->
         stores r' 0 k kl d) /\
      (distinctKeys l = true ->
       forall p d, In (p, d) l -> stores r' 0 (prefixToBits p) (Netip.Bits p) d).
Proof.
  induction l as [|[p d] l IH]; intros t r Hr Hwf Hval.
  - exists t, r. cbn [insertAll length]. repeat split; auto; try lia.
    intros _ p d [].
  - apply Forall_cons in Hval as [Hp Hval]. cbn [fst] in Hp.
    apply validPrefix_spec in Hp as [Hfam Hbits].
    cbn [insertAll]. unfold Insert. rewrite Hfam, eqb_reflx, Hr. cbn [negb].
    set (r1 := insertRecursive r (prefixToBits p) 0 (Netip.Bits p) d).
    set (t1 := {| Root := Some r1; IsIPv6 := IsIPv6 t; Count := Count t + 1 |}).
    assert (Hwf1 : wfNode (familyBits (IsIPv6 t)) r1 0 = true).
    { apply insert_wf; [lia|assumption|lia]. }
    pose proof (insert_stores (familyBits (IsIPv6 t)) (prefixToBits p) (Netip.Bits p) d
                  ltac:(lia) r 0 Hwf ltac:(lia)) as Hins.
    fold r1 in Hins.
    destruct (IH t1 r1 eq_refl Hwf1 Hval) as (t' & r' & Hall & Hr' & Hf' & Hcnt & Hwf' & Hsound & Hpres & Hcompl).
    exists t', r'. split; [exact Hall|]. split; [exact Hr'|]. split; [exact Hf'|].
    split; [rewrite Hcnt; cbn [t1 Count length]; lia|]. split; [exact Hwf'|].
    split; [|split].
    + intros k kl d0 Hs. apply Hsound in Hs as [(q & Hin & Hq)|Hs].
      * left. exists q. split; [right; exact Hin|exact Hq].
      * apply Hins in Hs as [[Hsk ->]|[_ Hs]]; [|right; exact Hs].
        left. exists p. split; [left; reflexivity|]. apply sameKey_keyIs. exact Hsk.
    + intros k kl d0 Hs Hno. apply Hpres.
      * apply Hins. right. split; [|exact Hs].
        intros Hsk. apply sameKey_keyIs in Hsk. apply (Hno p d); [left; reflexivity|exact Hsk].
      * intros q d' Hin. apply (Hno q d'). right. exact Hin.
    + cbn [distinctKeys]. intros Hd. apply andb_prop in Hd as [Hhead Hd].
      intros q d0 [[= <- <-]|Hin]; [|apply Hcompl; assumption].
      apply Hpres.
      * apply Hins. left. split; [|reflexivity]. apply sameKey_keyIs. split; [reflexivity|].
        apply agreeb_spec. reflexivity.
      * intros q d' Hin [Hb Hag].
        rewrite forallb_forall in Hhead. specialize (Hhead _ Hin). cbn [fst] in Hhead.
        unfold sameKeyB in Hhead. rewrite Hb, Z.eqb_refl in Hhead. cbn [andb] in Hhead.
        rewrite (agreeb_sym (prefixToBits p)), Hag in Hhead. discriminate.
Qed.

Lemma stores_emptyNode pos k kl d : ~ stores emptyNode pos k kl d.
Proof.
  rewrite stores_via. unfold emptyNode, Children. cbn [Data Child0 Child1].
  intros [[_ [=]]|[_ H]]. destruct (_ =? 0); apply via_None in H; contradiction.
Qed.

Lemma Lookup_root t r ip :
  Root t = Some r -> Netip.Is6 ip = IsIPv6 t ->
  Lookup t ip = lookupLoop r (addrToBits ip) 0 (familyBits (IsIPv6 t)) None.
Proof.
  intros Hr Hf. unfold Lookup. rewrite Hf, eqb_reflx, Hr. reflexivity.
Qed.

(** *** Longest-prefix match *)

Lemma wfNode_emptyNode maxBits : wfNode maxBits emptyNode 0 = true.
Proof. reflexivity. Qed.

(** Lookup in a trie whose root is well formed, from what is stored. *)
Lemma Lookup_best t r ip kl d :
  Root t = Some r -> wfNode (familyBits (IsIPv6 t)) r 0 = true ->
  Netip.Is6 ip = IsIPv6 t ->
  stores r 0 (addrToBits ip) kl d ->
  (forall kl' d', stores r 0 (addrToBits ip) kl' d' -> kl' <= kl) ->
  Lookup t ip = Some d.
Proof.
  intros Hr Hwf Hf Hs Hmax. rewrite (Lookup_root t r ip Hr Hf).
  assert (Hpos : 0 <= familyBits (IsIPv6 t)) by (unfold familyBits; destruct (IsIPv6 t); lia).
  destruct (lookupLoop_spec (familyBits (IsIPv6 t)) (addrToBits ip) r 0 None Hwf Hpos)
    as [[Hnone _]|(kl0 & d0 & Hs0 & Hmax0 & ->)].
  - exfalso. eapply Hnone; eauto.
  - f_equal. assert (kl0 = kl) by (apply Hmax in Hs0; apply Hmax0 in Hs; lia). subst kl0.
    eapply stores_det; eauto.
Qed.

Lemma Lookup_none t r ip :
  Root t = Some r -> wfNode (familyBits (IsIPv6 t)) r 0 = true ->
  Netip.Is6 ip = IsIPv6 t ->
  (forall kl d, ~ stores r 0 (addrToBits ip) kl d) ->
  Lookup t ip = None.
Proof.
  intros Hr Hwf Hf Hno. rewrite (Lookup_root t r ip Hr Hf).
  assert (Hpos : 0 <= familyBits (IsIPv6 t)) by (unfold familyBits; destruct (IsIPv6 t); lia).
  destruct (lookupLoop_spec (familyBits (IsIPv6 t)) (addrToBits ip) r 0 None Hwf Hpos)
    as [[_ ->]|(kl0 & d0 & Hs0 & _)]; [reflexivity|].
  exfalso. eapply Hno; eauto.
Qed.

(** C1: the entries of a list of valid prefixes of one family with pairwise
    distinct keys can be inserted one after another into a new trie, and
    in the trie they give, [Lookup] of an address of that family returns
    the record of the longest inserted prefix that contains the address,
    and nothing when no inserted prefix contains it; on the empty trie
    [Lookup] returns nothing at every address. *)
Theorem C1_lookup_longest_match (isIPv6 : bool) (l : list entry) :
  Forall (fun e => validPrefix isIPv6 (fst e) = true) l ->
  distinctKeys l = true ->
  exists t,
    insertAll (NewTrie isIPv6) l = Ok t /\
    forall ip, Netip.Is6 ip = isIPv6 ->
      (forall p d, In (p, d) l -> Contains p ip = true ->
         (forall p' d', In (p', d') l -> Contains p' ip = true ->
                        Netip.Bits p' <= Netip.Bits p) ->
         Lookup t ip = Some d) /\
      ((forall p d, In (p, d) l -> Contains p ip = false) -> Lookup t ip = None) /\
      Lookup (NewTrie isIPv6) ip = None.
Proof.
  intros Hval Hdist.
  destruct (insertAll_stores l (NewTrie isIPv6) emptyNode eq_refl (wfNode_emptyNode _) Hval)
    as (t & r & Hall & Hr & Hf & _ & Hwf & Hsound & _ & Hcompl).
  cbn [NewTrie IsIPv6] in Hf, Hwf. rewrite <- Hf in Hwf.
  exists t. split; [exact Hall|]. intros ip Hip. rewrite <- Hf in Hip.
  assert (Hfrom : forall kl d, stores r 0 (addrToBits ip) kl d ->
            exists p, In (p, d) l /\ kl = Netip.Bits p /\ Contains p ip = true).
  { intros kl d Hs. apply Hsound in Hs as [Hs|Hs]; [exact Hs|].
    apply stores_emptyNode in Hs. contradiction. }
  split; [|split].
  - intros p d Hin Hc Hmax. apply (Lookup_best t r ip (Netip.Bits p) d Hr Hwf Hip).
    + apply (stores_ext r 0 (prefixToBits p)).
      * intros i Hi. apply (proj1 (agreeb_spec _ _ _) Hc). lia.
      * apply Hcompl; assumption.
    + intros kl' d' Hs. apply Hfrom in Hs as (p' & Hin' & -> & Hc'). eapply Hmax; eauto.
  - intros Hno. apply (Lookup_none t r ip Hr Hwf Hip).
    intros kl d Hs. apply Hfrom in Hs as (p & Hin & _ & Hc).
    rewrite (Hno _ _ Hin) in Hc. discriminate.
  - apply (Lookup_none (NewTrie isIPv6) emptyNode ip eq_refl (wfNode_emptyNode _)).
    + rewrite Hip, Hf. reflexivity.
    + intros kl d Hs. apply stores_emptyNode in Hs. contradiction.
Qed.

(** The scenario of the package's tests: 8.8.8.8 is found under
    8.8.8.0/24, the longest of the two prefixes that contain it, and
    9.9.9.9 under none. *)
Lemma C1_witness :
  exists t, insertAll (NewTrie false) scenario1 = Ok t /\
            Lookup t (ip4 8 8 8 8) = Some (mkPrefixData "US" "8.8.8.0/24") /\
            Lookup t (ip4 9 9 9 9) = None.
Proof.
  destruct (C1_lookup_longest_match false scenario1) as (t & Hall & Hlk).
  - repeat constructor.
  - reflexivity.
  - exists t. split; [exact Hall|]. split.
    + destruct (Hlk (ip4 8 8 8 8) eq_refl) as (H & _ & _).
      apply (H (cidr4 8 8 8 0 24)); [left; reflexivity|reflexivity|].
      intros p' d' Hin Hc. cbn in Hin.
      destruct Hin as [[= <- <-]|[[= <- <-]|[[= <- <-]|[]]]]; cbn; try lia.
    + destruct (Hlk (ip4 9 9 9 9) eq_refl) as (_ & H & _).
      apply H. intros p d Hin. cbn in Hin.
      destruct Hin as [[= <- <-]|[[= <- <-]|[[= <- <-]|[]]]]; reflexivity.
Defined.

(** *** Masked prefixes *)

Lemma prefixToBits_octets p : prefixToBits p = Netip.octets (Netip.PAddr p).
Proof. unfold prefixToBits, Netip.As4, Netip.As16. destruct (Netip.Is4 _); reflexivity. Qed.

Lemma addrToBits_octets a : addrToBits a = Netip.octets a.
Proof. unfold addrToBits, Netip.As4, Netip.As16. destruct (Netip.Is4 _); reflexivity. Qed.

Lemma testbit_255 m : Z.testbit 255 m = (0 <=? m) && (m <? 8).
Proof.
  change 255 with (Z.ones 8).
  destruct (Z.leb_spec 0 m); [|rewrite Z.testbit_neg_r by lia; reflexivity].
  destruct (Z.ltb_spec m 8).
  - apply Z.ones_spec_low. lia.
  - apply Z.ones_spec_high. lia.
Qed.

Lemma land_byte_range u m : 0 <= u < 256 -> 0 <= Z.land u m < 256.
Proof.
  intros Hu. rewrite <- (Z.mod_small u 256) by lia. change 256 with (2 ^ 8).
  rewrite <- Z.land_ones by lia.
  rewrite <- Z.land_assoc, (Z.land_comm (Z.ones 8) m), Z.land_assoc, Z.land_ones by lia.
  apply Z.mod_pos_bound. lia.
Qed.

Lemma getBit_byteAt data pos :
  0 <= pos -> pos / 8 < Z.of_nat (length data) ->
  getBit data pos = Z.b2z (Z.testbit (byteAt data (pos / 8)) (7 - pos mod 8)).
Proof.
  intros. rewrite getBit_testbit by lia.
  destruct (Z.ltb_spec (pos / 8) (Z.of_nat (length data))); [reflexivity|lia].
Qed.

Lemma unsigned_maskByte bits j b n :
  0 <= j -> 0 <= n < 8 ->
  Z.testbit (byte.unsigned (Netip.maskByte bits j b)) n =
  Z.testbit (byte.unsigned b) n && (8 * j + (7 - n) <? bits).
Proof.
  intros Hj Hn. unfold Netip.maskByte.
  destruct (Z.leb_spec (8 * (j + 1)) bits).
  { replace (8 * j + (7 - n) <? bits) with true by (symmetry; apply Z.ltb_lt; lia).
    rewrite andb_true_r. reflexivity. }
  destruct (Z.leb_spec bits (8 * j)).
  { replace (8 * j + (7 - n) <? bits) with false by (symmetry; apply Z.ltb_ge; lia).
    rewrite andb_false_r. change (byte.unsigned Byte.x00) with 0. apply Z.testbit_0_l. }
  rewrite byte.unsigned_of_Z. unfold byte.wrap.
  rewrite Z.mod_small.
  2: { change (2 ^ 8) with 256. apply land_byte_range. apply byte.unsigned_range. }
  rewrite !Z.land_spec, Z.shiftl_spec, !testbit_255 by lia.
  f_equal.
  destruct (Z.ltb_spec (8 * j + (7 - n)) bits);
    destruct (Z.leb_spec 0 (n - (8 - (bits - 8 * j))));
    destruct (Z.ltb_spec (n - (8 - (bits - 8 * j))) 8);
    destruct (Z.leb_spec 0 n); destruct (Z.ltb_spec n 8); cbn; try reflexivity; lia.
Qed.

Lemma length_maskOctets bits o : length (Netip.maskOctets bits o) = length o.
Proof. unfold Netip.maskOctets. apply length_imap. Qed.

Lemma getBit_maskOctets bits o i :
  0 <= i -> getBit (Netip.maskOctets bits o) i = if i <? bits then getBit o i else 0.
Proof.
  intros Hi.
  pose proof (Z.mod_pos_bound i 8 ltac:(lia)) as Hm.
  pose proof (Z.div_mod i 8 ltac:(lia)) as Hdm.
  assert (Hq : 0 <= i / 8) by (apply Z.div_pos; lia).
  destruct (Z.lt_ge_cases (i / 8) (Z.of_nat (length o))) as [Hin|Hout].
  2: { rewrite !getBit_beyond by (rewrite ?length_maskOctets; lia).
       destruct (i <? bits); reflexivity. }
  rewrite !getBit_byteAt by (rewrite ?length_maskOctets; lia).
  unfold byteAt, Netip.maskOctets. rewrite list_lookup_imap.
  destruct (o !! Z.to_nat (i / 8)) as [b|] eqn:Hb.
  2: { apply lookup_ge_None in Hb. lia. }
  cbn [fmap option_fmap option_map default].
  rewrite Z2Nat.id by lia. unfold id. rewrite unsigned_maskByte by lia.
  replace (8 * (i / 8) + (7 - (7 - i mod 8))) with i by lia.
  destruct (i <? bits); [rewrite andb_true_r|rewrite andb_false_r]; reflexivity.
Qed.

Lemma agreeb_masked bits o k :
  agreeb (Netip.maskOctets bits o) k bits = agreeb o k bits.
Proof.
  apply eq_true_iff_eq. rewrite !agreeb_spec.
  split; intros H i Hi; specialize (H i Hi); rewrite getBit_maskOctets in * by lia;
    destruct (Z.ltb_spec i bits); try lia; assumption.
Qed.

Lemma Contains_Masked p ip : Contains (Netip.Masked p) ip = Contains p ip.
Proof.
  unfold Contains. rewrite !prefixToBits_octets. cbn [Netip.Masked Netip.PAddr Netip.octets Netip.Bits].
  apply agreeb_masked.
Qed.

Lemma Masked_host_bits_zero p i :
  Netip.Bits p <= i -> 0 <= i -> getBit (prefixToBits (Netip.Masked p)) i = 0.
Proof.
  intros Hi H0. rewrite prefixToBits_octets. cbn [Netip.Masked Netip.PAddr Netip.octets].
  rewrite getBit_maskOctets by lia. destruct (Z.ltb_spec i (Netip.Bits p)); [lia|reflexivity].
Qed.

Lemma validPrefix_Masked v6 p : validPrefix v6 (Netip.Masked p) = validPrefix v6 p.
Proof. reflexivity. Qed.

(** *** One more insert into a trie built by inserts *)

Lemma built_trie v6 l t :
  Forall (fun e => validPrefix v6 (fst e) = true) l ->
  insertAll (NewTrie v6) l = Ok t ->
  exists r, Root t = Some r /\ IsIPv6 t = v6 /\ Count t = Z.of_nat (length l) /\
            wfNode (familyBits v6) r 0 = true /\
            (forall k kl d, stores r 0 k kl d ->
               exists p, In (p, d) l /\ kl = Netip.Bits p /\
                         agreeb (prefixToBits p) k (Netip.Bits p) = true).
Proof.
  intros Hval Hall.
  destruct (insertAll_stores l (NewTrie v6) emptyNode eq_refl (wfNode_emptyNode _) Hval)
    as (t' & r & Hall' & Hr & Hf & Hc & Hwf & Hsound & _).
  rewrite Hall in Hall'. injection Hall' as <-.
  exists r. repeat split; auto.
  intros k kl d Hs. apply Hsound in Hs as [Hs|Hs]; [exact Hs|].
  apply stores_emptyNode in Hs. contradiction.
Qed.

Lemma Insert_built v6 l t p d :
  Forall (fun e => validPrefix v6 (fst e) = true) l ->
  insertAll (NewTrie v6) l = Ok t ->
  validPrefix v6 p = true ->
  exists t',
    Insert t p d = Ok t' /\ Count t' = Count t + 1 /\
    forall ip, Netip.Is6 ip = v6 -> Contains p ip = true ->
      (forall p' d', In (p', d') l -> Contains p' ip = true -> Netip.Bits p' <= Netip.Bits p) ->
      Lookup t' ip = Some d.
Proof.
  intros Hval Hall Hp.
  destruct (built_trie v6 l t Hval Hall) as (r & Hr & Hf & Hc & Hwf & Hsound).
  apply validPrefix_spec in Hp as [Hfam Hbits].
  unfold Insert. rewrite Hfam, Hf, eqb_reflx, Hr. cbn [negb].
  eexists. split; [reflexivity|]. split; [reflexivity|].
  intros ip Hip Hcont Hmax.
  pose proof (insert_stores (familyBits v6) (prefixToBits p) (Netip.Bits p) d
                ltac:(lia) r 0 Hwf ltac:(lia)) as Hins.
  eapply Lookup_best with (kl := Netip.Bits p); cbn [Root IsIPv6]; try reflexivity.
  - apply insert_wf; [lia|assumption|lia].
  - exact Hip.
  - apply Hins. left. split; [|reflexivity]. split; [reflexivity|].
    apply agreeb_spec. exact Hcont.
  - intros kl' d' Hs. apply Hins in Hs as [[[-> _] _]|[_ Hs]]; [lia|].
    apply Hsound in Hs as (p' & Hin & -> & Hag). eapply Hmax; eauto.
Qed.

Lemma insertAll_app l1 l2 t :
  insertAll t (l1 ++ l2) =
  match insertAll t l1 with Ok t' => insertAll t' l2 | Err e => Err e end.
Proof.
  revert t. induction l1 as [|[p d] l1 IH]; intros t; cbn [insertAll app]; [reflexivity|].
  destruct (Insert t p d); [apply IH|reflexivity].
Qed.

(** C2 (as stated): refuted on the scenario of the claim; after inserting
    10.0.0.0/8 for ZZ and again for XX the count is 2, not 1. *)
Lemma C2_count_counterexample :
  exists t1 t2,
    @InsertCIDR ipv4Only (NewTrie false) "10.0.0.0/8" "ZZ" = Ok t1 /\
    @InsertCIDR ipv4Only t1 "10.0.0.0/8" "XX" = Ok t2 /\
    Count t1 = 1 /\ Count t2 = 2 /\ Count t2 <> 1.
Proof.
  eexists. eexists. split; [vm_compute; reflexivity|].
  split; [vm_compute; reflexivity|]. cbn. repeat split; lia.
Qed.

(** C2 (amended): in a trie built by inserts of valid prefixes, inserting a
    valid prefix and then the same prefix again with another record
    succeeds both times; each of the two inserts adds one to [Count], the
    overwriting one as well; and [Lookup] of an address that the prefix
    contains, and no longer inserted prefix does, returns the second
    record. *)
Theorem C2_overwrite_lookup_and_count (v6 : bool) (l : list entry) (t : Trie)
        (p : Netip.Prefix) (d0 d1 : PrefixData) :
  Forall (fun e => validPrefix v6 (fst e) = true) l ->
  insertAll (NewTrie v6) l = Ok t ->
  validPrefix v6 p = true ->
  exists t1 t2,
    Insert t p d0 = Ok t1 /\ Insert t1 p d1 = Ok t2 /\
    Count t1 = Count t + 1 /\ Count t2 = Count t1 + 1 /\
    forall ip, Netip.Is6 ip = v6 -> Contains p ip = true ->
      (forall p' d', In (p', d') l -> Contains p' ip = true ->
                     Netip.Bits p' <= Netip.Bits p) ->
      Lookup t2 ip = Some d1.
Proof.
  intros Hval Hall Hp.
  destruct (Insert_built v6 l t p d0 Hval Hall Hp) as (t1 & H1 & Hc1 & _).
  assert (Hval1 : Forall (fun e => validPrefix v6 (fst e) = true) (l ++ [(p, d0)])).
  { apply Forall_app. split; [assumption|]. constructor; [exact Hp|constructor]. }
  assert (Hall1 : insertAll (NewTrie v6) (l ++ [(p, d0)]) = Ok t1).
  { rewrite insertAll_app, Hall. cbn [insertAll]. rewrite H1. reflexivity. }
  destruct (Insert_built v6 _ t1 p d1 Hval1 Hall1 Hp) as (t2 & H2 & Hc2 & Hlk).
  exists t1, t2. repeat split; auto.
  intros ip Hip Hc Hmax. apply Hlk; auto.
  intros p' d' Hin Hc'. apply in_app_or in Hin as [Hin|[[= <- <-]|[]]]; [eauto|lia].
Qed.

(** The scenario of the overwrite, on the empty trie. *)
Lemma C2_witness :
  exists t1 t2,
    Insert (NewTrie false) (cidr4 10 0 0 0 8) (mkPrefixData "ZZ" "10.0.0.0/8") = Ok t1 /\
    Insert t1 (cidr4 10 0 0 0 8) (mkPrefixData "XX" "10.0.0.0/8") = Ok t2 /\
    Count t2 = 2 /\
    Lookup t2 (ip4 10 5 5 5) = Some (mkPrefixData "XX" "10.0.0.0/8").
Proof.
  destruct (C2_overwrite_lookup_and_count false [] (NewTrie false) (cidr4 10 0 0 0 8)
              (mkPrefixData "ZZ" "10.0.0.0/8") (mkPrefixData "XX" "10.0.0.0/8"))
    as (t1 & t2 & H1 & H2 & Hc1 & Hc2 & Hlk).
  - constructor.
  - reflexivity.
  - reflexivity.
  - exists t1, t2. split; [exact H1|]. split; [exact H2|]. split.
    + rewrite Hc2, Hc1. reflexivity.
    + apply Hlk; [reflexivity|reflexivity|]. intros p' d' [].
Defined.

(** *** Parsing a CIDR text *)

Lemma splitLast_spec c s a b :
  Netip.splitLast c s = Some (a, b) -> s = (a ++ String c b)%string.
Proof.
  revert a b. induction s as [|x s IH]; intros a b; cbn [Netip.splitLast]; [discriminate|].
  destruct (Netip.splitLast c s) as [[a' b']|].
  - intros [= <- <-]. change (String x s = String x (a' ++ String c b')%string). f_equal. apply IH. reflexivity.
  - destruct (Ascii.eqb_spec x c) as [->|]; [|discriminate].
    intros [= <- <-]. reflexivity.
Qed.

Lemma parseBits_spec ip bs n :
  Netip.parseBits ip bs = Some n ->
  Netip.Atoi bs = Some n /\ 0 <= n <= Netip.BitLen ip.
Proof.
  unfold Netip.parseBits, Netip.BitLen.
  destruct (match bs with String c (String _ _) => _ | _ => false end); [discriminate|].
  destruct (Netip.Atoi bs) as [m|]; [|discriminate].
  destruct (Z.ltb_spec m 0); cbn [orb]; [discriminate|].
  rewrite Z.gtb_ltb. destruct (Z.ltb_spec (if Netip.Is6 ip then 128 else 32) m); [discriminate|].
  intros [= <-]. split; [reflexivity|lia].
Qed.

Lemma ParsePrefix_spec `{Netip.IPv6Text} s p :
  Netip.ParsePrefix s = Some p ->
  exists a bs zone,
    s = (a ++ "/" ++ bs)%string /\
    Netip.ParseAddr a = Some (Netip.PAddr p, zone) /\
    Netip.Atoi bs = Some (Netip.Bits p) /\
    0 <= Netip.Bits p <= Netip.BitLen (Netip.PAddr p).
Proof.
  unfold Netip.ParsePrefix.
  destruct (Netip.splitLast "/" s) as [[a bs]|] eqn:Hs; [|discriminate].
  destruct (Netip.ParseAddr a) as [[ip zone]|] eqn:Ha; [|discriminate].
  destruct (Netip.Is6 ip && negb (zone =? "")%string); [discriminate|].
  destruct (Netip.parseBits ip bs) as [n|] eqn:Hb; [|discriminate].
  intros [= <-]. apply parseBits_spec in Hb as [Hb Hr].
  exists a, bs, zone. cbn [Netip.PAddr Netip.Bits].
  split; [apply splitLast_spec; exact Hs|]. auto.
Qed.

(** C8: [InsertCIDR] rejects as an invalid CIDR every text that is not an
    address, a slash and a decimal length within the range of the
    address's family; a text that parses is never rejected for bits set
    beyond the prefix length: every bit of the inserted key from the
    prefix length on is zero, and in a trie built by inserts the call
    succeeds and the record found afterwards carries the upper-cased
    country code and the text of the masked prefix. *)
Theorem C8_InsertCIDR_masks_never_rejects_host_bits `{Netip.IPv6Text}
        (t : Trie) (cidr countryCode : string) :
  (* what is not "address/length" with the length in the family's range is
     rejected as an invalid CIDR *)
  ((~ exists a bs ip zone n,
        cidr = (a ++ "/" ++ bs)%string /\ Netip.ParseAddr a = Some (ip, zone) /\
        Netip.Atoi bs = Some n /\ 0 <= n <= Netip.BitLen ip) ->
   InsertCIDR t cidr countryCode = Err ErrInvalidCIDR) /\
  (Netip.ParsePrefix cidr = None -> InsertCIDR t cidr countryCode = Err ErrInvalidCIDR) /\
  (* a text that parses is never rejected for its host bits: they are
     cleared, and the record carries the text of the masked prefix *)
  (forall p, Netip.ParsePrefix cidr = Some p ->
     0 <= Netip.Bits p <= Netip.BitLen (Netip.PAddr p) /\
     (forall i, Netip.Bits p <= i -> 0 <= i -> getBit (prefixToBits (Netip.Masked p)) i = 0) /\
     InsertCIDR t cidr countryCode <> Err ErrInvalidCIDR /\
     forall l,
       Forall (fun e => validPrefix (Netip.Is6 (Netip.PAddr p)) (fst e) = true) l ->
       insertAll (NewTrie (Netip.Is6 (Netip.PAddr p))) l = Ok t ->
       exists t',
         InsertCIDR t cidr countryCode = Ok t' /\
         forall ip, Netip.Is6 ip = Netip.Is6 (Netip.PAddr p) -> Contains p ip = true ->
           (forall p' d', In (p', d') l -> Contains p' ip = true ->
                          Netip.Bits p' <= Netip.Bits p) ->
           Lookup t' ip = Some {| CountryCode := ToUpper countryCode;
                                  PrefixStr := Netip.String (Netip.Masked p) |}).
Proof.
  assert (Hnone : Netip.ParsePrefix cidr = None ->
                  InsertCIDR t cidr countryCode = Err ErrInvalidCIDR).
  { intros E. unfold InsertCIDR. rewrite E. reflexivity. }
  split; [|split; [exact Hnone|]].
  - intros Hno. apply Hnone.
    destruct (Netip.ParsePrefix cidr) as [p|] eqn:E; [|reflexivity].
    exfalso. apply Hno. apply ParsePrefix_spec in E as (a & bs & zone & ? & ? & ? & ?).
    exists a, bs, (Netip.PAddr p), zone, (Netip.Bits p). auto.
  - intros p Hp. pose proof (ParsePrefix_spec _ _ Hp) as (a & bs & zone & _ & _ & _ & Hr).
    split; [exact Hr|]. split; [intros; apply Masked_host_bits_zero; assumption|].
    split.
    { unfold InsertCIDR, Insert. rewrite Hp.
      destruct (negb _); [discriminate|]. destruct (Root t); discriminate. }
    intros l Hval Hall.
    assert (Hv : validPrefix (Netip.Is6 (Netip.PAddr p)) (Netip.Masked p) = true).
    { rewrite validPrefix_Masked. apply validPrefix_spec.
      unfold Netip.BitLen, familyBits in *. split; [reflexivity|lia]. }
    destruct (Insert_built _ l t (Netip.Masked p)
                {| CountryCode := ToUpper countryCode;
                   PrefixStr := Netip.String (Netip.Masked p) |} Hval Hall Hv)
      as (t' & Hi & _ & Hlk).
    exists t'. split; [unfold InsertCIDR; rewrite Hp; exact Hi|].
    intros ip Hip Hc Hmax. apply Hlk; [exact Hip|rewrite Contains_Masked; exact Hc|].
    exact Hmax.
Qed.

(** The text 8.8.8.7/24 is stored as 8.8.8.0/24. *)
Lemma C8_witness :
  exists t',
    @InsertCIDR ipv4Only (NewTrie false) "8.8.8.7/24" "us" = Ok t' /\
    Lookup t' (ip4 8 8 8 8) = Some (mkPrefixData "US" "8.8.8.0/24").
Proof.
  destruct (@C8_InsertCIDR_masks_never_rejects_host_bits ipv4Only
              (NewTrie false) "8.8.8.7/24" "us") as (_ & _ & Hok).
  destruct (Hok (cidr4 8 8 8 7 24) eq_refl) as (_ & _ & _ & Hins).
  destruct (Hins [] ltac:(constructor) eq_refl) as (t' & Ht & Hlk).
  exists t'. split; [exact Ht|].
  apply (Hlk (ip4 8 8 8 8)); [reflexivity|reflexivity|]. intros p' d' [].
Defined.

(** The rejections exercised by the package's tests. *)
Example InsertCIDR_rejects :
  map (fun s => @InsertCIDR ipv4Only (NewTrie false) s "US")
      ["not-a-cidr"; "8.8.8.8"; "8.8.8.8/33"; "256.256.256.0/24"]%string
  = [Err ErrInvalidCIDR; Err ErrInvalidCIDR; Err ErrInvalidCIDR; Err ErrInvalidCIDR].
Proof. vm_compute. reflexivity. Qed.

(** *** extractBits *)



(** *** What an insert changes *)

(** In a well-formed trie the result of [Lookup] depends only on the
    records bound along the path of the address. *)
Lemma Lookup_stores_ext t t' r r' ip :
  Root t = Some r -> Root t' = Some r' -> IsIPv6 t' = IsIPv6 t ->
  wfNode (familyBits (IsIPv6 t)) r 0 = true ->
  wfNode (familyBits (IsIPv6 t)) r' 0 = true ->
  Netip.Is6 ip = IsIPv6 t ->
  (forall kl d, stores r' 0 (addrToBits ip) kl d <-> stores r 0 (addrToBits ip) kl d) ->
  Lookup t' ip = Lookup t ip.
Proof.
  intros Hr Hr' Hf Hwf Hwf' Hip Heq.
  rewrite (Lookup_root t r ip Hr Hip).
  assert (Hpos : 0 <= familyBits (IsIPv6 t)) by (unfold familyBits; destruct (IsIPv6 t); lia).
  destruct (lookupLoop_spec (familyBits (IsIPv6 t)) (addrToBits ip) r 0 None Hwf Hpos)
    as [[Hnone ->]|(kl0 & d0 & Hs0 & Hmax0 & ->)].
  - apply (Lookup_none t' r' ip Hr'); rewrite ?Hf; auto.
    intros kl d Hs. apply Heq in Hs. eapply Hnone; eauto.
  - apply (Lookup_best t' r' ip kl0 d0 Hr'); rewrite ?Hf; auto.
    + apply Heq. exact Hs0.
    + intros kl' d' Hs. apply Heq in Hs. eauto.
Qed.

(** Every key that was inserted, and every key that was bound before, is
    bound after a sequence of inserts. *)
Lemma insertAll_stored l :
  forall t r t' r',
    Root t = Some r ->
    wfNode (familyBits (IsIPv6 t)) r 0 = true ->
    Forall (fun e => validPrefix (IsIPv6 t) (fst e) = true) l ->
    insertAll t l = Ok t' -> Root t' = Some r' ->
    forall k kl,
      (exists d0, stores r 0 k kl d0) \/
      (exists q dq, In (q, dq) l /\ kl = Netip.Bits q /\
                    agreeb (prefixToBits q) k (Netip.Bits q) = true) ->
      exists d', stores r' 0 k kl d'.
Proof.
  induction l as [|[p d] l IH]; intros t r t' r' Hr Hwf Hval Hall Hr' k kl H.
  - cbn [insertAll] in Hall. injection Hall as <-. rewrite Hr in Hr'. injection Hr' as <-.
    destruct H as [H|(q & dq & [] & _)]. exact H.
  - apply Forall_cons in Hval as [Hp Hval]. cbn [fst] in Hp.
    apply validPrefix_spec in Hp as [Hfam Hbits].
    cbn [insertAll] in Hall. unfold Insert in Hall.
    rewrite Hfam, eqb_reflx, Hr in Hall. cbn [negb] in Hall.
    set (r1 := insertRecursive r (prefixToBits p) 0 (Netip.Bits p) d) in *.
    set (t1 := {| Root := Some r1; IsIPv6 := IsIPv6 t; Count := Count t + 1 |}) in *.
    assert (Hwf1 : wfNode (familyBits (IsIPv6 t)) r1 0 = true).
    { apply insert_wf; [lia|assumption|lia]. }
    pose proof (insert_stores (familyBits (IsIPv6 t)) (prefixToBits p) (Netip.Bits p) d
                  ltac:(lia) r 0 Hwf ltac:(lia)) as Hins.
    fold r1 in Hins.
    apply (IH t1 r1 t' r' eq_refl Hwf1 Hval Hall Hr').
    destruct (Z.eq_dec kl (Netip.Bits p)) as [Hkl|Hkl];
      [destruct (agreeb (prefixToBits p) k (Netip.Bits p)) eqn:Hag|].
    + left. exists d. apply Hins. left. split; [|reflexivity].
      apply sameKey_keyIs. auto.
    + destruct H as [[d0 H]|(q & dq & [[= <- <-]|Hin] & Hq)].
      * left. exists d0. apply Hins. right. split; [|exact H].
        intros Hs. apply sameKey_keyIs in Hs as [_ Hs]. congruence.
      * destruct Hq as [_ Hq]. congruence.
      * right. exists q, dq. auto.
    + destruct H as [[d0 H]|(q & dq & [[= <- <-]|Hin] & Hq)].
      * left. exists d0. apply Hins. right. split; [|exact H].
        intros Hs. apply sameKey_keyIs in Hs as [Hs _]. contradiction.
      * destruct Hq as [Hq _]. contradiction.
      * right. exists q, dq. auto.
Qed.

(** The effect of one more insert on every lookup. *)
Lemma Insert_lookup v6 l t p d t' :
  Forall (fun e => validPrefix v6 (fst e) = true) l ->
  insertAll (NewTrie v6) l = Ok t ->
  validPrefix v6 p = true ->
  Insert t p d = Ok t' ->
  forall ip,
    Lookup t' ip =
    if Bool.eqb (Netip.Is6 ip) v6 && Contains p ip &&
       forallb (fun e => negb (Contains (fst e) ip) ||
                         (Netip.Bits (fst e) <=? Netip.Bits p)) l
    then Some d else Lookup t ip.
Proof.
  intros Hval Hall Hp Hins ip.
  destruct (built_trie v6 l t Hval Hall) as (r & Hr & Hf & Hc & Hwf & Hsound).
  subst v6.
  assert (Hstored : forall q dq, In (q, dq) l -> Contains q ip = true ->
            exists d', stores r 0 (addrToBits ip) (Netip.Bits q) d').
  { intros q dq Hin Hq.
    apply (insertAll_stored l (NewTrie (IsIPv6 t)) emptyNode t r eq_refl
             (wfNode_emptyNode _) Hval Hall Hr).
    right. exists q, dq. auto. }
  apply validPrefix_spec in Hp as [Hfam Hbits].
  unfold Insert in Hins. rewrite Hfam, eqb_reflx, Hr in Hins. cbn [negb] in Hins.
  injection Hins as <-.
  set (r1 := insertRecursive r (prefixToBits p) 0 (Netip.Bits p) d).
  destruct (Bool.eqb (Netip.Is6 ip) (IsIPv6 t)) eqn:Hip; cbn [andb].
  2:{ unfold Lookup. cbn [IsIPv6]. rewrite Hip. reflexivity. }
  apply eqb_prop in Hip.
  assert (Hwf1 : wfNode (familyBits (IsIPv6 t)) r1 0 = true).
  { apply insert_wf; [lia|assumption|lia]. }
  pose proof (insert_stores (familyBits (IsIPv6 t)) (prefixToBits p) (Netip.Bits p) d
                ltac:(lia) r 0 Hwf ltac:(lia)) as Hst.
  fold r1 in Hst.
  destruct (Contains p ip) eqn:Hcont; cbn [andb].
  - destruct (forallb _ l) eqn:Hall'.
    + rewrite forallb_forall in Hall'.
      eapply Lookup_best with (kl := Netip.Bits p); cbn [Root IsIPv6]; try reflexivity.
      * exact Hwf1.
      * exact Hip.
      * apply Hst. left. split; [|reflexivity]. split; [reflexivity|].
        apply agreeb_spec. exact Hcont.
      * intros kl' d' Hs. apply Hst in Hs as [[[-> _] _]|[_ Hs]]; [lia|].
        apply Hsound in Hs as (p' & Hin & -> & Hag).
        specialize (Hall' _ Hin). cbn [fst] in Hall'. unfold Contains in Hall'.
        rewrite Hag in Hall'. cbn [negb orb] in Hall'. apply Z.leb_le. exact Hall'.
    + (* a longer prefix that contains the address is stored *)
      assert (Hex : exists q dq, In (q, dq) l /\ Contains q ip = true /\
                                 Netip.Bits p < Netip.Bits q).
      { clear -Hall'. induction l as [|[q dq] l IH]; [discriminate|].
        cbn [forallb fst] in Hall'. apply andb_false_iff in Hall' as [H|H].
        - apply orb_false_iff in H as [H1 H2]. apply negb_false_iff in H1.
          apply Z.leb_gt in H2. exists q, dq. split; [left; reflexivity|auto].
        - destruct (IH H) as (q' & dq' & Hin & Hq). exists q', dq'.
          split; [right; exact Hin|exact Hq]. }
      destruct Hex as (q & dq & Hin & Hq & Hlt).
      destruct (Hstored q dq Hin Hq) as [dq' Hsq].
      rewrite (Lookup_root t r ip Hr Hip).
      assert (Hpos : 0 <= familyBits (IsIPv6 t))
        by (unfold familyBits; destruct (IsIPv6 t); lia).
      destruct (lookupLoop_spec (familyBits (IsIPv6 t)) (addrToBits ip) r 0 None Hwf Hpos)
        as [[Hnone _]|(kl0 & d0 & Hs0 & Hmax0 & ->)]; [exfalso; eapply Hnone; eauto|].
      pose proof (Hmax0 _ _ Hsq) as Hge.
      eapply Lookup_best with (kl := kl0); cbn [Root IsIPv6]; try reflexivity.
      * exact Hwf1.
      * exact Hip.
      * apply Hst. right. split; [|exact Hs0]. intros [Hk _]. lia.
      * intros kl' d' Hs. apply Hst in Hs as [[[-> _] _]|[_ Hs]]; [lia|eauto].
  - apply (Lookup_stores_ext t {| Root := Some r1; IsIPv6 := IsIPv6 t; Count := Count t + 1 |}
             r r1 ip Hr eq_refl eq_refl Hwf Hwf1 Hip).
    intros kl d0. rewrite Hst. split; [intros [[[_ Hs] _]|[_ Hs]]; [|exact Hs]|].
    + apply agreeb_spec in Hs. unfold Contains in Hcont. congruence.
    + intros Hs. right. split; [|exact Hs]. intros [_ Hk].
      apply agreeb_spec in Hk. unfold Contains in Hcont. congruence.
Qed.

(** X7: in a trie built by inserts, one more [Insert] changes the result
    of [Lookup] at the addresses of the family that the inserted prefix
    contains and no longer inserted prefix contains, where it becomes the
    new record, and at no other address. *)
Theorem X7_Insert_changes_only_its_addresses (v6 : bool) (l : list entry) (t t' : Trie)
        (p : Netip.Prefix) (d : PrefixData) :
  Forall (fun e => validPrefix v6 (fst e) = true) l ->
  insertAll (NewTrie v6) l = Ok t ->
  validPrefix v6 p = true ->
  Insert t p d = Ok t' ->
  forall ip,
    Lookup t' ip =
    if Bool.eqb (Netip.Is6 ip) v6 && Contains p ip &&
       forallb (fun e => negb (Contains (fst e) ip) ||
                         (Netip.Bits (fst e) <=? Netip.Bits p)) l
    then Some d else Lookup t ip.
Proof. apply Insert_lookup. Qed.

(** 8.8.0.0/17 inserted after the test scenario: 8.8.8.8 keeps the record
    of the longer 8.8.8.0/24, 8.8.100.1 gets the new record, and 8.8.200.1
    keeps the record of 8.8.0.0/16. *)
Lemma X7_witness :
  exists t t',
    insertAll (NewTrie false) scenario1 = Ok t /\
    Insert t (cidr4 8 8 0 0 17) (mkPrefixData "XX" "8.8.0.0/17") = Ok t' /\
    Lookup t' (ip4 8 8 8 8) = Lookup t (ip4 8 8 8 8) /\
    Lookup t' (ip4 8 8 100 1) = Some (mkPrefixData "XX" "8.8.0.0/17") /\
    Lookup t' (ip4 8 8 200 1) = Lookup t (ip4 8 8 200 1).
Proof.
  assert (Ht : exists t t', insertAll (NewTrie false) scenario1 = Ok t /\
             Insert t (cidr4 8 8 0 0 17) (mkPrefixData "XX" "8.8.0.0/17") = Ok t').
  { eexists. eexists. split; [vm_compute; reflexivity|]. vm_compute. reflexivity. }
  destruct Ht as (t & t' & Ht & Ht').
  pose proof (X7_Insert_changes_only_its_addresses false scenario1 t t' (cidr4 8 8 0 0 17)
                (mkPrefixData "XX" "8.8.0.0/17") ltac:(repeat constructor) Ht eq_refl Ht')
    as H.
  exists t, t'. split; [exact Ht|]. split; [exact Ht'|].
  split; [|split]; rewrite H;
    match goal with
    | |- (if ?c then _ else _) = _ =>
        let v := eval vm_compute in c in
        replace c with v by (vm_compute; reflexivity)
    end; reflexivity.
Defined.

(** *** Lookup against a linear scan *)

Lemma scan_invariant ip (l : list entry) :
  match fold_left (scanStep ip) l None with
  | None => forall e, In e l -> Contains (fst e) ip = false
  | Some (n, d) =>
      (exists p, In (p, d) l /\ Netip.Bits p = n /\ Contains p ip = true) /\
      (forall e, In e l -> Contains (fst e) ip = true -> Netip.Bits (fst e) <= n)
  end.
Proof.
  induction l as [|[p d] l IH] using rev_ind; [intros e []|].
  rewrite fold_left_app. cbn [fold_left]. unfold scanStep at 1. cbn [fst snd].
  destruct (fold_left (scanStep ip) l None) as [[n d0]|].
  - destruct IH as [(q & Hin & Hq) Hmax].
    destruct (Contains p ip) eqn:Hc; cbn [andb].
    + destruct (Z.leb_spec n (Netip.Bits p)).
      * split.
        -- exists p. split; [apply in_or_app; right; left; reflexivity|auto].
        -- intros e He Hce. apply in_app_or in He as [He|[<-|[]]]; [|cbn; lia].
           specialize (Hmax e He Hce). lia.
      * split.
        -- exists q. split; [apply in_or_app; left; exact Hin|exact Hq].
        -- intros e He Hce. apply in_app_or in He as [He|[<-|[]]]; [auto|cbn; lia].
    + split.
      * exists q. split; [apply in_or_app; left; exact Hin|exact Hq].
      * intros e He Hce. apply in_app_or in He as [He|[<-|[]]]; [auto|].
        cbn [fst] in Hce. congruence.
  - destruct (Contains p ip) eqn:Hc; cbn [andb].
    + split.
      * exists p. split; [apply in_or_app; right; left; reflexivity|auto].
      * intros e He Hce. apply in_app_or in He as [He|[<-|[]]]; [|cbn; lia].
        rewrite (IH e He) in Hce. discriminate.
    + intros e He. apply in_app_or in He as [He|[<-|[]]]; [auto|exact Hc].
Qed.

Lemma insertAll_snoc t l e t' :
  insertAll t (l ++ [e]) = Ok t' ->
  exists t1, insertAll t l = Ok t1 /\ Insert t1 (fst e) (snd e) = Ok t'.
Proof.
  rewrite insertAll_app. destruct (insertAll t l) as [t1|]; [|discriminate].
  destruct e as [p d]. cbn [insertAll fst snd].
  destruct (Insert t1 p d) as [t2|] eqn:E; [|discriminate].
  intros [= <-]. exists t1. auto.
Qed.

Lemma Lookup_scan v6 (l : list entry) :
  forall t,
    Forall (fun e => validPrefix v6 (fst e) = true) l ->
    insertAll (NewTrie v6) l = Ok t ->
    forall ip, Lookup t ip = if Bool.eqb (Netip.Is6 ip) v6 then scan l ip else None.
Proof.
  induction l as [|[p d] l IH] using rev_ind; intros t Hval Hall ip.
  - cbn [insertAll] in Hall. injection Hall as <-.
    destruct (Bool.eqb (Netip.Is6 ip) v6) eqn:E.
    + apply eqb_prop in E. change (scan [] ip) with (@None PrefixData).
      apply (Lookup_none (NewTrie v6) emptyNode ip eq_refl (wfNode_emptyNode _) E).
      intros kl d. apply stores_emptyNode.
    + unfold Lookup. cbn [NewTrie IsIPv6]. rewrite E. reflexivity.
  - apply Forall_app in Hval as [Hval Hp]. apply Forall_cons in Hp as [Hp _]. cbn [fst] in Hp.
    apply insertAll_snoc in Hall as (t1 & Hall & Hins). cbn [fst snd] in Hins.
    rewrite (Insert_lookup v6 l t1 p d t Hval Hall Hp Hins ip), (IH t1 Hval Hall ip).
    destruct (Bool.eqb (Netip.Is6 ip) v6); cbn [andb]; [|reflexivity].
    unfold scan. rewrite fold_left_app. cbn [fold_left]. unfold scanStep at 2. cbn [fst snd].
    pose proof (scan_invariant ip l) as Hinv.
    destruct (Contains p ip) eqn:Hc; cbn [andb]; [|reflexivity].
    destruct (fold_left (scanStep ip) l None) as [[n d0]|].
    + destruct Hinv as [(q & Hin & Hq & Hcq) Hmax].
      destruct (Z.leb_spec n (Netip.Bits p)).
      * replace (forallb _ l) with true; [reflexivity|]. symmetry.
        apply forallb_forall. intros e He.
        destruct (Contains (fst e) ip) eqn:Hce; [|reflexivity]. cbn [negb orb].
        apply Z.leb_le. specialize (Hmax e He Hce). lia.
      * replace (forallb _ l) with false; [reflexivity|]. symmetry.
        apply not_true_is_false. intros Hf. rewrite forallb_forall in Hf.
        specialize (Hf _ Hin). cbn [fst] in Hf. rewrite Hcq in Hf. cbn [negb orb] in Hf.
        apply Z.leb_le in Hf. lia.
    + replace (forallb _ l) with true; [reflexivity|]. symmetry.
      apply forallb_forall. intros e He. rewrite (Hinv e He). reflexivity.
Qed.

(** X8: whatever valid prefixes of its family are inserted into a new
    trie, in whatever order and with whatever repetitions, [Lookup] of an
    address of the family returns what a linear scan of the inserted
    entries returns: the record of the last entry among those of greatest
    prefix length whose prefix contains the address, and nothing when
    there is none; for an address of the other family it returns nothing. *)
Theorem X8_Lookup_is_linear_scan (v6 : bool) (l : list entry) (t : Trie) :
  Forall (fun e => validPrefix v6 (fst e) = true) l ->
  insertAll (NewTrie v6) l = Ok t ->
  forall ip, Lookup t ip = if Bool.eqb (Netip.Is6 ip) v6 then scan l ip else None.
Proof. apply Lookup_scan. Qed.

(** The test scenario with 8.8.8.0/24 inserted a second time for another
    country: the second record is found. *)
Lemma X8_witness :
  exists t,
    insertAll (NewTrie false)
              (scenario1 ++ [(cidr4 8 8 8 0 24, mkPrefixData "CA" "8.8.8.0/24")]) = Ok t /\
    Lookup t (ip4 8 8 8 8) = Some (mkPrefixData "CA" "8.8.8.0/24") /\
    Lookup t (ip4 8 8 9 9) = Some (mkPrefixData "US" "8.8.0.0/16") /\
    Lookup t (ip4 9 9 9 9) = None.
Proof.
  assert (Ht : exists t, insertAll (NewTrie false)
             (scenario1 ++ [(cidr4 8 8 8 0 24, mkPrefixData "CA" "8.8.8.0/24")]) = Ok t).
  { eexists. vm_compute. reflexivity. }
  destruct Ht as (t & Ht).
  pose proof (X8_Lookup_is_linear_scan false
                (scenario1 ++ [(cidr4 8 8 8 0 24, mkPrefixData "CA" "8.8.8.0/24")]) t
                ltac:(repeat constructor) Ht) as H.
  exists t. split; [exact Ht|]. split; [|split]; rewrite H; vm_compute; reflexivity.
Defined.

(** *** The number of nodes *)

Lemma nodeCount_setChild n b X :
  (b = 0 \/ b = 1) ->
  (nodeCount (setChild n b (Some X)) +
   match Children n b with Some c => nodeCount c | None => 0 end
   = nodeCount n + nodeCount X)%nat.
Proof.
  destruct n as [p l d c0 c1]. intros [-> | ->]; unfold setChild, Children;
    cbn [Z.eqb nodeCount Child0 Child1 Prefix PrefixLen Data]; lia.
Qed.

Lemma nodeCount_setData n d : nodeCount (setData n d) = nodeCount n.
Proof. destruct n; reflexivity. Qed.

Lemma nodeCount_setEdge n p l : nodeCount (setEdge n p l) = nodeCount n.
Proof. destruct n; reflexivity. Qed.

(** [insertRecursive] allocates at most two nodes. *)
Lemma insert_nodeCount bits plen d :
  forall n pos,
    (nodeCount (insertRecursive n bits pos plen d) <= nodeCount n + 2)%nat.
Proof.
  induction n as [n IH] using TrieNode_ind. intros pos.
  rewrite insertRecursive_eq. cbv zeta.
  destruct (pos =? plen); [rewrite nodeCount_setData; lia|].
  pose proof (getBit_01 bits pos) as Hb.
  destruct (Children n (getBit bits pos)) as [c|] eqn:Hc.
  2:{ pose proof (nodeCount_setChild n (getBit bits pos)
                    (leaf (extractBits bits pos (plen - pos)) (plen - pos) d) Hb) as H.
      rewrite Hc in H. cbn [leaf nodeCount Child0 Child1] in H. lia. }
  set (L := commonLoop bits (Prefix c) pos (Z.to_nat (min (plen - pos) (PrefixLen c))) 0).
  destruct (L =? PrefixLen c).
  - destruct (L =? plen - pos).
    + pose proof (nodeCount_setChild n (getBit bits pos) (setData c (Some d)) Hb) as H.
      rewrite Hc, nodeCount_setData in H. lia.
    + pose proof (nodeCount_setChild n (getBit bits pos)
                    (insertRecursive c bits (pos + PrefixLen c) plen d) Hb) as H.
      rewrite Hc in H. pose proof (IH _ _ Hc (pos + PrefixLen c)). lia.
  - unfold getBitFromSlice, extractBitsFromSlice.
    pose proof (getBit_01 (Prefix c) L) as Hob.
    set (np := setChild {| Prefix := extractBits bits pos L; PrefixLen := L; Data := None;
                           Child0 := None; Child1 := None |}
                        (getBit (Prefix c) L)
                        (Some (setEdge c (extractBits (Prefix c) L (PrefixLen c - L))
                                       (PrefixLen c - L)))).
    assert (Hnp : nodeCount np = S (nodeCount c)).
    { unfold np. destruct Hob as [-> | ->]; unfold setChild;
        cbn [Z.eqb nodeCount Child0 Child1]; rewrite nodeCount_setEdge; lia. }
    destruct (L =? plen - pos).
    + pose proof (nodeCount_setChild n (getBit bits pos) (setData np (Some d)) Hb) as H.
      rewrite Hc, nodeCount_setData, Hnp in H. lia.
    + set (lf := leaf _ _ d).
      pose proof (nodeCount_setChild n (getBit bits pos)
                    (setChild np (getBit bits (pos + L)) (Some lf)) Hb) as H.
      rewrite Hc in H.
      pose proof (nodeCount_setChild np (getBit bits (pos + L)) lf
                    (getBit_01 bits (pos + L))) as H2.
      change (nodeCount lf) with 1%nat in H2.
      destruct (Children np (getBit bits (pos + L))) as [x|]; lia.
Qed.

Lemma Insert_nodes t p d t' :
  Insert t p d = Ok t' ->
  (trieNodes t' <= trieNodes t + 2)%nat /\ Count t' = Count t + 1.
Proof.
  unfold Insert. destruct (negb _); [discriminate|].
  destruct (Root t) as [r|] eqn:Hr; [|discriminate]. intros [= <-].
  unfold trieNodes. rewrite Hr. cbn [Root Count]. split; [apply insert_nodeCount|reflexivity].
Qed.

Lemma insertAll_nodes l :
  forall t t', insertAll t l = Ok t' ->
    (trieNodes t' <= trieNodes t + 2 * length l)%nat /\
    Count t' = Count t + Z.of_nat (length l).
Proof.
  induction l as [|[p d] l IH]; intros t t' H.
  - injection H as <-. cbn [length]. lia.
  - cbn [insertAll] in H. destruct (Insert t p d) as [t1|] eqn:E; [|discriminate].
    apply Insert_nodes in E as [E1 E2]. apply IH in H as [H1 H2].
    cbn [length]. lia.
Qed.

(** X9: one [Insert] adds at most two nodes to a trie, so a trie built from
    a new trie by inserts has at most twice its count of inserts plus one
    nodes. *)
Theorem X9_trie_has_at_most_two_nodes_per_insert (isIPv6 : bool) (l : list entry) (t : Trie) :
  insertAll (NewTrie isIPv6) l = Ok t ->
  Count t = Z.of_nat (length l) /\
  Z.of_nat (trieNodes t) <= 2 * Count t + 1.
Proof.
  intros H. apply insertAll_nodes in H as [H1 H2].
  cbn [NewTrie Count] in H2. split; [lia|].
  change (trieNodes (NewTrie isIPv6)) with 1%nat in H1. lia.
Qed.

(** The three prefixes of the test scenario make a trie of five nodes. *)
Lemma X9_witness :
  exists t, insertAll (NewTrie false) scenario1 = Ok t /\
            Count t = 3 /\ trieNodes t = 5%nat /\ Z.of_nat (trieNodes t) <= 2 * Count t + 1.
Proof.
  assert (Ht : exists t, insertAll (NewTrie false) scenario1 = Ok t /\ trieNodes t = 5%nat).
  { eexists. split; [vm_compute; reflexivity|]. vm_compute. reflexivity. }
  destruct Ht as (t & Ht & Hn).
  destruct (X9_trie_has_at_most_two_nodes_per_insert false scenario1 t Ht) as [Hc Hb].
  exists t. split; [exact Ht|]. split; [exact Hc|]. split; [exact Hn|exact Hb].
Defined.

End TrieCorrect.

(** ** The index file, the writers, and bounds *)

Section CodecCorrect.
Import Index TrieSpec Codec.

(** *** The codec *)

Lemma readFull_app (a r : list byte) n :
  n = length a -> readFull n (a ++ r) = Some (a, r).
Proof.
  intros ->. unfold readFull. rewrite length_app.
  destruct (Nat.ltb_spec (length a + length r) (length a)); [lia|].
  rewrite take_app_length, drop_app_length. reflexivity.
Qed.

Lemma length_putLE n z : length (putLE n z) = n.
Proof. revert z. induction n; intros z; cbn; [reflexivity|]. rewrite IHn. reflexivity. Qed.

Lemma getLE_putLE n z : getLE (putLE n z) = z mod 256 ^ Z.of_nat n.
Proof.
  revert z. induction n as [|n IH]; intros z.
  - cbn. rewrite Z.mod_1_r. reflexivity.
  - cbn [putLE getLE]. rewrite IH, byte.unsigned_of_Z. unfold byte.wrap.
    change (2 ^ 8) with 256.
    rewrite Nat2Z.inj_succ, Z.pow_succ_r by lia.
    rewrite Z.rem_mul_r by lia. reflexivity.
Qed.

Lemma readUint_putLE n z r :
  0 <= z < 256 ^ Z.of_nat n -> readUint n (putLE n z ++ r) = Some (z, r).
Proof.
  intros Hz. unfold readUint. rewrite readFull_app by (rewrite length_putLE; reflexivity).
  rewrite getLE_putLE, Z.mod_small by assumption. reflexivity.
Qed.

Lemma readBool_putBool b r : readBool (putBool b ++ r) = Some (b, r).
Proof. destruct b; reflexivity. Qed.

Lemma readBool_cons (b : bool) r :
  readBool ((if b then Byte.x01 else Byte.x00) :: r) = Some (b, r).
Proof. destruct b; reflexivity. Qed.

Lemma length_copyInto n src : length (copyInto n src) = n.
Proof.
  unfold copyInto. rewrite length_take, length_app, length_replicate. lia.
Qed.

Lemma length_prefixField n :
  length (prefixField n) = Z.to_nat (Z.quot (PrefixLen n + 7) 8).
Proof.
  unfold prefixField. rewrite Z.gtb_ltb.
  destruct (Z.ltb_spec 0 (Z.quot (PrefixLen n + 7) 8)); [|cbn; lia].
  destruct (Z.ltb_spec (Z.of_nat (length (Prefix n))) (Z.quot (PrefixLen n + 7) 8)).
  - apply length_copyInto.
  - rewrite length_take. lia.
Qed.

Lemma readData_dataField d r :
  dataOk d = true -> readData (dataField d ++ r) = Some (d, r).
Proof.
  unfold dataOk. intros H. apply andb_prop in H as [Hcc Hlen].
  apply Nat.eqb_eq in Hcc. apply Z.ltb_lt in Hlen.
  unfold readData, dataField. rewrite Hcc. cbn [Nat.leb].
  rewrite firstn_all2 by lia. rewrite <- !app_assoc.
  rewrite readFull_app by (symmetry; exact Hcc).
  unfold putUint16. rewrite readUint_putLE by (cbn; lia).
  rewrite readFull_app by lia.
  rewrite !string_of_list_byte_of_string. destruct d; reflexivity.
Qed.

Lemma deserialize_serialize n :
  forall fuel rest,
    nodeOk n = true ->
    (length (serializeNonNil n) < fuel)%nat ->
    deserializeNode fuel (serializeNonNil n ++ rest) = Some (Some (normNode n), rest).
Proof.
  induction n as [n IH] using TrieNode_ind. intros fuel rest Hok Hfuel.
  destruct n as [p l dat c0 c1].
  cbn [nodeOk PrefixLen Data Child0 Child1] in Hok.
  apply andb_prop in Hok as [Hok Hok1]. apply andb_prop in Hok as [Hok Hok0].
  apply andb_prop in Hok as [Hok Hdat]. apply andb_prop in Hok as [Hl0 Hl1].
  apply Z.leb_le in Hl0. apply Z.ltb_lt in Hl1.
  assert (IH0 : forall c, c0 = Some c -> forall fuel rest, nodeOk c = true ->
                 (length (serializeNonNil c) < fuel)%nat ->
                 deserializeNode fuel (serializeNonNil c ++ rest) = Some (Some (normNode c), rest)).
  { intros c ->. apply (IH 0). reflexivity. }
  assert (IH1 : forall c, c1 = Some c -> forall fuel rest, nodeOk c = true ->
                 (length (serializeNonNil c) < fuel)%nat ->
                 deserializeNode fuel (serializeNonNil c ++ rest) = Some (Some (normNode c), rest)).
  { intros c ->. apply (IH 1). reflexivity. }
  clear IH.
  destruct fuel as [|fuel]; [lia|].
  cbn [serializeNonNil PrefixLen Data Child0 Child1] in *.
  set (node := {| Prefix := p; PrefixLen := l; Data := dat; Child0 := c0; Child1 := c1 |}) in *.
  cbn [deserializeNode].
  change ([uint8 l] ++ ?x) with (putLE 1 l ++ x).
  rewrite <- !app_assoc. rewrite readUint_putLE by (cbn; lia).
  destruct (Z.eqb_spec l 255); [lia|].
  assert (Hpf : (if Z.quot (l + 7) 8 >? 0
                 then readFull (Z.to_nat (Z.quot (l + 7) 8))
                        (prefixField node ++
                         (match dat with Some d => putBool true ++ dataField d | None => putBool false end ++
                          putBool (match c0 with Some _ => true | None => false end) ++
                          putBool (match c1 with Some _ => true | None => false end) ++
                          match c0 with Some c => serializeNonNil c | None => [] end ++
                          match c1 with Some c => serializeNonNil c | None => [] end) ++ rest)
                 else Some ([], prefixField node ++
                         (match dat with Some d => putBool true ++ dataField d | None => putBool false end ++
                          putBool (match c0 with Some _ => true | None => false end) ++
                          putBool (match c1 with Some _ => true | None => false end) ++
                          match c0 with Some c => serializeNonNil c | None => [] end ++
                          match c1 with Some c => serializeNonNil c | None => [] end) ++ rest))
               = Some (prefixField node,
                         (match dat with Some d => putBool true ++ dataField d | None => putBool false end ++
                          putBool (match c0 with Some _ => true | None => false end) ++
                          putBool (match c1 with Some _ => true | None => false end) ++
                          match c0 with Some c => serializeNonNil c | None => [] end ++
                          match c1 with Some c => serializeNonNil c | None => [] end) ++ rest)).
  { rewrite Z.gtb_ltb. destruct (Z.ltb_spec 0 (Z.quot (l + 7) 8)) as [Hpb|Hpb].
    - apply readFull_app. rewrite length_prefixField. reflexivity.
    - assert (E : prefixField node = []).
      { apply nil_length_inv. rewrite length_prefixField. cbn [node PrefixLen]. lia. }
      rewrite E. reflexivity. }
  rewrite <- !app_assoc in Hpf. rewrite Hpf. clear Hpf.
  assert (Hdata : forall tail,
             match readBool (match dat with Some d => putBool true ++ dataField d | None => putBool false end ++ tail) with
             | Some (hasData, r) =>
                 (if hasData
                  then match readData r with Some (d, r) => Some (Some d, r) | None => None end
                  else Some (None, r))
             | None => None
             end = Some (dat, tail)).
  { intros tail. destruct dat as [d|].
    - rewrite <- app_assoc, readBool_putBool, readData_dataField by assumption. reflexivity.
    - rewrite readBool_putBool. reflexivity. }
  specialize (Hdata (putBool (match c0 with Some _ => true | None => false end) ++
                     putBool (match c1 with Some _ => true | None => false end) ++
                     match c0 with Some c => serializeNonNil c | None => [] end ++
                     match c1 with Some c => serializeNonNil c | None => [] end ++ rest)).
  destruct (readBool _) as [[hasData r1]|] eqn:Hrb in Hdata; [|discriminate].
  rewrite Hrb.
  destruct (if hasData then _ else _) as [[data' r2]|] eqn:Hrd in Hdata; [|discriminate].
  rewrite Hrd. injection Hdata as -> ->.
  rewrite !readBool_cons.
  rewrite !length_app in Hfuel.
  destruct c0 as [c0|], c1 as [c1|]; cbn [app length] in *.
  - rewrite (IH0 c0 eq_refl) by (auto; lia).
    rewrite (IH1 c1 eq_refl) by (auto; lia). reflexivity.
  - rewrite (IH0 c0 eq_refl) by (auto; rewrite ?length_app in *; cbn [length] in *; lia). reflexivity.
  - rewrite (IH1 c1 eq_refl) by (auto; lia). reflexivity.
  - reflexivity.
Qed.

Lemma getBit_byteAt' data pos :
  0 <= pos ->
  getBit data pos = Z.b2z (Z.testbit (byteAt data (pos / 8)) (7 - pos mod 8)).
Proof.
  intros Hpos. rewrite getBit_testbit by assumption.
  destruct (Z.ltb_spec (pos / 8) (Z.of_nat (length data))) as [|Hge]; [reflexivity|].
  unfold byteAt. rewrite (proj2 (lookup_ge_None data (Z.to_nat (pos / 8)))) by lia.
  cbn. change (byte.unsigned Byte.x00) with 0. rewrite Z.testbit_0_l. reflexivity.
Qed.

Lemma byteAt_prefixField n q :
  0 <= q < Z.quot (PrefixLen n + 7) 8 -> byteAt (prefixField n) q = byteAt (Prefix n) q.
Proof.
  intros Hq. unfold byteAt, prefixField. rewrite Z.gtb_ltb.
  destruct (Z.ltb_spec 0 (Z.quot (PrefixLen n + 7) 8)); [|lia].
  destruct (Z.ltb_spec (Z.of_nat (length (Prefix n))) (Z.quot (PrefixLen n + 7) 8)).
  - unfold copyInto. rewrite lookup_take_lt by lia.
    destruct (Nat.lt_ge_cases (Z.to_nat q) (length (Prefix n))).
    + rewrite lookup_app_l by assumption. reflexivity.
    + rewrite lookup_app_r by assumption.
      rewrite lookup_replicate_2 by lia.
      rewrite (proj2 (lookup_ge_None (Prefix n) (Z.to_nat q))) by lia. reflexivity.
  - rewrite lookup_take_lt by lia. reflexivity.
Qed.

Lemma getBit_prefixField n i :
  0 <= i < PrefixLen n -> getBit (prefixField n) i = getBit (Prefix n) i.
Proof.
  intros Hi. rewrite !getBit_byteAt' by lia. rewrite byteAt_prefixField; [reflexivity|].
  rewrite Z.quot_div_nonneg by lia. split; [apply Z.div_pos; lia|].
  apply Z.div_lt_upper_bound; [lia|].
  pose proof (Z.div_mod (PrefixLen n + 7) 8 ltac:(lia)).
  pose proof (Z.mod_pos_bound (PrefixLen n + 7) 8 ltac:(lia)). lia.
Qed.

Lemma matchLoop_ext bits cp cp' pos childLen cpl n i :
  0 <= i ->
  (forall j, i <= j -> j < cpl -> getBit cp j = getBit cp' j) ->
  matchLoop bits cp pos childLen cpl n i = matchLoop bits cp' pos childLen cpl n i.
Proof.
  intros Hi Hext. apply eq_true_iff_eq. rewrite !matchLoop_spec.
  split; intros H j ? ? ? ?; [rewrite <- Hext by lia|rewrite Hext by lia]; apply H; lia.
Qed.

Lemma lookupLoop_eq node bits pos maxBits lastMatch :
  lookupLoop node bits pos maxBits lastMatch =
    let lastMatch := match Data node with Some d => Some d | None => lastMatch end in
    if pos >=? maxBits then lastMatch
    else
      match Children node (getBit bits pos) with
      | None => lastMatch
      | Some child =>
          let childLen :=
            if pos + PrefixLen child >? maxBits then maxBits - pos else PrefixLen child in
          if negb (matchLoop bits (Prefix child) pos childLen (PrefixLen child)
                             (Z.to_nat childLen) 0)
          then lastMatch
          else lookupLoop child bits (pos + PrefixLen child) maxBits lastMatch
      end.
Proof. destruct node; reflexivity. Qed.

Lemma Children_normNode n b :
  Children (normNode n) b =
  match Children n b with Some c => Some (normNode c) | None => None end.
Proof. destruct n. unfold Children. cbn. destruct (b =? 0); reflexivity. Qed.

Lemma lookupLoop_normNode bits maxBits n :
  forall pos last,
    lookupLoop (normNode n) bits pos maxBits last = lookupLoop n bits pos maxBits last.
Proof.
  induction n as [n IH] using TrieNode_ind. intros pos last.
  rewrite (lookupLoop_eq (normNode n)), (lookupLoop_eq n). cbv zeta.
  replace (Data (normNode n)) with (Data n) by (destruct n; reflexivity).
  destruct (pos >=? maxBits); [reflexivity|].
  rewrite Children_normNode.
  destruct (Children n (getBit bits pos)) as [c|] eqn:Hc; [|reflexivity].
  replace (PrefixLen (normNode c)) with (PrefixLen c) by (destruct c; reflexivity).
  replace (Prefix (normNode c)) with (prefixField c) by (destruct c; reflexivity).
  rewrite (matchLoop_ext bits (prefixField c) (Prefix c)).
  - destruct (negb _); [reflexivity|]. apply (IH _ _ Hc).
  - lia.
  - intros j ? ?. apply getBit_prefixField. lia.
Qed.

Lemma Lookup_normalised t ip :
  Lookup {| Root := match Root t with Some r => Some (normNode r) | None => None end;
            IsIPv6 := IsIPv6 t; Count := Count t |} ip = Lookup t ip.
Proof.
  unfold Lookup. cbn [Root IsIPv6]. destruct (negb _); [reflexivity|].
  destruct (Root t) as [r|]; [|reflexivity]. apply lookupLoop_normNode.
Qed.

Lemma readHeader_putHeader h rest :
  length (HMagic h) = 8%nat ->
  0 <= Version h < 2 ^ 32 -> 0 <= Flags h < 2 ^ 32 ->
  0 <= IPv4Offset h < 2 ^ 64 -> 0 <= IPv6Offset h < 2 ^ 64 ->
  readHeader (putHeader h ++ rest) = Some (h, rest).
Proof.
  intros Hm Hv Hf H4 H6. unfold readHeader, putHeader, putUint32, putUint64.
  rewrite <- !app_assoc.
  assert (Hc : copyInto 8 (HMagic h) = HMagic h).
  { unfold copyInto. apply take_app_length'. symmetry. assumption. }
  rewrite Hc, readFull_app by (symmetry; assumption).
  rewrite !readUint_putLE by (cbn; lia). destruct h; reflexivity.
Qed.

Lemma loadTrie_saveTrie t v6 v6' :
  trieOk t = true ->
  loadTrieBytes (saveTrieBytes t v6) v6' =
  Ok {| Root := match Root t with Some r => Some (normNode r) | None => None end;
        IsIPv6 := v6'; Count := Count t |}.
Proof.
  unfold trieOk. intros H. apply andb_prop in H as [H Hc1]. apply andb_prop in H as [Hr Hc0].
  apply Z.leb_le in Hc0. apply Z.ltb_lt in Hc1.
  unfold loadTrieBytes, saveTrieBytes. rewrite <- ?app_assoc.
  rewrite readHeader_putHeader;
    [|reflexivity|cbn; unfold IndexFormatVersion; lia
     |cbn; unfold FlagHasIPv6, FlagHasIPv4; destruct v6; lia|cbn; lia|cbn; lia].
  cbn [HMagic Version]. rewrite string_of_list_byte_of_string, String.eqb_refl, Z.eqb_refl.
  cbn [negb NewTrie IsIPv6].
  destruct (Root t) as [r|]; cbn [serializeNode].
  - rewrite deserialize_serialize; [|assumption|rewrite length_app; lia].
    unfold putUint32. replace (putLE 4 (Count t)) with (putLE 4 (Count t) ++ []) by apply app_nil_r.
    rewrite readUint_putLE by (cbn; lia). reflexivity.
  - cbn [deserializeNode app].
    change (readUint 1 (byte.of_Z 255 :: ?x)) with (Some (255, x)). cbn [Z.eqb Pos.eqb].
    unfold putUint32. replace (putLE 4 (Count t)) with (putLE 4 (Count t) ++ []) by apply app_nil_r.
    rewrite readUint_putLE by (cbn; lia). reflexivity.
Qed.

(** C3 (as stated): refuted by a record whose country code is not two
    bytes long; the record found for 8.8.8.8 is USA before the round trip
    and US after it. *)
Lemma C3_roundtrip_counterexample :
  exists t t',
    @InsertCIDR ipv4Only (NewTrie false) "8.8.8.0/24" "usa" = Ok t /\
    loadTrieBytes (saveTrieBytes t false) false = Ok t' /\
    Lookup t (ip4 8 8 8 8) = Some (mkPrefixData "USA" "8.8.8.0/24") /\
    Lookup t' (ip4 8 8 8 8) = Some (mkPrefixData "US" "8.8.8.0/24") /\
    Lookup t' (ip4 8 8 8 8) <> Lookup t (ip4 8 8 8 8).
Proof.
  eexists. eexists. split; [vm_compute; reflexivity|].
  split; [vm_compute; reflexivity|].
  split; [vm_compute; reflexivity|].
  split; [vm_compute; reflexivity|].
  vm_compute. discriminate.
Qed.

(** C3 (amended): for every trie that fits the file format ([trieOk]: edge
    lengths between 0 and 254, country codes of exactly two bytes, CIDR
    texts shorter than 65536 bytes, a count below 2^32), loading the bytes
    that [saveTrie] writes succeeds and gives a trie of the same family
    with the same count and the same [Lookup] result at every address. *)
Theorem C3_roundtrip_preserves_count_and_lookup (t : Trie) :
  trieOk t = true ->
  exists t',
    loadTrieBytes (saveTrieBytes t (IsIPv6 t)) (IsIPv6 t) = Ok t' /\
    Count t' = Count t /\ IsIPv6 t' = IsIPv6 t /\
    forall ip, Lookup t' ip = Lookup t ip.
Proof.
  intros Hok. eexists. split; [apply loadTrie_saveTrie; exact Hok|].
  split; [reflexivity|]. split; [reflexivity|]. intros ip. apply Lookup_normalised.
Qed.

(** The round trip of the trie of the test scenario. *)
Lemma C3_witness :
  exists t t',
    insertAll (NewTrie false) scenario1 = Ok t /\
    loadTrieBytes (saveTrieBytes t false) false = Ok t' /\
    Count t' = 3 /\
    Lookup t' (ip4 8 8 8 8) = Some (mkPrefixData "US" "8.8.8.0/24").
Proof.
  assert (Ht : exists t, insertAll (NewTrie false) scenario1 = Ok t /\ trieOk t = true /\
                         IsIPv6 t = false /\ Count t = 3 /\
                         Lookup t (ip4 8 8 8 8) = Some (mkPrefixData "US" "8.8.8.0/24")).
  { eexists. split; [vm_compute; reflexivity|]. repeat split; vm_compute; reflexivity. }
  destruct Ht as (t & Ht & Hok & Hfam & Hcnt & Hlk0).
  destruct (C3_roundtrip_preserves_count_and_lookup t Hok) as (t' & Hl & Hc & _ & Hlk).
  exists t, t'. split; [exact Ht|]. rewrite Hfam in Hl. split; [exact Hl|].
  split; [rewrite Hc; exact Hcnt|]. rewrite Hlk. exact Hlk0.
Defined.

(** *** Tries built by inserts can be serialized *)









(** *** The fuel of [deserializeNode] is never exhausted *)

Lemma readFull_length n r a r' :
  readFull n r = Some (a, r') -> (length r' + n = length r)%nat.
Proof.
  unfold readFull. destruct (Nat.ltb_spec (length r) n); [discriminate|].
  intros [= <- <-]. rewrite length_drop. lia.
Qed.

Lemma readUint_length n r z r' :
  readUint n r = Some (z, r') -> (length r' + n = length r)%nat.
Proof.
  unfold readUint. destruct (readFull n r) as [[a r0]|] eqn:E; [|discriminate].
  intros [= <- <-]. eapply readFull_length; eauto.
Qed.

Lemma readBool_length r b r' :
  readBool r = Some (b, r') -> (length r' + 1 = length r)%nat.
Proof.
  unfold readBool. destruct (readFull 1 r) as [[a r0]|] eqn:E; [|discriminate].
  intros [= <- <-]. eapply readFull_length; eauto.
Qed.

Lemma readData_length r d r' :
  readData r = Some (d, r') -> (length r' <= length r)%nat.
Proof.
  unfold readData.
  destruct (readFull 2 r) as [[a r0]|] eqn:E0; [|discriminate].
  destruct (readUint 2 r0) as [[z r1]|] eqn:E1; [|discriminate].
  destruct (readFull (Z.to_nat z) r1) as [[s r2]|] eqn:E2; [|discriminate].
  intros [= <- <-].
  apply readFull_length in E0, E2. apply readUint_length in E1. lia.
Qed.

Ltac read_step :=
  match goal with
  | H : context [match readUint ?n ?r with _ => _ end] |- _ =>
      let E := fresh "E" in
      destruct (readUint n r) as [[? ?]|] eqn:E; [apply readUint_length in E|discriminate]
  | H : context [match readBool ?r with _ => _ end] |- _ =>
      let E := fresh "E" in
      destruct (readBool r) as [[? ?]|] eqn:E; [apply readBool_length in E|discriminate]
  end.

Lemma deserializeNode_rest fuel :
  forall r n r', deserializeNode fuel r = Some (n, r') -> (length r' < length r)%nat.
Proof.
  induction fuel as [|fuel IH]; intros r n r' H; [discriminate|].
  cbn [deserializeNode] in H.
  read_step. destruct (_ =? 255); [injection H as <- <-; lia|].
  destruct (if _ >? 0 then _ else _) as [[pfx r1]|] eqn:Ep; [|discriminate].
  assert (length r1 <= length l)%nat.
  { destruct (_ >? 0); [apply readFull_length in Ep; lia|injection Ep as <- <-; lia]. }
  read_step.
  destruct (if b then _ else _) as [[dat r2]|] eqn:Ed; [|discriminate].
  assert (length r2 <= length l0)%nat.
  { destruct b; [|injection Ed as <- <-; lia].
    destruct (readData l0) as [[d r3]|] eqn:Erd; [|discriminate].
    injection Ed as <- <-. eapply readData_length; eauto. }
  read_step. read_step.
  destruct (if b0 then _ else _) as [[lc r3]|] eqn:El; [|discriminate].
  assert (length r3 <= length l2)%nat.
  { destruct b0; [apply IH in El; lia|injection El as <- <-; lia]. }
  destruct (if b1 then _ else _) as [[rc r4]|] eqn:Er; [|discriminate].
  assert (length r4 <= length r3)%nat.
  { destruct b1; [apply IH in Er; lia|injection Er as <- <-; lia]. }
  injection H as <- <-. lia.
Qed.

Lemma deserializeNode_fuel fuel :
  forall fuel' r,
    (length r < fuel)%nat -> (length r < fuel')%nat ->
    deserializeNode fuel r = deserializeNode fuel' r.
Proof.
  induction fuel as [|fuel IH]; intros fuel' r Hf Hf'; [lia|].
  destruct fuel' as [|fuel']; [lia|].
  cbn [deserializeNode].
  destruct (readUint 1 r) as [[len r0]|] eqn:E0; [|reflexivity]. apply readUint_length in E0.
  destruct (len =? 255); [reflexivity|].
  destruct (if _ >? 0 then _ else _) as [[pfx r1]|] eqn:Ep; [|reflexivity].
  assert (length r1 <= length r0)%nat.
  { destruct (_ >? 0); [apply readFull_length in Ep; lia|injection Ep as <- <-; lia]. }
  destruct (readBool r1) as [[hasData r2]|] eqn:E1; [|reflexivity]. apply readBool_length in E1.
  destruct (if hasData then _ else _) as [[dat r3]|] eqn:Ed; [|reflexivity].
  assert (length r3 <= length r2)%nat.
  { destruct hasData; [|injection Ed as <- <-; lia].
    destruct (readData r2) as [[d r4]|] eqn:Erd; [|discriminate].
    injection Ed as <- <-. eapply readData_length; eauto. }
  destruct (readBool r3) as [[hasLeft r4]|] eqn:E2; [|reflexivity]. apply readBool_length in E2.
  destruct (readBool r4) as [[hasRight r5]|] eqn:E3; [|reflexivity]. apply readBool_length in E3.
  assert (Hl : (if hasLeft then deserializeNode fuel r5 else Some (None, r5)) =
               (if hasLeft then deserializeNode fuel' r5 else Some (None, r5))).
  { destruct hasLeft; [apply IH; lia|reflexivity]. }
  rewrite <- Hl.
  destruct (if hasLeft then _ else _) as [[lc r6]|] eqn:El; [|reflexivity].
  assert (length r6 <= length r5)%nat.
  { destruct hasLeft; [apply deserializeNode_rest in El; lia|injection El as <- <-; lia]. }
  assert (Hr : (if hasRight then deserializeNode fuel r6 else Some (None, r6)) =
               (if hasRight then deserializeNode fuel' r6 else Some (None, r6))).
  { destruct hasRight; [apply IH; lia|reflexivity]. }
  rewrite <- Hr. reflexivity.
Qed.

(** *** loadTrie and the flags of the header *)

Lemma readHeader_split (pre flags rest : list byte) :
  length pre = 12%nat -> length flags = 4%nat ->
  readHeader (pre ++ flags ++ rest) =
  match readUint 8 rest with
  | None => None
  | Some (o4, r) =>
      match readUint 8 r with
      | None => None
      | Some (o6, r') =>
          Some ({| HMagic := take 8 pre; Version := getLE (drop 8 pre);
                   Flags := getLE flags; IPv4Offset := o4; IPv6Offset := o6 |}, r')
      end
  end.
Proof.
  intros Hp Hf. unfold readHeader.
  rewrite <- (take_drop 8 pre) at 1. rewrite <- app_assoc.
  rewrite readFull_app by (rewrite length_take; lia).
  unfold readUint at 1. rewrite readFull_app by (rewrite length_drop; lia).
  unfold readUint at 1. rewrite readFull_app by lia.
  reflexivity.
Qed.

(** C4 (as stated): refuted by an index written with the v6 flag and
    loaded as a v4 index. *)
Lemma C4_family_flag_counterexample :
  take 4 (drop 12 (saveTrieBytes (NewTrie true) true)) = putUint32 FlagHasIPv6 /\
  loadTrieBytes (saveTrieBytes (NewTrie true) true) false =
    Ok {| Root := Some emptyNode; IsIPv6 := false; Count := 0 |}.
Proof. split; vm_compute; reflexivity. Qed.

(** C4 (amended): [loadTrie] validates the magic and the version of the
    header and nothing else; what it returns does not depend on the four
    bytes of the flags field, it never fails with a family mismatch, and
    when it succeeds the magic and the version are the expected ones and
    the trie has the family the caller asked for. *)
Theorem C4_load_validates_magic_and_version_only
        (pre flags flags' rest : list byte) (isIPv6 : bool) :
  length pre = 12%nat -> length flags = 4%nat -> length flags' = 4%nat ->
  loadTrieBytes (pre ++ flags' ++ rest) isIPv6 = loadTrieBytes (pre ++ flags ++ rest) isIPv6 /\
  loadTrieBytes (pre ++ flags ++ rest) isIPv6 <> Err ErrVersionMismatch /\
  forall t, loadTrieBytes (pre ++ flags ++ rest) isIPv6 = Ok t ->
            string_of_list_byte (take 8 pre) = Magic /\
            getLE (drop 8 pre) = IndexFormatVersion /\
            IsIPv6 t = isIPv6.
Proof.
  intros Hp Hf Hf'. unfold loadTrieBytes.
  rewrite !readHeader_split by assumption.
  destruct (readUint 8 rest) as [[o4 r]|]; [|repeat split; discriminate].
  destruct (readUint 8 r) as [[o6 r']|]; [|repeat split; discriminate].
  cbn [HMagic Version].
  destruct (String.eqb_spec (string_of_list_byte (take 8 pre)) Magic) as [Hm|];
    cbn [negb]; [|repeat split; discriminate].
  destruct (Z.eqb_spec (getLE (drop 8 pre)) IndexFormatVersion) as [Hv|];
    cbn [negb]; [|repeat split; discriminate].
  destruct (deserializeNode (S (length r')) r') as [[root r'']|]; [|repeat split; discriminate].
  destruct (readUint 4 r'') as [[count ?]|]; [|repeat split; discriminate].
  split; [reflexivity|]. split; [discriminate|].
  intros t [= <-]. auto.
Qed.

(** The empty IPv6 index loads as an IPv4 index the same with either
    flag. *)
Lemma C4_witness :
  loadTrieBytes (saveTrieBytes (NewTrie true) false) false =
  loadTrieBytes (saveTrieBytes (NewTrie true) true) false.
Proof.
  exact (proj1 (C4_load_validates_magic_and_version_only
                  (take 12 (saveTrieBytes (NewTrie true) true))
                  (putUint32 FlagHasIPv6) (putUint32 FlagHasIPv4)
                  (drop 16 (saveTrieBytes (NewTrie true) true)) false
                  eq_refl eq_refl eq_refl)).
Defined.

(** *** Writers write in place *)

Lemma createAndWrite_inPlace fs path data f :
  OS.inPlace fs path data f (OS.createAndWrite fs path data f).
Proof.
  unfold OS.inPlace, OS.createAndWrite.
  destruct f as [| |n]; cbn [fst snd].
  - split; [|split; [reflexivity|]].
    + intros p Hp. cbn. apply lookup_insert_ne. congruence.
    + split; [apply lookup_insert_eq|reflexivity].
  - repeat split.
  - destruct (n <? length data)%nat; cbn [fst snd].
    + split; [|split; [reflexivity|]].
      * intros p Hp. cbn. apply lookup_insert_ne. congruence.
      * split; [apply lookup_insert_eq|reflexivity].
    + split; [|split; [reflexivity|]].
      * intros p Hp. cbn. apply lookup_insert_ne. congruence.
      * split; [apply lookup_insert_eq|reflexivity].
Qed.

(** C5 (as stated): refuted by a write that fails after ten bytes. *)
Lemma C5_partial_write_counterexample :
  exists t,
    insertAll (NewTrie false) scenario1 = Ok t /\
    let path := "/cache/snapshots/2025-01-15/index_v4.bin"%string in
    let fs := OS.setFile OS.emptyFS path (saveTrieBytes (NewTrie false) false) in
    let out := IndexFile.saveTrie fs path t false (OS.WriteFailsAfter 10) in
    snd out = Some ErrIO /\
    OS.files (fst out) !! path = Some (take 10 (saveTrieBytes t false)) /\
    OS.files (fst out) !! path <> OS.files fs !! path.
Proof.
  eexists. split; [vm_compute; reflexivity|]. cbv zeta.
  unfold IndexFile.saveTrie, OS.createAndWrite.
  destruct (10 <? length _)%nat eqn:E; [clear E|vm_compute in E; discriminate].
  cbn [fst snd OS.setFile OS.files]. rewrite !lookup_insert_eq.
  split; [reflexivity|]. split; [reflexivity|].
  intros E.
  assert (E' := f_equal (fun o : option (list byte) =>
                           match o with Some l => length l | None => 0%nat end) E).
  vm_compute in E'. discriminate.
Qed.

(** C5 (amended): [saveTrie] and [Metadata.Save] create or truncate the
    destination and write to it in place: no other path and no link
    changes; when the file cannot be opened nothing changes and the call
    fails; when a write fails part-way the destination holds the bytes
    written so far, a proper prefix of the new contents, and the call
    fails; otherwise the destination holds the new contents. *)
Theorem C5_writers_write_in_place `{Snapshot.MetadataJSON}
        (fs : OS.FS) (path : string) (trie : Trie) (isIPv6 : bool)
        (meta : Snapshot.Metadata) (f : OS.fault) :
  OS.inPlace fs path (saveTrieBytes trie isIPv6) f (IndexFile.saveTrie fs path trie isIPv6 f) /\
  OS.inPlace fs path (Snapshot.marshalIndent meta) f (Snapshot.Save meta fs path f).
Proof. split; apply createAndWrite_inPlace. Qed.

(** *** No operation of the trie indexes out of bounds *)

Lemma index_in_range data i :
  0 <= i < Z.of_nat (length data) ->
  Checked.index data i = Some (default Byte.x00 (data !! Z.to_nat i)).
Proof.
  intros Hi. unfold Checked.index.
  destruct (Z.ltb_spec i 0); [lia|]. rewrite Z.geb_leb.
  destruct (Z.leb_spec (Z.of_nat (length data)) i); [lia|]. cbn [orb].
  destruct (data !! Z.to_nat i) eqn:E; [reflexivity|].
  apply lookup_ge_None in E. lia.
Qed.

Lemma quot_rem_nonneg pos : 0 <= pos -> 0 <= Z.quot pos 8 /\ 0 <= Z.rem pos 8 < 8.
Proof.
  intros H. rewrite Z.quot_div_nonneg, Z.rem_mod_nonneg by lia.
  split; [apply Z.div_pos; lia|apply Z.mod_pos_bound; lia].
Qed.

Lemma getBit_checked data pos :
  0 <= pos -> Checked.getBit data pos = Some (getBit data pos).
Proof.
  intros Hpos. destruct (quot_rem_nonneg pos Hpos) as [Hq Hr].
  unfold Checked.getBit, getBit. rewrite Z.geb_leb.
  destruct (Z.leb_spec (Z.of_nat (length data)) (Z.quot pos 8)); [reflexivity|].
  rewrite index_in_range by lia.
  destruct (Z.ltb_spec (7 - Z.rem pos 8) 0); [lia|reflexivity].
Qed.

Lemma orBit_checked result i :
  0 <= i -> i / 8 < Z.of_nat (length result) ->
  Checked.orBit result i = Some (orBit result i).
Proof.
  intros Hi Hlen. destruct (quot_rem_nonneg i Hi) as [Hq Hr].
  unfold Checked.orBit, orBit.
  pose proof (Z.quot_div_nonneg i 8 ltac:(lia) ltac:(lia)) as Eq.
  rewrite index_in_range by lia.
  destruct (Z.ltb_spec (7 - Z.rem i 8) 0); [lia|reflexivity].
Qed.

Lemma extractLoop_checked data start n :
  forall i result,
    0 <= start -> 0 <= i -> i + Z.of_nat n <= 8 * Z.of_nat (length result) ->
    Checked.extractLoop data start n i result = Some (extractLoop data start n i result).
Proof.
  induction n as [|n IH]; intros i result Hs Hi Hlen; [reflexivity|].
  cbn [Checked.extractLoop extractLoop].
  rewrite getBit_checked by lia.
  assert (Hdiv : i / 8 < Z.of_nat (length result)) by (apply Z.div_lt_upper_bound; lia).
  destruct (getBit data (start + i) =? 1).
  - rewrite orBit_checked by lia. apply IH; try lia. rewrite length_orBit. lia.
  - apply IH; lia.
Qed.

Lemma extractBits_checked data start len :
  0 <= start -> Checked.extractBits data start len = Some (extractBits data start len).
Proof.
  intros Hs. unfold Checked.extractBits, extractBits.
  destruct (Z.leb_spec len 0); [reflexivity|].
  apply extractLoop_checked; try lia.
  rewrite length_replicate, Z.quot_div_nonneg by lia.
  assert (0 <= (len + 7) / 8) by (apply Z.div_pos; lia).
  pose proof (Z.div_mod (len + 7) 8 ltac:(lia)).
  pose proof (Z.mod_pos_bound (len + 7) 8 ltac:(lia)). lia.
Qed.

Lemma commonLoop_checked bits cb pos n :
  forall i, 0 <= pos -> 0 <= i ->
    Checked.commonLoop bits cb pos n i = Some (commonLoop bits cb pos n i).
Proof.
  induction n as [|n IH]; intros i Hp Hi; [reflexivity|].
  cbn [Checked.commonLoop commonLoop]. unfold getBitFromSlice.
  rewrite !getBit_checked by lia.
  destruct (negb _); [reflexivity|]. apply IH; lia.
Qed.

Lemma matchLoop_checked bits cp pos childLen cpl n :
  forall i, 0 <= pos -> 0 <= i ->
    Checked.matchLoop bits cp pos childLen cpl n i =
    Some (matchLoop bits cp pos childLen cpl n i).
Proof.
  induction n as [|n IH]; intros i Hp Hi; [reflexivity|].
  cbn [Checked.matchLoop matchLoop]. unfold getBitFromSlice.
  destruct ((i <? childLen) && (i <? cpl)); [|reflexivity].
  rewrite !getBit_checked by lia.
  destruct (negb _); [reflexivity|]. apply IH; lia.
Qed.

Lemma inRange2_getBit data pos : Checked.inRange2 (getBit data pos) = true.
Proof. unfold Checked.inRange2. destruct (getBit_01 data pos) as [-> | ->]; reflexivity. Qed.

Lemma Checked_insertRecursive_eq node bits pos prefixLen data :
  Checked.insertRecursive node bits pos prefixLen data =
    if pos =? prefixLen then Some (setData node (Some data))
    else
      match Checked.getBit bits pos with
      | None => None
      | Some bit =>
          if negb (Checked.inRange2 bit) then None else
          match Children node bit with
          | None =>
              match Checked.extractBits bits pos (prefixLen - pos) with
              | None => None
              | Some p => Some (setChild node bit (Some (leaf p (prefixLen - pos) data)))
              end
          | Some child =>
              let childBits := Prefix child in
              let childLen := PrefixLen child in
              let remainingLen := prefixLen - pos in
              let maxCheck := min remainingLen childLen in
              match Checked.commonLoop bits childBits pos (Z.to_nat maxCheck) 0 with
              | None => None
              | Some commonLen =>
                  if commonLen =? childLen then
                    if commonLen =? remainingLen then
                      Some (setChild node bit (Some (setData child (Some data))))
                    else
                      match Checked.insertRecursive child bits (pos + childLen) prefixLen data with
                      | None => None
                      | Some child' => Some (setChild node bit (Some child'))
                      end
                  else
                    match Checked.extractBits bits pos commonLen,
                          Checked.getBit childBits commonLen,
                          Checked.extractBits childBits commonLen (childLen - commonLen) with
                    | Some pp, Some oldChildBit, Some cp =>
                        let newParent :=
                          {| Prefix := pp; PrefixLen := commonLen;
                             Data := None; Child0 := None; Child1 := None |} in
                        let child := setEdge child cp (childLen - commonLen) in
                        if negb (Checked.inRange2 oldChildBit) then None
                        else
                            let newParent := setChild newParent oldChildBit (Some child) in
                            if commonLen =? remainingLen then
                              Some (setChild node bit (Some (setData newParent (Some data))))
                            else
                              match Checked.getBit bits (pos + commonLen),
                                    Checked.extractBits bits (pos + commonLen)
                                                (remainingLen - commonLen) with
                              | Some newLeafBit, Some lp =>
                                  if negb (Checked.inRange2 newLeafBit) then None
                                  else
                                    let newLeaf := leaf lp (remainingLen - commonLen) data in
                                    Some (setChild node bit
                                            (Some (setChild newParent newLeafBit
                                                            (Some newLeaf))))
                              | _, _ => None
                              end
                    | _, _, _ => None
                    end
              end
          end
      end.
Proof. destruct node; reflexivity. Qed.

Lemma insertRecursive_checked bits prefixLen data node :
  forall pos, 0 <= pos ->
    Checked.insertRecursive node bits pos prefixLen data =
    Some (insertRecursive node bits pos prefixLen data).
Proof.
  induction node as [node IH] using TrieNode_ind. intros pos Hpos.
  rewrite Checked_insertRecursive_eq, insertRecursive_eq. cbv zeta.
  destruct (pos =? prefixLen); [reflexivity|].
  rewrite getBit_checked, inRange2_getBit by lia. cbn [negb].
  destruct (Children node (getBit bits pos)) as [c|] eqn:Hc.
  2: { rewrite extractBits_checked by lia. reflexivity. }
  rewrite commonLoop_checked by lia.
  pose proof (commonLoop_spec bits (Prefix c) pos
                (Z.to_nat (min (prefixLen - pos) (PrefixLen c))) 0) as HL.
  cbv zeta in HL. destruct HL as [[HL0 _] _].
  set (L := commonLoop bits (Prefix c) pos (Z.to_nat (min (prefixLen - pos) (PrefixLen c))) 0) in *.
  destruct (Z.eqb_spec L (PrefixLen c)) as [E|NE].
  - destruct (L =? prefixLen - pos); [reflexivity|].
    rewrite (IH _ _ Hc) by lia. reflexivity.
  - unfold getBitFromSlice, extractBitsFromSlice.
    rewrite !extractBits_checked, !getBit_checked, !inRange2_getBit by lia. cbn [negb].
    destruct (L =? prefixLen - pos); [reflexivity|].
    rewrite ?extractBits_checked by lia. reflexivity.
Qed.

Lemma Checked_lookupLoop_eq node bits pos maxBits lastMatch :
  Checked.lookupLoop node bits pos maxBits lastMatch =
    let lastMatch := match Data node with Some d => Some d | None => lastMatch end in
    if pos >=? maxBits then Some lastMatch
    else
      match Checked.getBit bits pos with
      | None => None
      | Some bit =>
          if negb (Checked.inRange2 bit) then None else
          match Children node bit with
          | None => Some lastMatch
          | Some child =>
              let childLen :=
                if pos + PrefixLen child >? maxBits then maxBits - pos else PrefixLen child in
              match Checked.matchLoop bits (Prefix child) pos childLen (PrefixLen child)
                              (Z.to_nat childLen) 0 with
              | None => None
              | Some matches =>
                  if negb matches then Some lastMatch
                  else Checked.lookupLoop child bits (pos + PrefixLen child) maxBits lastMatch
              end
          end
      end.
Proof. destruct node; reflexivity. Qed.

Lemma nonnegLens_children n b c :
  Checked.nonnegLens n = true -> Children n b = Some c ->
  0 <= PrefixLen c /\ Checked.nonnegLens c = true.
Proof.
  destruct n as [p l d c0 c1]. cbn [Checked.nonnegLens Child0 Child1]. unfold Children.
  cbn [Child0 Child1]. intros H. apply andb_prop in H as [H0 H1].
  destruct (b =? 0); intros ->; [apply andb_prop in H0 as [Ha Hb]|apply andb_prop in H1 as [Ha Hb]];
    apply Z.leb_le in Ha; auto.
Qed.

Lemma lookupLoop_checked bits maxBits node :
  forall pos last, 0 <= pos -> Checked.nonnegLens node = true ->
    Checked.lookupLoop node bits pos maxBits last =
    Some (lookupLoop node bits pos maxBits last).
Proof.
  induction node as [node IH] using TrieNode_ind. intros pos last Hpos Hnn.
  rewrite Checked_lookupLoop_eq, lookupLoop_eq. cbv zeta.
  destruct (pos >=? maxBits); [reflexivity|].
  rewrite getBit_checked, inRange2_getBit by lia. cbn [negb].
  destruct (Children node (getBit bits pos)) as [c|] eqn:Hc; [|reflexivity].
  destruct (nonnegLens_children _ _ _ Hnn Hc) as [Hl Hnc].
  rewrite matchLoop_checked by lia.
  destruct (negb _); [reflexivity|]. apply (IH _ _ Hc); [lia|assumption].
Qed.

(** Every trie read from a file has edge lengths between 0 and 254. *)
Lemma deserializeNode_nonneg fuel :
  forall r n r', deserializeNode fuel r = Some (Some n, r') ->
                 0 <= PrefixLen n /\ Checked.nonnegLens n = true.
Proof.
  induction fuel as [|fuel IH]; intros r n r' H; [discriminate|].
  cbn [deserializeNode] in H.
  destruct (readUint 1 r) as [[len r0]|] eqn:E0; [|discriminate].
  assert (Hlen : 0 <= len).
  { unfold readUint, readFull in E0. destruct (_ <? 1)%nat; [discriminate|].
    injection E0 as <- _. destruct r as [|b r]; cbn; [lia|].
    destruct r; cbn; pose proof (byte.unsigned_range b); lia. }
  destruct (len =? 255); [discriminate|].
  destruct (if _ >? 0 then _ else _) as [[pfx r1]|]; [|discriminate].
  destruct (readBool r1) as [[hasData r2]|]; [|discriminate].
  destruct (if hasData then _ else _) as [[dat r3]|]; [|discriminate].
  destruct (readBool r3) as [[hasLeft r4]|]; [|discriminate].
  destruct (readBool r4) as [[hasRight r5]|]; [|discriminate].
  destruct (if hasLeft then _ else _) as [[lc r6]|] eqn:El; [|discriminate].
  destruct (if hasRight then _ else _) as [[rc r7]|] eqn:Er; [|discriminate].
  injection H as <- <-. cbn [PrefixLen Checked.nonnegLens Child0 Child1].
  split; [exact Hlen|].
  assert (Hchild : forall (has : bool) ra c rb,
             (if has then deserializeNode fuel ra else Some (None, ra)) = Some (Some c, rb) ->
             (0 <=? PrefixLen c) && Checked.nonnegLens c = true).
  { intros has ra c rb Hd. destruct has; [|discriminate].
    apply IH in Hd as [Ha Hb]. rewrite Hb. apply andb_true_intro.
    split; [apply Z.leb_le; exact Ha|reflexivity]. }
  apply andb_true_intro. split.
  - destruct lc as [c|]; [eapply Hchild; eauto|reflexivity].
  - destruct rc as [c|]; [eapply Hchild; eauto|reflexivity].
Qed.

Lemma loadTrie_nonneg data isIPv6 t r :
  loadTrieBytes data isIPv6 = Ok t -> Root t = Some r -> Checked.nonnegLens r = true.
Proof.
  unfold loadTrieBytes.
  destruct (readHeader data) as [[h r0]|]; [|discriminate].
  destruct (negb _); [discriminate|]. destruct (negb _); [discriminate|].
  destruct (deserializeNode _ r0) as [[root r1]|] eqn:Ed; [|discriminate].
  destruct (readUint 4 r1) as [[c ?]|]; [|discriminate].
  intros [= <-]. cbn [Root]. intros ->.
  apply deserializeNode_nonneg in Ed as [_ H]. exact H.
Qed.

(** C9: at every byte slice and every non-negative position the checked
    [getBit] performs no out-of-range access and returns what [getBit]
    returns, which is 0 when the byte index is at or beyond the end of the
    slice; so [Insert], on every trie, whatever the prefix slices and
    lengths of its nodes, and [Lookup], on every trie whose edge lengths
    are not negative, never index out of range: the checked operations
    return what the unchecked ones return; and every trie that [loadTrie]
    returns has edge lengths that are not negative. *)
Theorem C9_getBit_guard_keeps_insert_and_lookup_in_bounds :
  (forall (b : list byte) (p : Z), 0 <= p ->
     Checked.getBit b p = Some (getBit b p) /\
     (Z.of_nat (length b) <= p / 8 -> getBit b p = 0)) /\
  (forall t prefix data, Checked.Insert t prefix data = Some (Insert t prefix data)) /\
  (forall t ip, Checked.nonnegRoot t = true -> Checked.Lookup t ip = Some (Lookup t ip)) /\
  (forall data isIPv6 t, loadTrieBytes data isIPv6 = Ok t -> Checked.nonnegRoot t = true).
Proof.
  split; [|split; [|split]].
  - intros b p Hp. split; [apply getBit_checked; exact Hp|].
    intros. apply getBit_beyond; assumption.
  - intros t prefix data. unfold Checked.Insert, Insert.
    destruct (negb _); [reflexivity|]. destruct (Root t) as [root|]; [|reflexivity].
    rewrite insertRecursive_checked by lia. reflexivity.
  - intros t ip Hnn. unfold Checked.Lookup, Lookup, Checked.nonnegRoot in *.
    destruct (negb _); [reflexivity|].
    unfold Checked.lookupRecursive, lookupRecursive.
    destruct (Root t) as [root|]; [|reflexivity].
    apply lookupLoop_checked; [lia|exact Hnn].
  - intros data isIPv6 t Hl. unfold Checked.nonnegRoot.
    destruct (Root t) as [root|] eqn:Hr; [|reflexivity].
    eapply loadTrie_nonneg; eauto.
Qed.

Lemma C9_witness :
  Checked.getBit [Byte.x80] 9 = Some 0 /\
  Checked.Lookup (Index.NewTrie false) (TrieSpec.ip4 8 8 8 8) = Some None.
Proof.
  destruct C9_getBit_guard_keeps_insert_and_lookup_in_bounds as (Hg & _ & Hl & _).
  split.
  - destruct (Hg [Byte.x80] 9 ltac:(lia)) as [E Hz]. rewrite E, Hz; [reflexivity|].
    change (1 <= 9 / 8). change (9 / 8) with 1. lia.
  - rewrite (Hl (Index.NewTrie false) (TrieSpec.ip4 8 8 8 8) eq_refl). reflexivity.
Defined.

(** *** Reading from a longer input *)

Lemma readFull_more n r a r' e :
  readFull n r = Some (a, r') -> readFull n (r ++ e) = Some (a, r' ++ e).
Proof.
  unfold readFull. destruct (Nat.ltb_spec (length r) n); [discriminate|].
  intros [= <- <-]. rewrite length_app.
  destruct (Nat.ltb_spec (length r + length e) n); [lia|].
  rewrite take_app_le, drop_app_le by lia. reflexivity.
Qed.

Lemma readUint_more n r z r' e :
  readUint n r = Some (z, r') -> readUint n (r ++ e) = Some (z, r' ++ e).
Proof.
  unfold readUint. destruct (readFull n r) as [[a r0]|] eqn:E; [|discriminate].
  intros [= <- <-]. rewrite (readFull_more _ _ _ _ e E). reflexivity.
Qed.

Lemma readBool_more r b r' e :
  readBool r = Some (b, r') -> readBool (r ++ e) = Some (b, r' ++ e).
Proof.
  unfold readBool. destruct (readFull 1 r) as [[a r0]|] eqn:E; [|discriminate].
  intros [= <- <-]. rewrite (readFull_more _ _ _ _ e E). reflexivity.
Qed.

Lemma readData_more r d r' e :
  readData r = Some (d, r') -> readData (r ++ e) = Some (d, r' ++ e).
Proof.
  unfold readData.
  destruct (readFull 2 r) as [[a r0]|] eqn:E0; [|discriminate].
  destruct (readUint 2 r0) as [[z r1]|] eqn:E1; [|discriminate].
  destruct (readFull (Z.to_nat z) r1) as [[s r2]|] eqn:E2; [|discriminate].
  intros [= <- <-].
  rewrite (readFull_more _ _ _ _ e E0), (readUint_more _ _ _ _ e E1),
    (readFull_more _ _ _ _ e E2). reflexivity.
Qed.

Lemma readHeader_more r h r' e :
  readHeader r = Some (h, r') -> readHeader (r ++ e) = Some (h, r' ++ e).
Proof.
  unfold readHeader.
  destruct (readFull 8 r) as [[m r0]|] eqn:E0; [|discriminate].
  destruct (readUint 4 r0) as [[v r1]|] eqn:E1; [|discriminate].
  destruct (readUint 4 r1) as [[f r2]|] eqn:E2; [|discriminate].
  destruct (readUint 8 r2) as [[o4 r3]|] eqn:E3; [|discriminate].
  destruct (readUint 8 r3) as [[o6 r4]|] eqn:E4; [|discriminate].
  intros [= <- <-].
  rewrite (readFull_more _ _ _ _ e E0), (readUint_more _ _ _ _ e E1),
    (readUint_more _ _ _ _ e E2), (readUint_more _ _ _ _ e E3),
    (readUint_more _ _ _ _ e E4). reflexivity.
Qed.

Ltac more_step e IH :=
  match goal with
  | H : match readUint ?n ?r with _ => _ end = Some _ |- _ =>
      let E := fresh "E" in
      destruct (readUint n r) as [[? ?]|] eqn:E; [rewrite (readUint_more _ _ _ _ e E)|discriminate]
  | H : match readFull ?n ?r with _ => _ end = Some _ |- _ =>
      let E := fresh "E" in
      destruct (readFull n r) as [[? ?]|] eqn:E; [rewrite (readFull_more _ _ _ _ e E)|discriminate]
  | H : match readBool ?r with _ => _ end = Some _ |- _ =>
      let E := fresh "E" in
      destruct (readBool r) as [[[|] ?]|] eqn:E;
      [rewrite (readBool_more _ _ _ e E); cbv iota in H |- *
      |rewrite (readBool_more _ _ _ e E); cbv iota in H |- *|discriminate]
  | H : match match readData ?r with _ => _ end with _ => _ end = Some _ |- _ =>
      let E := fresh "E" in
      destruct (readData r) as [[? ?]|] eqn:E; [rewrite (readData_more _ _ _ e E)|discriminate]
  | H : match deserializeNode ?f ?r with _ => _ end = Some _ |- _ =>
      let E := fresh "E" in
      destruct (deserializeNode f r) as [[? ?]|] eqn:E;
      [rewrite (IH _ _ _ E)|discriminate]
  end.

(** What [deserializeNode] reads from an input it reads unchanged from any
    longer one. *)
Lemma deserializeNode_more fuel :
  forall fuel' r x r' e,
    (fuel <= fuel')%nat ->
    deserializeNode fuel r = Some (x, r') ->
    deserializeNode fuel' (r ++ e) = Some (x, r' ++ e).
Proof.
  induction fuel as [|fuel IH]; intros fuel' r x r' e Hf H; [discriminate|].
  destruct fuel' as [|fuel']; [lia|].
  assert (Hle : (fuel <= fuel')%nat) by lia.
  pose proof (fun r x r' => IH fuel' r x r' e Hle) as IH'.
  cbn [deserializeNode] in *.
  more_step e IH'.
  destruct (_ =? 255); [injection H as <- <-; reflexivity|].
  destruct (Z.quot _ 8 >? 0);
    repeat more_step e IH'; injection H as <- <-; reflexivity.
Qed.

Lemma loadTrieBytes_more data v t e :
  loadTrieBytes data v = Ok t -> loadTrieBytes (data ++ e) v = Ok t.
Proof.
  unfold loadTrieBytes.
  destruct (readHeader data) as [[h r]|] eqn:Eh; [|discriminate].
  rewrite (readHeader_more _ _ _ e Eh).
  destruct (negb (String.eqb _ Magic)); [discriminate|].
  destruct (negb (_ =? _)); [discriminate|].
  destruct (deserializeNode (S (length r)) r) as [[root r1]|] eqn:Ed; [|discriminate].
  assert (Hle : (S (length r) <= S (length (r ++ e)))%nat) by (rewrite length_app; lia).
  rewrite (deserializeNode_more _ _ _ _ _ e Hle Ed).
  destruct (readUint 4 r1) as [[count r2]|] eqn:Ec; [|discriminate].
  rewrite (readUint_more _ _ _ _ e Ec). trivial.
Qed.

(** *** The header *)

Lemma readHeader_short data :
  (length data < 32)%nat -> readHeader data = None.
Proof.
  intros Hl. destruct (readHeader data) as [[h r]|] eqn:E; [|reflexivity].
  exfalso. unfold readHeader in E.
  destruct (readFull 8 data) as [[m r0]|] eqn:E0; [|discriminate].
  destruct (readUint 4 r0) as [[v r1]|] eqn:E1; [|discriminate].
  destruct (readUint 4 r1) as [[f r2]|] eqn:E2; [|discriminate].
  destruct (readUint 8 r2) as [[o4 r3]|] eqn:E3; [|discriminate].
  destruct (readUint 8 r3) as [[o6 r4]|] eqn:E4; [|discriminate].
  apply readFull_length in E0. apply readUint_length in E1, E2, E3, E4. lia.
Qed.

Lemma readHeader_long data :
  (32 <= length data)%nat ->
  readHeader data =
  Some ({| HMagic := take 8 data;
           Version := getLE (take 4 (drop 8 data));
           Flags := getLE (take 4 (drop 12 data));
           IPv4Offset := getLE (take 8 (drop 16 data));
           IPv6Offset := getLE (take 8 (drop 24 data)) |}, drop 32 data).
Proof.
  intros Hl. unfold readHeader, readUint, readFull.
  repeat (rewrite ?length_drop, ?drop_drop;
          match goal with
          | |- context [(?a <? ?b)%nat] =>
              destruct (Nat.ltb_spec a b); [exfalso; lia|]
          end).
  rewrite ?drop_drop. reflexivity.
Qed.

(** *** Every loaded trie is in the normal form of the format *)

Lemma getLE_range bs : 0 <= getLE bs < 256 ^ Z.of_nat (length bs).
Proof.
  induction bs as [|b bs IH]; [cbn; lia|].
  cbn [getLE length]. rewrite Nat2Z.inj_succ, Z.pow_succ_r by lia.
  pose proof (byte.unsigned_range b). lia.
Qed.

Lemma readFull_len n r a r' : readFull n r = Some (a, r') -> length a = n.
Proof.
  unfold readFull. destruct (Nat.ltb_spec (length r) n); [discriminate|].
  intros [= <- <-]. rewrite length_take. lia.
Qed.

Lemma readUint_range n r z r' :
  readUint n r = Some (z, r') -> 0 <= z < 256 ^ Z.of_nat n.
Proof.
  unfold readUint. destruct (readFull n r) as [[a r0]|] eqn:E; [|discriminate].
  intros [= <- <-]. apply readFull_len in E. subst n. apply getLE_range.
Qed.

Lemma readData_ok r d r' : readData r = Some (d, r') -> dataOk d = true.
Proof.
  unfold readData.
  destruct (readFull 2 r) as [[cc r0]|] eqn:E0; [|discriminate].
  destruct (readUint 2 r0) as [[z r1]|] eqn:E1; [|discriminate].
  destruct (readFull (Z.to_nat z) r1) as [[s r2]|] eqn:E2; [|discriminate].
  intros [= <- <-]. unfold dataOk. cbn [CountryCode PrefixStr].
  rewrite !list_byte_of_string_of_list_byte.
  apply readFull_len in E0, E2. apply readUint_range in E1.
  rewrite E0, E2. apply andb_true_intro. split; [reflexivity|].
  apply Z.ltb_lt. change (256 ^ Z.of_nat 2) with 65536 in E1. lia.
Qed.

Lemma canon_node pfx len dat lc rc :
  0 <= len < 255 ->
  length pfx = (if Z.quot (len + 7) 8 >? 0 then Z.to_nat (Z.quot (len + 7) 8) else 0%nat) ->
  (forall d, dat = Some d -> dataOk d = true) ->
  (forall c, lc = Some c -> nodeOk c = true /\ normNode c = c) ->
  (forall c, rc = Some c -> nodeOk c = true /\ normNode c = c) ->
  let n := {| Prefix := pfx; PrefixLen := len; Data := dat; Child0 := lc; Child1 := rc |} in
  nodeOk n = true /\ normNode n = n.
Proof.
  intros Hlen Hp Hd Hl Hr n. split.
  - cbn [n nodeOk PrefixLen Data Child0 Child1].
    rewrite !andb_true_iff, Z.leb_le, Z.ltb_lt. repeat split; try lia.
    + destruct dat as [d|]; [apply Hd; reflexivity|reflexivity].
    + destruct lc as [c|]; [apply (Hl c); reflexivity|reflexivity].
    + destruct rc as [c|]; [apply (Hr c); reflexivity|reflexivity].
  - cbn [n normNode PrefixLen Data Child0 Child1]. f_equal.
    + unfold prefixField. cbn [PrefixLen Prefix].
      destruct (Z.quot (len + 7) 8 >? 0) eqn:Eq.
      * rewrite Hp, Z2Nat.id by (apply Z.gtb_lt in Eq; lia).
        rewrite Z.ltb_irrefl. rewrite <- Hp. apply firstn_all.
      * destruct pfx; [reflexivity|discriminate].
    + destruct lc as [c|]; [|reflexivity]. f_equal. apply (Hl c). reflexivity.
    + destruct rc as [c|]; [|reflexivity]. f_equal. apply (Hr c). reflexivity.
Qed.

(** A node that [deserializeNode] returns has an edge length between 0 and
    254, a prefix slice of exactly the bytes of that length, a two-byte
    country code and a CIDR text shorter than 2^16 bytes. *)
Lemma deserializeNode_canon fuel :
  forall r n r', deserializeNode fuel r = Some (Some n, r') ->
                 nodeOk n = true /\ normNode n = n.
Proof.
  induction fuel as [|fuel IH]; intros r n r' H; [discriminate|].
  cbn [deserializeNode] in H.
  destruct (readUint 1 r) as [[len r0]|] eqn:E0; [|discriminate].
  apply readUint_range in E0. change (256 ^ Z.of_nat 1) with 256 in E0.
  destruct (Z.eqb_spec len 255) as [|Hne]; [discriminate|].
  destruct (if _ >? 0 then _ else _) as [[pfx r1]|] eqn:Ep; [|discriminate].
  destruct (readBool r1) as [[hasData r2]|]; [|discriminate].
  destruct (if hasData then _ else _) as [[dat r3]|] eqn:Ed; [|discriminate].
  destruct (readBool r3) as [[hasLeft r4]|]; [|discriminate].
  destruct (readBool r4) as [[hasRight r5]|]; [|discriminate].
  destruct (if hasLeft then _ else _) as [[lc r6]|] eqn:El; [|discriminate].
  destruct (if hasRight then _ else _) as [[rc r7]|] eqn:Er; [|discriminate].
  injection H as <- <-. apply canon_node.
  - lia.
  - destruct (_ >? 0); [apply readFull_len in Ep; exact Ep|injection Ep as <- _; reflexivity].
  - intros d ->. destruct hasData; [|discriminate].
    destruct (readData r2) as [[d' r8]|] eqn:Erd; [|discriminate].
    injection Ed as <- _. eapply readData_ok; eauto.
  - intros c ->. destruct hasLeft; [eapply IH; eauto|discriminate].
  - intros c ->. destruct hasRight; [eapply IH; eauto|discriminate].
Qed.

Lemma loadTrieBytes_inv data v t :
  loadTrieBytes data v = Ok t ->
  exists h r1 r2 r3,
    readHeader data = Some (h, r1) /\
    deserializeNode (S (length r1)) r1 = Some (Root t, r2) /\
    readUint 4 r2 = Some (Count t, r3) /\ IsIPv6 t = v.
Proof.
  unfold loadTrieBytes.
  destruct (readHeader data) as [[h r]|] eqn:Eh; [|discriminate].
  destruct (negb (String.eqb _ Magic)); [discriminate|].
  destruct (negb (_ =? _)); [discriminate|].
  destruct (deserializeNode (S (length r)) r) as [[root r1]|] eqn:Ed; [|discriminate].
  destruct (readUint 4 r1) as [[count r2]|] eqn:Ec; [|discriminate].
  intros [= <-]. exists h, r, r1, r2. auto.
Qed.

Lemma loaded_trieOk data v t :
  loadTrieBytes data v = Ok t ->
  trieOk t = true /\
  match Root t with Some r => Some (normNode r) | None => None end = Root t.
Proof.
  intros H. apply loadTrieBytes_inv in H as (h & r1 & r2 & r3 & _ & Hd & Hc & _).
  apply readUint_range in Hc. change (256 ^ Z.of_nat 4) with (2 ^ 32) in Hc.
  unfold trieOk. destruct (Root t) as [r|].
  - apply deserializeNode_canon in Hd as [Hok Hn]. rewrite Hok, Hn.
    split; [|reflexivity]. rewrite !andb_true_iff, Z.leb_le, Z.ltb_lt. lia.
  - split; [|reflexivity]. rewrite !andb_true_iff, Z.leb_le, Z.ltb_lt. lia.
Qed.

(** *** What loadTrie accepts *)

(** X1: [loadTrie] fails with an I/O error when the file does not exist,
    with a read-header error when the file has fewer than the 32 bytes of
    the header, with an invalid-magic error when its first 8 bytes are not
    the magic, and with an unsupported-version error when the next 4 bytes
    are not the format version, in that order. *)
Theorem X1_loadTrie_rejects_bad_header (fs : OS.FS) (path : string)
        (data : list byte) (isIPv6 : bool) :
  (OS.files fs !! path = None -> IndexFile.loadTrie fs path isIPv6 = Err ErrIO) /\
  (OS.files fs !! path = Some data ->
     IndexFile.loadTrie fs path isIPv6 = loadTrieBytes data isIPv6) /\
  ((length data < 32)%nat -> loadTrieBytes data isIPv6 = Err ErrReadHeader) /\
  ((32 <= length data)%nat -> string_of_list_byte (take 8 data) <> Magic ->
     loadTrieBytes data isIPv6 = Err ErrInvalidMagic) /\
  ((32 <= length data)%nat -> string_of_list_byte (take 8 data) = Magic ->
     getLE (take 4 (drop 8 data)) <> IndexFormatVersion ->
     loadTrieBytes data isIPv6 = Err ErrUnsupportedVersion).
Proof.
  split; [|split; [|split; [|split]]].
  - intros E. unfold IndexFile.loadTrie. rewrite E. reflexivity.
  - intros E. unfold IndexFile.loadTrie. rewrite E. reflexivity.
  - intros Hl. unfold loadTrieBytes. rewrite readHeader_short by exact Hl. reflexivity.
  - intros Hl Hm. unfold loadTrieBytes. rewrite readHeader_long by exact Hl.
    cbn [HMagic]. destruct (String.eqb_spec (string_of_list_byte (take 8 data)) Magic);
      [contradiction|reflexivity].
  - intros Hl Hm Hv. unfold loadTrieBytes. rewrite readHeader_long by exact Hl.
    cbn [HMagic Version]. rewrite Hm, String.eqb_refl. cbn [negb].
    destruct (Z.eqb_spec (getLE (take 4 (drop 8 data))) IndexFormatVersion);
      [contradiction|reflexivity].
Qed.

(** The file of the package's test, which is no index. *)
Lemma X1_witness :
  loadTrieBytes (list_byte_of_string "not a valid index") false = Err ErrReadHeader /\
  loadTrieBytes (list_byte_of_string "IP2CCIDY" ++ replicate 24 Byte.x00) false
    = Err ErrInvalidMagic /\
  loadTrieBytes (list_byte_of_string "IP2CCIDX" ++ putUint32 2 ++ replicate 20 Byte.x00) false
    = Err ErrUnsupportedVersion.
Proof.
  split; [|split].
  - apply (X1_loadTrie_rejects_bad_header OS.emptyFS "" _ false). cbn. lia.
  - apply (X1_loadTrie_rejects_bad_header OS.emptyFS "" _ false).
    + cbn. lia.
    + vm_compute. discriminate.
  - apply (X1_loadTrie_rejects_bad_header OS.emptyFS "" _ false).
    + cbn. lia.
    + vm_compute. reflexivity.
    + vm_compute. discriminate.
Defined.

(** X2: bytes that follow the count are never read: a file that loads
    still loads, to the same trie, when any bytes are appended to it. *)
Theorem X2_loadTrie_ignores_trailing_bytes (data extra : list byte) (isIPv6 : bool) (t : Trie) :
  loadTrieBytes data isIPv6 = Ok t ->
  loadTrieBytes (data ++ extra) isIPv6 = Ok t.
Proof. apply loadTrieBytes_more. Qed.

(** The file of an empty trie, followed by a byte. *)
Lemma X2_witness :
  loadTrieBytes (saveTrieBytes (NewTrie false) false ++ [Byte.x2a]) false
  = Ok (NewTrie false).
Proof.
  apply X2_loadTrie_ignores_trailing_bytes. vm_compute. reflexivity.
Defined.

Lemma saved_parts t v6 :
  trieOk t = true ->
  exists h,
    readHeader (saveTrieBytes t v6) = Some (h, serializeNode (Root t) ++ putUint32 (Count t)) /\
    forall fuel, (length (serializeNode (Root t)) < fuel)%nat ->
      deserializeNode fuel (serializeNode (Root t) ++ putUint32 (Count t)) =
      Some (match Root t with Some r => Some (normNode r) | None => None end,
            putUint32 (Count t)).
Proof.
  intros Hok. unfold trieOk in Hok. rewrite !andb_true_iff in Hok.
  destruct Hok as [[Hn _] _].
  eexists. split.
  - unfold saveTrieBytes. rewrite <- ?app_assoc.
    apply readHeader_putHeader;
      [reflexivity|cbn; unfold IndexFormatVersion; lia
      |cbn; unfold FlagHasIPv6, FlagHasIPv4; destruct v6; lia|cbn; lia|cbn; lia].
  - intros fuel Hf. destruct (Root t) as [r|].
    + cbn [serializeNode] in *. apply deserialize_serialize; assumption.
    + destruct fuel as [|fuel]; [cbn in Hf; lia|]. reflexivity.
Qed.

(** X3: no proper prefix of a file written by [saveTrie] loads: a file
    whose write stopped part-way is always rejected. *)
Theorem X3_truncated_index_never_loads (t : Trie) (v6 v6' : bool) (k : nat) :
  trieOk t = true ->
  (k < length (saveTrieBytes t v6))%nat ->
  exists e, loadTrieBytes (take k (saveTrieBytes t v6)) v6' = Err e.
Proof.
  intros Hok Hk.
  destruct (loadTrieBytes (take k (saveTrieBytes t v6)) v6') as [t'|e] eqn:E;
    [exfalso|exists e; reflexivity].
  apply loadTrieBytes_inv in E as (h & r1 & r2 & r3 & Hh & Hd & Hc & _).
  destruct (saved_parts t v6 Hok) as (h0 & Hh0 & Hd0).
  set (rest := drop k (saveTrieBytes t v6)).
  assert (Hrest : (0 < length rest)%nat) by (unfold rest; rewrite length_drop; lia).
  apply (readHeader_more _ _ _ rest) in Hh.
  unfold rest in Hh at 1. rewrite take_drop, Hh0 in Hh. injection Hh as _ Hr1.
  assert (Hle : (S (length r1) <= S (length (r1 ++ rest)))%nat)
    by (rewrite length_app; lia).
  pose proof (deserializeNode_more _ _ _ _ _ rest Hle Hd) as Hd'.
  rewrite <- Hr1, Hd0 in Hd'.
  2:{ rewrite length_app. lia. }
  injection Hd' as _ Hr2. apply readUint_length in Hc.
  apply (f_equal (@length byte)) in Hr2. rewrite length_app in Hr2.
  unfold putUint32 in Hr2. rewrite length_putLE in Hr2. lia.
Qed.

(** The file of the test scenario, cut before its last byte. *)
Lemma X3_witness :
  exists t e, insertAll (NewTrie false) scenario1 = Ok t /\
    loadTrieBytes (take (length (saveTrieBytes t false) - 1) (saveTrieBytes t false)) false
    = Err e.
Proof.
  assert (Ht : exists t, insertAll (NewTrie false) scenario1 = Ok t /\ trieOk t = true /\
                         (0 < length (saveTrieBytes t false))%nat).
  { eexists. split; [vm_compute; reflexivity|]. split; [vm_compute; reflexivity|].
    vm_compute. lia. }
  destruct Ht as (t & Ht & Hok & Hlen).
  destruct (X3_truncated_index_never_loads t false false
              (length (saveTrieBytes t false) - 1) Hok ltac:(lia)) as [e He].
  exists t, e. split; [exact Ht|exact He].
Defined.

(** X4: what [loadTrie] returns is in the normal form of the format, so
    saving a loaded trie and loading the file again returns the very same
    trie. *)
Theorem X4_load_save_load (data : list byte) (isIPv6 : bool) (t : Trie) :
  loadTrieBytes data isIPv6 = Ok t ->
  trieOk t = true /\
  loadTrieBytes (saveTrieBytes t isIPv6) isIPv6 = Ok t.
Proof.
  intros H. destruct (loaded_trieOk _ _ _ H) as [Hok Hn].
  split; [exact Hok|]. rewrite (loadTrie_saveTrie t isIPv6 isIPv6 Hok), Hn.
  apply loadTrieBytes_inv in H as (_ & _ & _ & _ & _ & _ & _ & <-).
  destruct t; reflexivity.
Qed.

(** A file whose root announces a left child with the byte 7 and gives the
    nil marker for it: it loads, and the trie it loads to is written back
    as other bytes, which load to the same trie. *)
Lemma X4_witness :
  let data := list_byte_of_string "IP2CCIDX" ++ putUint32 1 ++ replicate 20 Byte.x00 ++
              [Byte.x00; Byte.x00; Byte.x07; Byte.x00; Byte.xff] ++ putUint32 5 in
  let t := {| Root := Some emptyNode; IsIPv6 := false; Count := 5 |} in
  loadTrieBytes data false = Ok t /\
  loadTrieBytes (saveTrieBytes t false) false = Ok t /\
  saveTrieBytes t false <> data.
Proof.
  intros data t.
  assert (H : loadTrieBytes data false = Ok t) by (vm_compute; reflexivity).
  split; [exact H|]. split.
  - exact (proj2 (X4_load_save_load data false t H)).
  - vm_compute. discriminate.
Defined.

(** *** SaveIndex and LoadIndex *)

Lemma saveTrie_ok fs path t v6 f fs' :
  IndexFile.saveTrie fs path t v6 f = (fs', None) ->
  fs' = OS.setFile fs path (saveTrieBytes t v6).
Proof.
  unfold IndexFile.saveTrie, OS.createAndWrite. destruct f as [| |n].
  - intros [= <-]. reflexivity.
  - discriminate.
  - destruct (n <? _)%nat; [discriminate|]. intros [= <-]. reflexivity.
Qed.

Lemma loadTrie_saved t v6 (Hfam : IsIPv6 t = v6) :
  trieOk t = true ->
  exists t', loadTrieBytes (saveTrieBytes t v6) v6 = Ok t' /\
             Count t' = Count t /\ IsIPv6 t' = v6 /\
             forall ip, Lookup t' ip = Lookup t ip.
Proof.
  intros Hok. eexists. split; [apply loadTrie_saveTrie; exact Hok|].
  split; [reflexivity|]. split; [reflexivity|]. intros ip.
  rewrite <- Hfam. apply Lookup_normalised.
Qed.

(** X5: when [SaveIndex] returns no error for two tries that fit the file
    format, written to two different paths, [LoadIndex] on those paths
    succeeds and returns an IPv4 and an IPv6 trie with the counts and, at
    every address, the lookup results of the tries that were saved. *)
Theorem X5_SaveIndex_then_LoadIndex (fs fs' : OS.FS) (v4Path v6Path : string)
        (v4Trie v6Trie : Trie) (f4 f6 : OS.fault) :
  v4Path <> v6Path ->
  IsIPv6 v4Trie = false -> IsIPv6 v6Trie = true ->
  trieOk v4Trie = true -> trieOk v6Trie = true ->
  IndexFile.SaveIndex fs v4Path v6Path v4Trie v6Trie f4 f6 = (fs', None) ->
  exists l4 l6,
    IndexFile.LoadIndex fs' v4Path v6Path = Ok (l4, l6) /\
    Count l4 = Count v4Trie /\ Count l6 = Count v6Trie /\
    IsIPv6 l4 = false /\ IsIPv6 l6 = true /\
    forall ip, Lookup l4 ip = Lookup v4Trie ip /\ Lookup l6 ip = Lookup v6Trie ip.
Proof.
  intros Hne H4 H6 Hok4 Hok6 Hs. unfold IndexFile.SaveIndex in Hs.
  destruct (IndexFile.saveTrie fs v4Path v4Trie false f4) as [fs1 [e|]] eqn:E4;
    [discriminate|].
  apply saveTrie_ok in E4, Hs. subst fs1 fs'.
  destruct (loadTrie_saved v4Trie false H4 Hok4) as (l4 & Hl4 & Hc4 & Hf4 & Hk4).
  destruct (loadTrie_saved v6Trie true H6 Hok6) as (l6 & Hl6 & Hc6 & Hf6 & Hk6).
  exists l4, l6. unfold IndexFile.LoadIndex, IndexFile.loadTrie.
  cbn [OS.setFile OS.files].
  rewrite lookup_insert_ne by (intros E; apply Hne; symmetry; exact E).
  rewrite !lookup_insert_eq, Hl4, Hl6. repeat split; auto.
Qed.

(** The tries of the test scenario and an empty IPv6 trie, saved to an
    empty file system. *)
Lemma X5_witness :
  exists t fs' l4 l6,
    insertAll (NewTrie false) scenario1 = Ok t /\
    IndexFile.SaveIndex OS.emptyFS "/s/index_v4.bin" "/s/index_v6.bin" t (NewTrie true)
                        OS.NoFault OS.NoFault = (fs', None) /\
    IndexFile.LoadIndex fs' "/s/index_v4.bin" "/s/index_v6.bin" = Ok (l4, l6) /\
    Count l4 = 3 /\
    Lookup l4 (ip4 8 8 8 8) = Some (mkPrefixData "US" "8.8.8.0/24").
Proof.
  assert (Ht : exists t, insertAll (NewTrie false) scenario1 = Ok t /\ trieOk t = true /\
                         IsIPv6 t = false /\ Count t = 3 /\
                         Lookup t (ip4 8 8 8 8) = Some (mkPrefixData "US" "8.8.8.0/24")).
  { eexists. split; [vm_compute; reflexivity|]. repeat split; vm_compute; reflexivity. }
  destruct Ht as (t & Ht & Hok & Hfam & Hcnt & Hlk).
  destruct (IndexFile.SaveIndex OS.emptyFS "/s/index_v4.bin" "/s/index_v6.bin" t (NewTrie true)
                                OS.NoFault OS.NoFault) as [fs' e] eqn:Es.
  assert (He : e = None) by (unfold IndexFile.SaveIndex in Es; cbn in Es; congruence).
  subst e.
  destruct (X5_SaveIndex_then_LoadIndex OS.emptyFS fs' "/s/index_v4.bin" "/s/index_v6.bin"
              t (NewTrie true) OS.NoFault OS.NoFault)
    as (l4 & l6 & Hl & Hc4 & _ & _ & _ & Hk); try reflexivity; try assumption.
  { discriminate. }
  exists t, fs', l4, l6. split; [exact Ht|]. split; [exact Es|]. split; [exact Hl|].
  split; [congruence|]. rewrite (proj1 (Hk _)). exact Hlk.
Defined.

End CodecCorrect.

(** ** The snapshot manager *)

Section SnapshotCorrect.
Import Snapshot.

(** *** The order of strings *)

Lemma ascii_compare_trans_lt a b c :
  Ascii.compare a b = Lt -> Ascii.compare b c = Lt -> Ascii.compare a c = Lt.
Proof.
  unfold Ascii.compare. rewrite !N.compare_lt_iff. lia.
Qed.

Lemma ascii_compare_eq a b : Ascii.compare a b = Eq -> a = b.
Proof.
  unfold Ascii.compare. rewrite N.compare_eq_iff. intros H.
  rewrite <- (ascii_N_embedding a), <- (ascii_N_embedding b). congruence.
Qed.

Lemma string_compare_lt_trans s1 :
  forall s2 s3, String.compare s1 s2 = Lt -> String.compare s2 s3 = Lt ->
                String.compare s1 s3 = Lt.
Proof.
  induction s1 as [|a s1 IH]; intros [|b s2] [|c s3]; cbn; try discriminate; auto.
  destruct (Ascii.compare a b) eqn:Eab; try discriminate;
    destruct (Ascii.compare b c) eqn:Ebc; try discriminate; intros H1 H2.
  - apply ascii_compare_eq in Eab, Ebc. subst.
    replace (Ascii.compare c c) with Eq
      by (symmetry; unfold Ascii.compare; apply N.compare_refl).
    eapply IH; eauto.
  - apply ascii_compare_eq in Eab. subst. rewrite Ebc. reflexivity.
  - apply ascii_compare_eq in Ebc. subst. rewrite Eab. reflexivity.
  - rewrite (ascii_compare_trans_lt _ _ _ Eab Ebc). reflexivity.
Qed.

Lemma string_compare_refl s : String.compare s s = Eq.
Proof.
  pose proof (String.compare_antisym s s) as H.
  destruct (String.compare s s); [reflexivity|discriminate|discriminate].
Qed.

Lemma string_leb_trans s1 s2 s3 :
  String.leb s1 s2 = true -> String.leb s2 s3 = true -> String.leb s1 s3 = true.
Proof.
  unfold String.leb.
  destruct (String.compare s1 s2) eqn:E12; try discriminate;
    destruct (String.compare s2 s3) eqn:E23; try discriminate; intros _ _.
  - apply String.compare_eq_iff in E12, E23. subst. rewrite string_compare_refl. reflexivity.
  - apply String.compare_eq_iff in E12. subst. rewrite E23. reflexivity.
  - apply String.compare_eq_iff in E23. subst. rewrite E12. reflexivity.
  - rewrite (string_compare_lt_trans _ _ _ E12 E23). reflexivity.
Qed.

Lemma string_leb_refl s : String.leb s s = true.
Proof. destruct (String.leb_total s s); assumption. Qed.

(** *** [os.ReadDir]: sorted by filename, same entries *)

Lemma insertEntry_perm e l : Permutation (insertEntry e l) (e :: l).
Proof.
  induction l as [|x l IH]; cbn; [reflexivity|].
  destruct (String.leb (Name e) (Name x)); [reflexivity|].
  rewrite IH. apply perm_swap.
Qed.

Lemma sortEntries_perm l : Permutation (sortEntries l) l.
Proof.
  induction l as [|x l IH]; cbn; [reflexivity|].
  rewrite insertEntry_perm. constructor. exact IH.
Qed.

Lemma insertEntry_sorted e l :
  StronglySorted nameLe l -> StronglySorted nameLe (insertEntry e l).
Proof.
  induction 1 as [|x l Hs IH Hx]; cbn; [repeat constructor|].
  destruct (String.leb (Name e) (Name x)) eqn:E.
  - constructor; [constructor; assumption|]. constructor; [exact E|].
    eapply Forall_impl; [exact Hx|]. intros y Hy. eapply string_leb_trans; eauto.
  - constructor; [exact IH|].
    assert (Hxe : nameLe x e).
    { destruct (String.leb_total (Name e) (Name x)) as [H|H]; [congruence|exact H]. }
    rewrite List.Forall_forall in *. intros y Hy.
    apply (Permutation_in _ (insertEntry_perm e l)) in Hy as [<-|Hy]; auto.
Qed.

Lemma sortEntries_sorted l : StronglySorted nameLe (sortEntries l).
Proof.
  induction l as [|x l IH]; cbn; [constructor|]. apply insertEntry_sorted. exact IH.
Qed.

Lemma StronglySorted_filter {A} (R : A -> A -> Prop) (f : A -> bool) l :
  StronglySorted R l -> StronglySorted R (List.filter f l).
Proof.
  induction 1 as [|x l Hs IH Hx]; cbn; [constructor|].
  destruct (f x); [|exact IH]. constructor; [exact IH|].
  rewrite List.Forall_forall in *. intros y Hy. apply filter_In in Hy as [Hy _]. auto.
Qed.

Lemma StronglySorted_map_Name l :
  StronglySorted nameLe l -> StronglySorted strLe (map Name l).
Proof.
  induction 1 as [|x l Hs IH Hx]; cbn; [constructor|]. constructor; [exact IH|].
  rewrite List.Forall_forall in *. intros y Hy. apply in_map_iff in Hy as (e & <- & He). exact (Hx e He).
Qed.

(** What [ListSnapshots] returns. *)
Lemma ListSnapshots_spec m st l :
  ListSnapshots m st = Ok l ->
  exists es,
    entries st (Config.SnapshotsDir (cacheDir m)) = Some es /\
    StronglySorted strLe l /\
    forall name, In name l <->
                 exists e, In e es /\ Name e = name /\ isSnapshotEntry e = true.
Proof.
  unfold ListSnapshots, ReadDir.
  destruct (ensureDir st _); [discriminate|].
  destruct (entries st _) as [es|]; [|discriminate].
  intros [= <-]. exists es. split; [reflexivity|]. split.
  - apply StronglySorted_map_Name, StronglySorted_filter, sortEntries_sorted.
  - intros name. rewrite in_map_iff. split.
    + intros (e & <- & He). apply filter_In in He as [He Hf].
      exists e. split; [|auto]. eapply Permutation_in; [apply sortEntries_perm|exact He].
    + intros (e & He & <- & Hf). exists e. split; [reflexivity|].
      apply filter_In. split; [|exact Hf].
      eapply Permutation_in; [symmetry; apply sortEntries_perm|exact He].
Qed.

Lemma insertDesc_perm x l : Permutation (insertDesc x l) (x :: l).
Proof.
  induction l as [|y l IH]; cbn; [reflexivity|].
  destruct (String.leb y x); [reflexivity|]. rewrite IH. apply perm_swap.
Qed.

Lemma sortDesc_perm l : Permutation (sortDesc l) l.
Proof.
  induction l as [|x l IH]; cbn; [reflexivity|].
  rewrite insertDesc_perm. constructor. exact IH.
Qed.

Lemma insertDesc_sorted x l :
  StronglySorted (fun a b => strLe b a) l ->
  StronglySorted (fun a b => strLe b a) (insertDesc x l).
Proof.
  induction 1 as [|y l Hs IH Hy]; cbn; [repeat constructor|].
  destruct (String.leb y x) eqn:E.
  - constructor; [constructor; assumption|]. constructor; [exact E|].
    eapply Forall_impl; [exact Hy|]. intros z Hz. unfold strLe in *.
    eapply string_leb_trans; eauto.
  - constructor; [exact IH|].
    assert (Hxy : strLe x y).
    { destruct (String.leb_total x y) as [H|H]; [exact H|congruence]. }
    rewrite List.Forall_forall in *. intros z Hz.
    apply (Permutation_in _ (insertDesc_perm x l)) in Hz as [<-|Hz]; auto.
Qed.

Lemma sortDesc_sorted l : StronglySorted (fun a b => strLe b a) (sortDesc l).
Proof.
  induction l as [|x l IH]; cbn; [constructor|]. apply insertDesc_sorted. exact IH.
Qed.

(** The head of the descending sort is a greatest element. *)
Lemma sortDesc_head l d rest :
  sortDesc l = d :: rest -> In d l /\ forall x, In x l -> String.leb x d = true.
Proof.
  intros E. pose proof (sortDesc_sorted l) as Hs. pose proof (sortDesc_perm l) as Hp.
  rewrite E in Hs, Hp. split.
  - eapply Permutation_in; [exact Hp|left; reflexivity].
  - intros x Hx. apply (Permutation_in _ (Permutation_sym Hp)) in Hx as [<-|Hx].
    + apply string_leb_refl.
    + apply StronglySorted_inv in Hs as [_ Hall]. rewrite List.Forall_forall in Hall.
      exact (Hall x Hx).
Qed.

Lemma sortDesc_nil l : sortDesc l = [] -> l = [].
Proof.
  intros E. pose proof (sortDesc_perm l) as Hp. rewrite E in Hp.
  apply Permutation_nil in Hp. exact Hp.
Qed.

(** C6 (as stated): refuted when the newest date directory has no metadata
    and an older one has. *)
Lemma C6_no_skipping_counterexample :
  ListSnapshots exampleManager storeNewestWithoutMetadata = Ok ["2025-01-01"; "2025-01-02"]%string /\
  loadMetadata storeNewestWithoutMetadata
    (Config.MetadataPath (GetSnapshotDir exampleManager "2025-01-01"))
    = Some (metaOf "2025-01-01") /\
  loadMetadata storeNewestWithoutMetadata
    (Config.MetadataPath (GetSnapshotDir exampleManager "2025-01-02")) = None /\
  GetLatestSnapshot exampleManager storeNewestWithoutMetadata = Err ErrLoadMetadata.
Proof. repeat split; vm_compute; reflexivity. Qed.

(** C6 (amended): [GetLatestSnapshot] returns the snapshot the latest
    link names when that snapshot's metadata loads; otherwise it lists the
    snapshots, fails as the listing fails, fails with no snapshots
    available when nothing is listed, and else decides on the greatest
    listed date alone: that snapshot when its metadata loads, a
    load-metadata error when it does not; no older date is tried. *)
Theorem C6_latest_resolution (m : Manager) (st : Store) :
  (* (a) the latest link, when its metadata loads *)
  (forall r, linkedSnapshot m st = Some r -> GetLatestSnapshot m st = Ok r) /\
  (linkedSnapshot m st = None ->
   (* the listing fails *)
   (forall e, ListSnapshots m st = Err e -> GetLatestSnapshot m st = Err e) /\
   (* (c) nothing is listed *)
   (ListSnapshots m st = Ok [] -> GetLatestSnapshot m st = Err ErrNoSnapshots) /\
   (* (b) the greatest listed date decides alone *)
   (forall l, ListSnapshots m st = Ok l -> l <> [] ->
      exists d, In d l /\ (forall x, In x l -> String.leb x d = true) /\
        let dir := GetSnapshotDir m d in
        GetLatestSnapshot m st =
          match loadMetadata st (Config.MetadataPath dir) with
          | Some meta => Ok (dir, meta)
          | None => Err ErrLoadMetadata
          end)).
Proof.
  unfold linkedSnapshot, GetLatestSnapshot.
  destruct (readlink st _) as [target|].
  - destruct (loadMetadata st (Config.MetadataPath _)) as [meta|] eqn:Em.
    + split; [intros r [= <-]; reflexivity|discriminate].
    + split; [discriminate|]. intros _.
      split; [intros e ->; reflexivity|]. split; [intros ->; reflexivity|].
      intros l -> Hne. destruct (sortDesc l) as [|d rest] eqn:Es.
      * apply sortDesc_nil in Es. contradiction.
      * apply sortDesc_head in Es as [Hin Hmax]. exists d. repeat split; auto.
  - split; [discriminate|]. intros _.
    split; [intros e ->; reflexivity|]. split; [intros ->; reflexivity|].
    intros l -> Hne. destruct (sortDesc l) as [|d rest] eqn:Es.
    * apply sortDesc_nil in Es. contradiction.
    * apply sortDesc_head in Es as [Hin Hmax]. exists d. repeat split; auto.
Qed.

(** C7: a directory whose ten-character name has its two hyphens at
    offsets 5 and 7 (20250-1-15), next to a well-formed snapshot directory, is
    listed by [ListSnapshots]. *)
Theorem C7_lists_name_with_misplaced_hyphens :
  ListSnapshots exampleManager storeMisplacedHyphens
  = Ok ["2025-01-15"; "20250-1-15"]%string.
Proof. vm_compute. reflexivity. Qed.

(** What the listing does return: the directories other than the latest
    entry whose name has ten characters, two of them hyphens, sorted. *)
Lemma ListSnapshots_sorted_names m st l :
  ListSnapshots m st = Ok l ->
  StronglySorted strLe l /\
  exists es, entries st (Config.SnapshotsDir (cacheDir m)) = Some es /\
    forall name, In name l <->
      exists e, In e es /\ Name e = name /\ IsDir e = true /\
                name <> Config.LatestSymlink /\
                String.length name = 10%nat /\ countHyphens name = 2%nat.
Proof.
  intros H. apply ListSnapshots_spec in H as (es & He & Hs & Hin).
  split; [exact Hs|]. exists es. split; [exact He|]. intros name. rewrite Hin.
  split; intros (e & Hine & <- & Hp); exists e; (split; [exact Hine|]); (split; [reflexivity|]).
  - unfold isSnapshotEntry in Hp. rewrite !andb_true_iff, negb_true_iff in Hp.
    destruct Hp as (((Hd & Hl) & Hlen) & Hc).
    apply String.eqb_neq in Hl. apply Nat.eqb_eq in Hlen, Hc. auto.
  - destruct Hp as (Hd & Hl & Hlen & Hc). unfold isSnapshotEntry.
    rewrite !andb_true_iff, negb_true_iff. repeat split; auto.
    + apply String.eqb_neq. exact Hl.
    + apply Nat.eqb_eq. exact Hlen.
    + apply Nat.eqb_eq. exact Hc.
Qed.

Lemma C6_witness :
  Snapshot.GetLatestSnapshot Snapshot.exampleManager Snapshot.storeMisplacedHyphens
  = Ok ("/cache/snapshots/2025-01-15"%string, Snapshot.metaOf "2025-01-15").
Proof.
  exact (proj1 (C6_latest_resolution Snapshot.exampleManager Snapshot.storeMisplacedHyphens)
               _ eq_refl).
Defined.

(** *** What the manager returns *)

(** X10: [ListSnapshots] fails when the snapshots directory cannot be
    created or read; otherwise it returns, sorted in ascending order, the
    names of exactly the entries of that directory that are directories,
    are not named latest, and have a name of ten characters of which two
    are hyphens. *)
Theorem X10_ListSnapshots_result (m : Manager) (st : Store) :
  let dir := Config.SnapshotsDir (cacheDir m) in
  (forall e, ensureDir st dir = Some e -> ListSnapshots m st = Err e) /\
  (ensureDir st dir = None -> entries st dir = None -> ListSnapshots m st = Err ErrIO) /\
  (forall l, ListSnapshots m st = Ok l ->
     StronglySorted strLe l /\
     exists es, entries st dir = Some es /\
       forall name, In name l <->
         exists e, In e es /\ Name e = name /\ IsDir e = true /\
                   name <> Config.LatestSymlink /\
                   String.length name = 10%nat /\ countHyphens name = 2%nat).
Proof.
  intros dir. split; [|split].
  - intros e He. unfold ListSnapshots. fold dir. rewrite He. reflexivity.
  - intros He Hn. unfold ListSnapshots, ReadDir. fold dir. rewrite He, Hn. reflexivity.
  - intros l. apply ListSnapshots_sorted_names.
Qed.

(** A directory with a file, the latest link and two dated directories,
    given out of order. *)
Lemma X10_witness :
  let st := {| readlink := fun _ => None; ensureDir := fun _ => None;
               entries := fun _ => Some [ mkDirEntry "2025-02-01" true;
                                          mkDirEntry "notes.txt00" false;
                                          mkDirEntry "latest" false;
                                          mkDirEntry "2025-01-15" true;
                                          mkDirEntry "2025-03-01" false ];
               loadMetadata := fun _ => None |} in
  ListSnapshots exampleManager st = Ok ["2025-01-15"; "2025-02-01"]%string /\
  StronglySorted strLe ["2025-01-15"; "2025-02-01"]%string.
Proof.
  intros st.
  assert (H : ListSnapshots exampleManager st = Ok ["2025-01-15"; "2025-02-01"]%string)
    by (vm_compute; reflexivity).
  split; [exact H|].
  exact (proj1 (proj2 (proj2 (X10_ListSnapshots_result exampleManager st)) _ H)).
Defined.

(** X11: whenever [GetLatestSnapshot] returns a snapshot, the metadata it
    returns is the one that loads from the metadata file of the directory
    it returns, and that directory is either the resolved target of the
    latest link or the directory of a listed date. *)
Theorem X11_GetLatestSnapshot_returns_loaded_metadata (m : Manager) (st : Store)
        (dir : string) (meta : Metadata) :
  GetLatestSnapshot m st = Ok (dir, meta) ->
  loadMetadata st (Config.MetadataPath dir) = Some meta /\
  ((exists target, readlink st (Config.LatestSnapshotPath (cacheDir m)) = Some target /\
      dir = if negb (OS.IsAbs target)
            then OS.Join (Config.SnapshotsDir (cacheDir m)) target else target) \/
   (exists l d, ListSnapshots m st = Ok l /\ In d l /\ dir = GetSnapshotDir m d)).
Proof.
  unfold GetLatestSnapshot.
  assert (Hfb : match ListSnapshots m st with
                | Err e => Err e
                | Ok snapshots =>
                    match sortDesc snapshots with
                    | [] => Err ErrNoSnapshots
                    | latestDate :: _ =>
                        match loadMetadata st (Config.MetadataPath (GetSnapshotDir m latestDate)) with
                        | None => Err ErrLoadMetadata
                        | Some meta => Ok (GetSnapshotDir m latestDate, meta)
                        end
                    end
                end = Ok (dir, meta) ->
                loadMetadata st (Config.MetadataPath dir) = Some meta /\
                exists l d, ListSnapshots m st = Ok l /\ In d l /\ dir = GetSnapshotDir m d).
  { destruct (ListSnapshots m st) as [l|]; [|discriminate].
    destruct (sortDesc l) as [|d rest] eqn:Es; [discriminate|].
    destruct (loadMetadata st _) as [meta'|] eqn:El; [|discriminate].
    intros [= <- <-]. split; [exact El|]. exists l, d. split; [reflexivity|].
    split; [|reflexivity]. apply sortDesc_head in Es as [Hin _]. exact Hin. }
  cbv zeta. destruct (readlink st _) as [target|] eqn:Erl.
  - set (tg := if negb (OS.IsAbs target)
                then OS.Join (Config.SnapshotsDir (cacheDir m)) target else target).
    destruct (loadMetadata st (Config.MetadataPath tg)) as [meta'|] eqn:El.
    + intros [= <- <-]. split; [exact El|]. left. exists target. auto.
    + intros H. apply Hfb in H as [H1 H2]. auto.
  - intros H. apply Hfb in H as [H1 H2]. auto.
Qed.

(** The store whose latest link names a snapshot with metadata. *)
Lemma X11_witness :
  loadMetadata storeMisplacedHyphens (Config.MetadataPath "/cache/snapshots/2025-01-15")
  = Some (metaOf "2025-01-15").
Proof.
  exact (proj1 (X11_GetLatestSnapshot_returns_loaded_metadata exampleManager
                  storeMisplacedHyphens _ _ eq_refl)).
Defined.

End SnapshotCorrect.

(** ** The update command *)

Section UpdateCorrect.
Import Index Ripestat Cli.

Section Update.
Context `{Netip.IPv6Text} `{Snapshot.MetadataJSON}.

Lemma InsertCIDR_accepted t prefix cc :
  Root t <> None ->
  match InsertCIDR t prefix cc with
  | Ok t' => accepted (IsIPv6 t) prefix = true /\ IsIPv6 t' = IsIPv6 t /\ Root t' <> None
  | Err _ => accepted (IsIPv6 t) prefix = false
  end.
Proof.
  intros Hr. unfold InsertCIDR, accepted.
  destruct (Netip.ParsePrefix prefix) as [p|]; [|reflexivity].
  unfold Insert. cbn [Netip.Masked Netip.PAddr Netip.Is6].
  destruct (Bool.eqb (Netip.Is6 (Netip.PAddr p)) (IsIPv6 t)); cbn [negb]; [|reflexivity].
  destruct (Root t); [|contradiction]. cbn [IsIPv6 Root]. repeat split. discriminate.
Qed.

Lemma insertPrefixes_count prefixes cc :
  forall t c, Root t <> None ->
    let out := insertPrefixes (t, c) prefixes cc in
    snd out = c + Z.of_nat (length (List.filter (accepted (IsIPv6 t)) prefixes)) /\
    IsIPv6 (fst out) = IsIPv6 t /\ Root (fst out) <> None.
Proof.
  unfold insertPrefixes.
  induction prefixes as [|s l IH]; intros t c Hr; cbn [fold_left List.filter length].
  - cbn. repeat split; auto. lia.
  - pose proof (InsertCIDR_accepted t s cc Hr) as Ha.
    destruct (InsertCIDR t s cc) as [t'|e].
    + destruct Ha as (Ha & Hf & Hr'). rewrite Ha. cbn [length].
      destruct (IH t' (c + 1) Hr') as (Hc & Hf' & Hr''). cbv zeta in *.
      rewrite Hf in Hc, Hf'. repeat split; auto. rewrite Hc. lia.
    + rewrite Ha. apply IH. exact Hr.
Qed.

Lemma buildIndex_count isIPv6 rs :
  snd (buildIndex isIPv6 rs) =
  Z.of_nat (length (List.filter (accepted isIPv6) (fetchedPrefixes isIPv6 rs))).
Proof.
  unfold buildIndex, fetchedPrefixes.
  assert (G : forall acc : Trie * Z,
             Root (fst acc) <> None -> IsIPv6 (fst acc) = isIPv6 ->
             snd (fold_left
                    (fun acc result =>
                       match result with
                       | None => acc
                       | Some r => insertPrefixes acc (if isIPv6 then IPv6 r else IPv4 r)
                                                  (CountryCode r)
                       end) rs acc)
             = snd acc +
               Z.of_nat (length (List.filter (accepted isIPv6)
                  (concat (map (fun o => match o with
                                         | Some r => if isIPv6 then IPv6 r else IPv4 r
                                         | None => []
                                         end) rs))))).
  { induction rs as [|[r|] rs IH]; intros [t c] Hr Hf; cbn [fold_left map concat fst snd] in *.
    - cbn. lia.
    - destruct (insertPrefixes_count (if isIPv6 then IPv6 r else IPv4 r) (CountryCode r) t c Hr)
        as (Hc & Hf' & Hr'). cbv zeta in *.
      destruct (insertPrefixes (t, c) _ _) as [t' c'] eqn:E. cbn [fst snd] in *.
      rewrite IH by (cbn; congruence). cbn [snd].
      rewrite List.filter_app, length_app, Hc, Hf. lia.
    - cbn [app]. apply IH; assumption. }
  rewrite G by (cbn; congruence). cbn [snd]. lia.
Qed.

(** Whatever the order of the goroutines, the results are the outcomes of
    the fetches, by index. *)
Lemma downloadStep_length env codes dir d idx :
  length (results (downloadStep env codes dir d idx)) = length (results d).
Proof.
  unfold downloadStep. destruct (codes !! idx); [|reflexivity].
  destruct (fetch env idx s); cbn [results]; [apply length_insert|reflexivity].
Qed.

Lemma download_results_lookup env codes dir sch :
  forall d idx,
    length (results d) = length codes ->
    results (fold_left (downloadStep env codes dir) sch d) !! idx =
    match fetched env codes !! idx with
    | Some (Some r) => if bool_decide (idx ∈ sch) then Some (Some r) else results d !! idx
    | _ => results d !! idx
    end.
Proof.
  induction sch as [|j sch IH]; intros d idx Hlen; cbn [fold_left].
  - destruct (fetched env codes !! idx) as [[r|]|]; [|reflexivity|reflexivity].
    rewrite bool_decide_eq_false_2 by (apply not_elem_of_nil). reflexivity.
  - rewrite IH by (rewrite downloadStep_length; exact Hlen).
    unfold fetched. rewrite list_lookup_imap.
    destruct (codes !! idx) as [cc|] eqn:Ecc; cbn [fmap option_fmap option_map].
    2: { unfold downloadStep. destruct (codes !! j) as [cj|] eqn:Ej; [|reflexivity].
         destruct (fetch env j cj); [|reflexivity]. cbn [results].
         assert (j <> idx) by (intros ->; congruence).
         rewrite list_lookup_insert_ne by assumption. reflexivity. }
    destruct (fetch env idx cc) as [r|e] eqn:Ef.
    + destruct (decide (idx = j)) as [->|Hne].
      * rewrite (bool_decide_eq_true_2 (j ∈ j :: sch)) by (apply list_elem_of_here).
        unfold downloadStep. rewrite Ecc, Ef. cbn [results].
        rewrite list_lookup_insert_eq by (rewrite Hlen; eapply lookup_lt_Some; eauto).
        destruct (bool_decide (j ∈ sch)); reflexivity.
      * assert (Hs : results (downloadStep env codes dir d j) !! idx = results d !! idx).
        { unfold downloadStep. destruct (codes !! j) as [cj|]; [|reflexivity].
          destruct (fetch env j cj); [|reflexivity]. cbn [results].
          rewrite list_lookup_insert_ne by congruence. reflexivity. }
        rewrite Hs.
        destruct (bool_decide (idx ∈ sch)) eqn:Eb.
        -- apply bool_decide_eq_true in Eb.
           rewrite bool_decide_eq_true_2 by (apply list_elem_of_further; exact Eb). reflexivity.
        -- apply bool_decide_eq_false in Eb.
           rewrite bool_decide_eq_false_2; [reflexivity|].
           intros Hin. apply elem_of_cons in Hin as [?|?]; [congruence|contradiction].
    + unfold downloadStep. destruct (codes !! j) as [cj|] eqn:Ej; [|reflexivity].
      destruct (fetch env j cj) as [rj|] eqn:Efj; [|reflexivity]. cbn [results].
      destruct (decide (j = idx)) as [->|Hne]; [congruence|].
      rewrite list_lookup_insert_ne by assumption. reflexivity.
Qed.

Lemma download_results env codes dir fs :
  Permutation (schedule env) (seq 0 (length codes)) ->
  results (download env codes dir fs) = fetched env codes.
Proof.
  intros Hp. apply list_eq. intros idx. unfold download.
  rewrite download_results_lookup by (cbn; apply length_replicate). cbn [results].
  destruct (fetched env codes !! idx) as [[r|]|] eqn:Ef.
  - assert (Hlt : (idx < length codes)%nat).
    { apply lookup_lt_Some in Ef. unfold fetched in Ef. rewrite length_imap in Ef. exact Ef. }
    rewrite bool_decide_eq_true_2; [reflexivity|].
    apply list_elem_of_In. eapply Permutation_in; [symmetry; exact Hp|].
    apply in_seq. lia.
  - apply lookup_lt_Some in Ef as Hlt. unfold fetched in Hlt. rewrite length_imap in Hlt.
    rewrite lookup_replicate_2 by exact Hlt. reflexivity.
  - apply lookup_ge_None in Ef. unfold fetched in Ef. rewrite length_imap in Ef.
    apply lookup_ge_None. rewrite length_replicate. exact Ef.
Qed.

End Update.

(** *** The metadata written by a build *)

Lemma string_app_assoc (a b c : string) : ((a ++ b) ++ c = a ++ (b ++ c))%string.
Proof.
  induction a as [|x a IH]; [reflexivity|].
  change (String x ((a ++ b) ++ c) = String x (a ++ (b ++ c)))%string. f_equal. exact IH.
Qed.

Lemma string_length_app (a b : string) :
  String.length (a ++ b)%string = (String.length a + String.length b)%nat.
Proof.
  induction a as [|x a IH]; [reflexivity|].
  change (S (String.length (a ++ b)%string) = S (String.length a + String.length b)). f_equal. exact IH.
Qed.

Lemma latest_is_not_metadata cacheDir date :
  Config.LatestSnapshotPath cacheDir <>
  Config.MetadataPath (Config.SnapshotDir cacheDir date).
Proof.
  unfold Config.LatestSnapshotPath, Config.MetadataPath, Config.SnapshotDir, OS.Join.
  rewrite !string_app_assoc. intros E.
  repeat (apply String.app_inj in E).
  apply (f_equal String.length) in E.
  rewrite !string_length_app in E. cbn in E. lia.
Qed.

Section UpdateMetadata.
Context `{Netip.IPv6Text} `{Snapshot.MetadataJSON}.

(** C10: when [runUpdate] makes a build and returns without error, the
    metadata file of the snapshot holds a record whose countries count
    is the number of requested country codes and whose countries list is
    the requested list, whatever fetches failed, while its two prefix
    counts are the numbers of fetched prefixes of each family that
    [InsertCIDR] accepted. *)
Theorem C10_metadata_lists_every_requested_country
        (env : Env) (fs fs' : OS.FS) (codes : list string) :
  let snapshotDate := if String.eqb (timeFlag env) "" then today env else timeFlag env in
  let mgr := Snapshot.mkManager (cacheDir env) in
  let snapshotDir := Snapshot.GetSnapshotDir mgr snapshotDate in
  countryCodes env = Ok codes ->
  Permutation (schedule env) (seq 0 (length codes)) ->
  (* a build is made: forced, or no snapshot of that date yet *)
  negb (force env) && Snapshot.SnapshotExists mgr fs snapshotDate = false ->
  (* and it completes successfully *)
  runUpdate env fs = (fs', None) ->
  exists meta,
    OS.files fs' !! Config.MetadataPath snapshotDir = Some (Snapshot.marshalIndent meta) /\
    Snapshot.CountriesCount meta = Z.of_nat (length codes) /\
    Snapshot.Countries meta = codes /\
    Snapshot.PrefixesV4 meta =
      Z.of_nat (length (List.filter (accepted false)
                                    (fetchedPrefixes false (fetched env codes)))) /\
    Snapshot.PrefixesV6 meta =
      Z.of_nat (length (List.filter (accepted true)
                                    (fetchedPrefixes true (fetched env codes)))).
Proof.
  intros snapshotDate mgr snapshotDir Hcodes Hperm Hbuild Hrun.
  unfold runUpdate in Hrun. fold snapshotDate mgr in Hrun.
  rewrite Hbuild, Hcodes in Hrun.
  destruct (negb (mkdirOk env)); [discriminate|].
  destruct (keepRaw env && negb (rawDirOk env)); [discriminate|].
  fold snapshotDir in Hrun.
  rewrite (download_results env codes snapshotDir fs Hperm) in Hrun.
  pose proof (buildIndex_count false (fetched env codes)) as H4.
  pose proof (buildIndex_count true (fetched env codes)) as H6.
  destruct (buildIndex false (fetched env codes)) as [v4Trie v4Count].
  destruct (buildIndex true (fetched env codes)) as [v6Trie v6Count].
  cbn [snd] in H4, H6.
  destruct (IndexFile.SaveIndex _ _ _ _ _ _ _) as [fs1 [e|]]; [discriminate|].
  set (meta := buildMetadata env snapshotDate codes (fetched env codes) v4Count v6Count) in *.
  unfold Snapshot.Save, OS.createAndWrite in Hrun.
  assert (Hwritten : forall fs2,
             (let '(fs3, _) := Snapshot.SetLatest mgr
                                 (OS.setFile fs1 (Config.MetadataPath snapshotDir)
                                             (Snapshot.marshalIndent meta))
                                 snapshotDate (symlinkOk env) in
              (fs3, @None error)) = (fs2, None) ->
             OS.files fs2 !! Config.MetadataPath snapshotDir
             = Some (Snapshot.marshalIndent meta)).
  { intros fs2. unfold Snapshot.SetLatest.
    destruct (symlinkOk env); intros [= <-]; cbn [OS.files OS.setFile];
      (rewrite lookup_delete_ne by apply latest_is_not_metadata);
      apply lookup_insert_eq. }
  exists meta. split.
  - destruct (faultMeta env) as [| |n]; [apply Hwritten; exact Hrun|discriminate|].
    destruct (n <? length (Snapshot.marshalIndent meta))%nat; [discriminate|].
    apply Hwritten; exact Hrun.
  - cbn [meta buildMetadata Snapshot.CountriesCount Snapshot.Countries
         Snapshot.PrefixesV4 Snapshot.PrefixesV6]. auto.
Qed.

End UpdateMetadata.

Lemma C10_witness :
  exists fs' meta,
    @Cli.runUpdate TrieSpec.ipv4Only Cli.exampleJSON Cli.exampleEnv OS.emptyFS = (fs', None) /\
    OS.files fs' !! "/cache/snapshots/2025-01-15/metadata.json"%string
      = Some (@Snapshot.marshalIndent Cli.exampleJSON meta) /\
    Snapshot.CountriesCount meta = 2 /\
    Snapshot.Countries meta = ["de"; "us"]%string /\
    Snapshot.PrefixesV4 meta = 1 /\
    Snapshot.PrefixesV6 meta = 0.
Proof.
  destruct (@Cli.runUpdate TrieSpec.ipv4Only Cli.exampleJSON Cli.exampleEnv OS.emptyFS)
    as [fs' e] eqn:Hrun.
  assert (He : e = None).
  { change e with (snd (fs', e)). rewrite <- Hrun. vm_compute. reflexivity. }
  subst e.
  destruct (@C10_metadata_lists_every_requested_country TrieSpec.ipv4Only Cli.exampleJSON
              Cli.exampleEnv OS.emptyFS fs' ["de"; "us"]%string eq_refl)
    as (meta & Hfile & Hc & Hl & H4 & H6).
  - cbn. apply perm_swap.
  - reflexivity.
  - exact Hrun.
  - exists fs', meta. split; [reflexivity|]. split; [exact Hfile|].
    split; [exact Hc|]. split; [exact Hl|]. split; [exact H4|exact H6].
Defined.

Section UpdateRuns.
Context `{Netip.IPv6Text} `{Snapshot.MetadataJSON}.



(** *** The order of the downloads *)

Lemma downloadStep_dfs env codes dir d1 d2 idx :
  dfs d1 = dfs d2 ->
  dfs (downloadStep env codes dir d1 idx) = dfs (downloadStep env codes dir d2 idx).
Proof.
  intros E. unfold downloadStep. destruct (codes !! idx) as [cc|]; [|exact E].
  destruct (fetch env idx cc); cbn [dfs]; [|exact E]. rewrite E. reflexivity.
Qed.

Lemma download_dfs_congr env codes dir l :
  forall d1 d2, dfs d1 = dfs d2 ->
    dfs (fold_left (downloadStep env codes dir) l d1) =
    dfs (fold_left (downloadStep env codes dir) l d2).
Proof.
  induction l as [|x l IH]; intros d1 d2 E; [exact E|].
  cbn [fold_left]. apply IH. apply downloadStep_dfs. exact E.
Qed.

Lemma string_app_cancel_r (a b c : string) : (a ++ c = b ++ c)%string -> a = b.
Proof.
  revert b. induction a as [|x a IH]; intros [|y b] E.
  - reflexivity.
  - change (c = String y (b ++ c))%string in E.
    apply (f_equal String.length) in E. cbn [String.length] in E.
    rewrite string_length_app in E. lia.
  - change (String x (a ++ c) = c)%string in E.
    apply (f_equal String.length) in E. cbn [String.length] in E.
    rewrite string_length_app in E. lia.
  - change (String x (a ++ c) = String y (b ++ c))%string in E.
    injection E as -> E. f_equal. apply IH. exact E.
Qed.

Lemma rawPath_inj dir a b :
  OS.Join (Config.RawDir dir) (a ++ ".json") = OS.Join (Config.RawDir dir) (b ++ ".json") ->
  a = b.
Proof.
  unfold OS.Join. intros E. apply String.app_inj in E.
  change (String "/" (a ++ ".json") = String "/" (b ++ ".json"))%string in E.
  injection E as E. eapply string_app_cancel_r; eauto.
Qed.

Lemma downloadStep_swap env codes dir d x y :
  (keepRaw env = true -> NoDup codes) ->
  dfs (downloadStep env codes dir (downloadStep env codes dir d x) y) =
  dfs (downloadStep env codes dir (downloadStep env codes dir d y) x).
Proof.
  intros Hnd. destruct (Nat.eq_dec x y) as [->|Hxy]; [reflexivity|].
  unfold downloadStep.
  destruct (codes !! x) as [cx|] eqn:Ex; destruct (codes !! y) as [cy|] eqn:Ey;
    try reflexivity.
  destruct (fetch env x cx) as [rx|], (fetch env y cy) as [ry|]; cbn [dfs];
    try reflexivity.
  destruct (keepRaw env); [|reflexivity].
  unfold OS.setFile. cbn [OS.files OS.links]. f_equal.
  apply insert_insert_ne. intros E. apply rawPath_inj in E. subst cy.
  apply Hxy. eapply NoDup_lookup; eauto.
Qed.

Lemma download_dfs_perm env codes dir sch1 sch2 :
  (keepRaw env = true -> NoDup codes) ->
  Permutation sch1 sch2 ->
  forall d1 d2, dfs d1 = dfs d2 ->
    dfs (fold_left (downloadStep env codes dir) sch1 d1) =
    dfs (fold_left (downloadStep env codes dir) sch2 d2).
Proof.
  intros Hnd Hp. induction Hp as [|x l l' Hp IH|x y l|l l' l'' Hp1 IH1 Hp2 IH2];
    intros d1 d2 E.
  - exact E.
  - cbn [fold_left]. apply IH. apply downloadStep_dfs. exact E.
  - cbn [fold_left]. apply download_dfs_congr.
    rewrite (downloadStep_swap env codes dir d1 y x Hnd).
    apply downloadStep_dfs. apply downloadStep_dfs. exact E.
  - rewrite (IH1 d1 d2 E). apply IH2. reflexivity.
Qed.

(** X13: the outcome of the update command does not depend on the order
    in which the download goroutines take the mutex: with every
    goroutine run once in either order, and with raw files kept only for
    country codes that are pairwise distinct, the files left behind and
    the error returned are the same. *)
Theorem X13_update_independent_of_download_order (env : Env) (sch : list nat)
        (fs : OS.FS) (codes : list string) :
  countryCodes env = Ok codes ->
  Permutation (schedule env) (seq 0 (length codes)) ->
  Permutation sch (seq 0 (length codes)) ->
  (keepRaw env = true -> NoDup codes) ->
  runUpdate (withSchedule env sch) fs = runUpdate env fs.
Proof.
  intros Hcodes Hp1 Hp2 Hnd. unfold runUpdate.
  cbn [withSchedule force timeFlag today cacheDir countryCodes mkdirOk keepRaw rawDirOk
       faultV4 faultV6 faultMeta symlinkOk].
  destruct (negb (force env) && _); [reflexivity|]. rewrite Hcodes.
  destruct (negb (mkdirOk env)); [reflexivity|].
  destruct (keepRaw env && negb (rawDirOk env)); [reflexivity|].
  set (dir := Snapshot.GetSnapshotDir _ _).
  assert (Hr : results (download (withSchedule env sch) codes dir fs) =
               results (download env codes dir fs)).
  { rewrite (download_results env codes dir fs Hp1).
    rewrite (download_results (withSchedule env sch) codes dir fs Hp2). reflexivity. }
  assert (Hd : dfs (download (withSchedule env sch) codes dir fs) =
               dfs (download env codes dir fs)).
  { unfold download. cbn [withSchedule schedule].
    change (downloadStep (withSchedule env sch) codes dir)
      with (downloadStep env codes dir).
    apply download_dfs_perm; [exact Hnd| |reflexivity].
    rewrite Hp2, Hp1. reflexivity. }
  rewrite Hr, Hd. reflexivity.
Qed.

End UpdateRuns.


(** The example run with its two downloads in the other order. *)
Lemma X13_witness :
  @runUpdate TrieSpec.ipv4Only exampleJSON (withSchedule exampleEnv [0; 1]%nat) OS.emptyFS =
  @runUpdate TrieSpec.ipv4Only exampleJSON exampleEnv OS.emptyFS.
Proof.
  apply (@X13_update_independent_of_download_order TrieSpec.ipv4Only exampleJSON
           exampleEnv [0; 1]%nat OS.emptyFS ["de"; "us"]%string).
  - reflexivity.
  - cbn. apply perm_swap.
  - reflexivity.
  - intros _. apply (bool_decide_unpack _). vm_compute. exact I.
Defined.

End UpdateCorrect.

(** ** From the update to the lookup *)

Section UpdateIndexCorrect.
Import Index TrieSpec Codec UpdateSpec.

(** *** The length of the text of an IPv4 prefix *)






Section UpdateIndex.
Context `{Netip.IPv6Text} `{Snapshot.MetadataJSON}.

(** *** The entries that InsertCIDR inserts *)



(** *** The build as a sequence of inserts *)





(** *** The files of a snapshot *)





End UpdateIndex.


End UpdateIndexCorrect.

(** ** The HTTP client: backoff and retries *)

Section ClientCorrect.
Import Client.

(** *** The backoff *)

Lemma wrap64_small z : - 2 ^ 63 <= z < 2 ^ 63 -> wrap64 z = z.
Proof. intros Hz. unfold wrap64. rewrite Z.mod_small by lia. lia. Qed.

Lemma pow2_bounds s : 0 <= s <= 33 -> 1 <= 2 ^ s <= 2 ^ 33.
Proof.
  intros Hs. split.
  - change 1 with (2 ^ 0). apply Z.pow_le_mono_r; lia.
  - apply Z.pow_le_mono_r; lia.
Qed.

Lemma calculateBackoff_range int63n attempt :
  (forall n, 0 < n -> 0 <= int63n n < n) ->
  1 <= attempt <= 34 ->
  let base := Z.min (BaseBackoff * 2 ^ (attempt - 1)) MaxBackoff in
  exists r, calculateBackoff int63n attempt = Some r /\
            base <= r < base + base / 4 /\ r <= MaxBackoff + MaxBackoff / 4.
Proof.
  intros Hrnd Ha base. unfold calculateBackoff.
  rewrite (Z.mod_small (attempt - 1)) by lia.
  destruct (Z.ltb_spec (attempt - 1) 64); [|lia].
  pose proof (pow2_bounds (attempt - 1) ltac:(lia)) as Hp.
  change (2 ^ 33) with 8589934592 in Hp.
  rewrite (wrap64_small (2 ^ (attempt - 1))) by lia.
  unfold BaseBackoff, MaxBackoff in *.
  rewrite (wrap64_small (1000000000 * 2 ^ (attempt - 1))) by lia.
  set (b := if 1000000000 * 2 ^ (attempt - 1) >? 30000000000 then 30000000000
            else 1000000000 * 2 ^ (attempt - 1)).
  assert (Hb : b = base /\ 1000000000 <= b <= 30000000000).
  { unfold b, base. destruct (Z.gtb_spec (1000000000 * 2 ^ (attempt - 1)) 30000000000); lia. }
  destruct Hb as [Hb Hr]. clearbody b. subst b.
  assert (Hq : Z.quot base 4 = base / 4) by (apply Z.quot_div_nonneg; lia).
  rewrite Hq.
  assert (Hd : 250000000 <= base / 4 <= 7500000000).
  { split; [apply Z.div_le_lower_bound; lia|apply Z.div_le_upper_bound; lia]. }
  destruct (Z.leb_spec (base / 4) 0); [lia|].
  pose proof (Hrnd (base / 4) ltac:(lia)) as Hj.
  eexists. split; [reflexivity|].
  rewrite wrap64_small by lia.
  change (30000000000 / 4) with 7500000000. lia.
Qed.

Lemma calculateBackoff_nonpositive int63n attempt :
  - 2 ^ 63 <= attempt <= 0 -> calculateBackoff int63n attempt = None.
Proof.
  intros Ha. unfold calculateBackoff.
  assert (Hs : (attempt - 1) mod 2 ^ 64 = attempt - 1 + 2 ^ 64).
  { symmetry. apply (Z.mod_unique_pos _ _ (-1)); lia. }
  rewrite Hs. destruct (Z.ltb_spec (attempt - 1 + 2 ^ 64) 64); [lia|].
  rewrite Z.mul_0_r. reflexivity.
Qed.

(** X14: for the attempts 1 to 34 [calculateBackoff] returns the base
    delay, one second doubled with every attempt and capped at thirty
    seconds, plus a jitter below a quarter of it, so never more than 37.5
    seconds; for an attempt that is not positive the argument of the random
    draw is 0 and the call panics. *)
Theorem X14_calculateBackoff_bounds (int63n : Z -> Z) (attempt : Z) :
  (forall n, 0 < n -> 0 <= int63n n < n) ->
  (1 <= attempt <= 34 ->
     let base := Z.min (BaseBackoff * 2 ^ (attempt - 1)) MaxBackoff in
     exists r, calculateBackoff int63n attempt = Some r /\
               base <= r < base + base / 4 /\ r <= MaxBackoff + MaxBackoff / 4) /\
  (- 2 ^ 63 <= attempt <= 0 -> calculateBackoff int63n attempt = None).
Proof.
  intros Hrnd. split.
  - apply calculateBackoff_range. exact Hrnd.
  - apply calculateBackoff_nonpositive.
Qed.

(** The tenth attempt of the package's test, with the draw at a half. *)
Lemma X14_witness :
  calculateBackoff (fun n => n / 2) 10 = Some 33750000000 /\
  exists r, calculateBackoff (fun n => n / 2) 3 = Some r /\ 4000000000 <= r < 5000000000.
Proof.
  split; [reflexivity|].
  assert (Hrnd : forall n, 0 < n -> 0 <= n / 2 < n).
  { intros n Hn. split; [apply Z.div_pos; lia|apply Z.div_lt; lia]. }
  destruct (proj1 (X14_calculateBackoff_bounds (fun n => n / 2) 3 Hrnd) ltac:(lia))
    as (r & Hr & Hb & _).
  exists r. split; [exact Hr|]. exact Hb.
Defined.

(** *** The retry loop *)

Section GetRetries.
Variables R E : Type.
Implicit Type w : World R E.

Lemma backoff_of_attempt w (i : nat) :
drawsInRange w -> (1 <= i <= 3)%nat ->
exists b, calculateBackoff (draw w i) (Z.of_nat i) = Some b /\
          BaseBackoff * 2 ^ (Z.of_nat i - 1) <= b /\
          4 * b < 5 * (BaseBackoff * 2 ^ (Z.of_nat i - 1)).
Proof.
intros Hd Hi.
destruct (calculateBackoff_range (draw w i) (Z.of_nat i) (Hd i) ltac:(lia))
  as (b & Hb & Hr & _).
exists b. split; [exact Hb|].
assert (Hm : Z.min (BaseBackoff * 2 ^ (Z.of_nat i - 1)) MaxBackoff =
             BaseBackoff * 2 ^ (Z.of_nat i - 1)).
{ unfold BaseBackoff, MaxBackoff.
  assert (Hc : i = 1%nat \/ i = 2%nat \/ i = 3%nat) by lia.
  destruct Hc as [-> | [-> | ->]]; reflexivity. }
rewrite Hm in Hr. destruct Hr as [H1 H2]. split; [exact H1|].
pose proof (Z.mul_div_le (BaseBackoff * 2 ^ (Z.of_nat i - 1)) 4 ltac:(lia)). lia.
Qed.

(** What every call of [Get] does. *)
Lemma Get_runs w :
drawsInRange w ->
exists o tr,
  Get w = Some (o, tr) /\
  (1 <= requests tr <= 4)%nat /\ S (length (waits tr)) = requests tr /\
  (forall i b, waits tr !! i = Some b ->
     BaseBackoff * 2 ^ Z.of_nat i <= b /\ 4 * b < 5 * (BaseBackoff * 2 ^ Z.of_nat i)) /\
  match o with
  | Response r => doRequest w (pred (requests tr)) = inl r /\
                  failsBefore w (pred (requests tr))
  | AfterRetries e => requests tr = 4%nat /\ doRequest w 3 = inr e /\ failsBefore w 4
  | CtxErr => ~ neverDone w
  end.
Proof.
intros Hd.
destruct (backoff_of_attempt w 1 Hd ltac:(lia)) as (b1 & Hb1 & Hl1 & Hu1).
destruct (backoff_of_attempt w 2 Hd ltac:(lia)) as (b2 & Hb2 & Hl2 & Hu2).
destruct (backoff_of_attempt w 3 Hd ltac:(lia)) as (b3 & Hb3 & Hl3 & Hu3).
change (Z.of_nat 1 - 1) with 0 in *. change (Z.of_nat 2 - 1) with 1 in *.
change (Z.of_nat 3 - 1) with 2 in *.
assert (Hw : forall l : list Z,
           (l = [] \/ l = [b1] \/ l = [b1; b2] \/ l = [b1; b2; b3]) ->
           forall i b, l !! i = Some b ->
             BaseBackoff * 2 ^ Z.of_nat i <= b /\
             4 * b < 5 * (BaseBackoff * 2 ^ Z.of_nat i)).
{ intros l Hl i b Hi.
  destruct Hl as [-> | [-> | [-> | ->]]];
    repeat (destruct i as [|i]; [injection Hi as <-; auto|]); discriminate. }
unfold Get. change (Z.to_nat (MaxRetries + 1)) with 4%nat.
cbn [getLoop Nat.ltb Nat.leb requests waits app].
rewrite Hb1, Hb2, Hb3.
repeat match goal with
       | |- context [match doRequest w ?i with _ => _ end] =>
           let E := fresh "E" in destruct (doRequest w i) as [?|?] eqn:E
       | |- context [if errAfter w ?i then _ else _] =>
           let A := fresh "A" in destruct (errAfter w i) eqn:A
       | |- context [if doneInWait w ?i then _ else _] =>
           let D := fresh "D" in destruct (doneInWait w i) eqn:D
       end;
  (eexists _, _; split; [reflexivity|]; cbn [requests waits length pred];
   unfold failsBefore; repeat split;
   first [lia | reflexivity | assumption
         |match goal with
          | Hi : ?l !! _ = Some _ |- _ =>
              destruct (Hw l ltac:(auto 6) _ _ Hi); assumption
          end
         |intros j Hj; repeat (destruct j as [|j]; [solve [eauto]|]); lia
         |intros Hn;
          first [destruct (Hn 0%nat); congruence | destruct (Hn 1%nat); congruence
                |destruct (Hn 2%nat); congruence | destruct (Hn 3%nat); congruence]]).
Qed.

(** X15: [Get] makes between one and four requests and sleeps before every
  request but the first, one second doubled with every retry plus a
  jitter below a quarter of it.  A response it returns is that of its
  last request, all requests before it having failed; the error after
  retries is that of the fourth request.  Under a context that is never
  done it returns the response of the first attempt that succeeds among
  the first four, after that many failures, and the error after retries
  when all four fail. *)
Theorem X15_Get_retries_with_backoff w :
drawsInRange w ->
(exists o tr,
   Get w = Some (o, tr) /\
   (1 <= requests tr <= 4)%nat /\ S (length (waits tr)) = requests tr /\
   (forall i b, waits tr !! i = Some b ->
      BaseBackoff * 2 ^ Z.of_nat i <= b /\ 4 * b < 5 * (BaseBackoff * 2 ^ Z.of_nat i)) /\
   match o with
   | Response r => doRequest w (pred (requests tr)) = inl r /\
                   failsBefore w (pred (requests tr))
   | AfterRetries e => requests tr = 4%nat /\ doRequest w 3 = inr e /\ failsBefore w 4
   | CtxErr => ~ neverDone w
   end) /\
(neverDone w ->
 (forall k r, (k <= 3)%nat -> failsBefore w k -> doRequest w k = inl r ->
    exists tr, Get w = Some (Response r, tr) /\ requests tr = S k) /\
 (failsBefore w 4 ->
    exists e tr, doRequest w 3 = inr e /\ Get w = Some (AfterRetries e, tr) /\
                 requests tr = 4%nat)).
Proof.
intros Hd. pose proof (Get_runs w Hd) as Hruns. split; [exact Hruns|].
destruct Hruns as ([r'| |e'] & tr & Hg & Hreq & _ & _ & Ho); intros Hn.
- destruct Ho as [Hr Hf]. split.
  + intros k r Hk Hfk Hrk. exists tr.
    assert (Hidx : pred (requests tr) = k).
    { destruct (Nat.lt_trichotomy (pred (requests tr)) k) as [Hlt|[Heq|Hgt]].
      - destruct (Hfk _ Hlt) as [e He]. congruence.
      - exact Heq.
      - destruct (Hf _ Hgt) as [e He]. congruence. }
    rewrite Hidx in Hr. split; [|lia]. congruence.
  + intros Hf4. destruct (Hf4 (pred (requests tr)) ltac:(lia)) as [e He]. congruence.
- contradiction.
- destruct Ho as (H4 & He & Hf). split.
  + intros k r Hk Hfk Hrk. destruct (Hf k ltac:(lia)) as [e He']. congruence.
  + intros _. exists e', tr. auto.
Qed.

End GetRetries.

(** The server of the package's test: two failures, then a response. *)
Lemma X15_witness :
  let w := {| doRequest := fun i => if (i <? 2)%nat then inr "HTTP 500"%string
                                    else inl "ok"%string;
              doneInWait := fun _ => false; errAfter := fun _ => false;
              draw := fun _ n => n / 2 |} in
  exists tr, Get w = Some (Response "ok"%string, tr) /\ requests tr = 3%nat.
Proof.
  intros w.
  assert (Hd : drawsInRange w).
  { intros i n Hn. cbn. split; [apply Z.div_pos; lia|apply Z.div_lt; lia]. }
  assert (Hn : neverDone w) by (intros i; split; reflexivity).
  apply (proj1 (proj2 (X15_Get_retries_with_backoff string string w Hd) Hn) 2%nat).
  - lia.
  - intros j Hj. exists "HTTP 500"%string.
    assert (j = 0 \/ j = 1)%nat as [-> | ->] by lia; reflexivity.
  - reflexivity.
Defined.

End ClientCorrect.

(** ** The provider cache *)

Section CacheCorrect.
Import ProviderCache.

(** *** The cache of holders *)

Lemma Cleanup_entries c now asn :
  entries (fst (Cleanup c now)) !! asn =
  match entries c !! asn with
  | Some e => if expired now e then None else Some e
  | None => None
  end.
Proof.
  unfold Cleanup. cbn [fst entries].
  destruct (entries c !! asn) as [e|] eqn:E.
  - destruct (expired now e) eqn:Ex.
    + apply map_lookup_filter_None. right. intros e' He'. cbn. congruence.
    + apply map_lookup_filter_Some. auto.
  - apply map_lookup_filter_None. left. exact E.
Qed.

Lemma filter_sizes now (m : gmap Z CacheEntry) :
  (size (filter (fun kv => expired now (snd kv) = false) m) +
   size (filter (fun kv => expired now (snd kv) = true) m) = size m)%nat.
Proof.
  induction m as [|i x m Hi _ IH] using map_first_key_ind.
  - rewrite !map_filter_empty, map_size_empty. reflexivity.
  - rewrite (map_size_insert_None i x m Hi). destruct (expired now x) eqn:Ex.
    + rewrite (map_filter_insert_True (fun kv => expired now (snd kv) = true)) by exact Ex.
      rewrite (map_filter_insert_False (fun kv => expired now (snd kv) = false))
        by (cbn; congruence).
      rewrite (delete_id m i Hi), map_size_insert_None; [lia|].
      apply map_lookup_filter_None. left. exact Hi.
    + rewrite (map_filter_insert_True (fun kv => expired now (snd kv) = false)) by exact Ex.
      rewrite (map_filter_insert_False (fun kv => expired now (snd kv) = true))
        by (cbn; congruence).
      rewrite (delete_id m i Hi), map_size_insert_None; [lia|].
      apply map_lookup_filter_None. left. exact Hi.
Qed.

(** X16: [Cleanup] removes exactly the entries that have expired and
    returns their number: the size goes down by that number, no entry
    that is left has expired, the cache is marked dirty when something was
    removed, and no [Get] at that time or later changes its answer. *)
Theorem X16_Cleanup_removes_only_expired (c : Cache) (now : Z) :
  let c' := fst (Cleanup c now) in
  let removed := snd (Cleanup c now) in
  0 <= removed /\ Size c' + removed = Size c /\
  (forall asn e, entries c' !! asn = Some e ->
     entries c !! asn = Some e /\ ExpiresAt e >= now) /\
  dirty c' = (dirty c || (0 <? removed)) /\
  (forall t asn, now <= t -> Get c' t asn = Get c t asn).
Proof.
  intros c' removed. split; [|split; [|split; [|split]]].
  - unfold removed, Cleanup. cbn [snd]. lia.
  - unfold c', removed, Size, Cleanup. cbn [fst snd entries].
    rewrite <- Nat2Z.inj_add. f_equal. apply filter_sizes.
  - intros asn e H. unfold c' in H. rewrite Cleanup_entries in H.
    destruct (entries c !! asn) as [e0|]; [|discriminate].
    destruct (expired now e0) eqn:Ex; [discriminate|]. injection H as <-.
    split; [reflexivity|]. unfold expired in Ex. rewrite Z.gtb_ltb in Ex.
    apply Z.ltb_ge in Ex. lia.
  - unfold c', removed, Cleanup. cbn [fst snd dirty].
    destruct (Z.gtb_spec (Z.of_nat (size (filter (fun kv => expired now (snd kv) = true)
                                                 (entries c)))) 0) as [Hg|Hg].
    + apply Z.ltb_lt in Hg. rewrite Hg, orb_true_r. reflexivity.
    + apply Z.ltb_ge in Hg. rewrite Hg, orb_false_r. reflexivity.
  - intros t asn Ht. unfold Get, c'. rewrite Cleanup_entries.
    destruct (entries c !! asn) as [e|]; [|reflexivity].
    destruct (expired now e) eqn:Ex; [|reflexivity].
    unfold expired in Ex. rewrite Z.gtb_ltb in Ex. apply Z.ltb_lt in Ex.
    destruct (Z.gtb_spec t (ExpiresAt e)); [reflexivity|lia].
Qed.

(** X17: a holder stored with [Set] is returned by [Get] at every time up
    to the time of the call plus the time to live, and not after it; the
    answers for the other ASNs are unchanged; and a cache made by
    [NewCache] for a number of days between 0 and 106751 has that many
    days as its time to live. *)
Theorem X17_Set_then_Get (c : Cache) (now t asn : Z) (holder : string) :
  Get (Set' c now asn holder) t asn =
    (if t >? now + ttl c then (EmptyString, false) else (holder, true)) /\
  (forall other, other <> asn -> Get (Set' c now asn holder) t other = Get c t other) /\
  (forall p days, 0 <= days <= 106751 -> ttl (NewCache p days) = days * (24 * Hour)) /\
  (forall p days, Size (NewCache p days) = 0 /\ Get (NewCache p days) t asn = (EmptyString, false)).
Proof.
  split; [|split; [|split]].
  - unfold Get, Set'. cbn [entries]. rewrite lookup_insert_eq. reflexivity.
  - intros other Hne. unfold Get, Set'. cbn [entries].
    rewrite lookup_insert_ne by congruence. reflexivity.
  - intros p days Hd. unfold NewCache, Hour. cbn [ttl].
    rewrite (wrap64_small (days * 24)) by lia.
    rewrite wrap64_small by lia. lia.
  - intros p days. split; reflexivity.
Qed.

(** A cache of seven days: a holder stored at time 0 is found after six
    days and no longer after eight, when [Cleanup] removes it. *)
Lemma X16_witness :
  let c := Set' (Set' (NewCache "cache.json" 7) 0 15169 "GOOGLE") (2 * 24 * Hour) 13335 "CLOUDFLARE" in
  Cleanup c (8 * 24 * Hour) =
    ({| entries := {[ 13335 := {| Holder := "CLOUDFLARE"; CachedAt := 2 * 24 * Hour;
                                  ExpiresAt := 9 * 24 * Hour |} ]};
        path := "cache.json"; ttl := 7 * 24 * Hour; dirty := true |}, 1) /\
  Size (fst (Cleanup c (8 * 24 * Hour))) + 1 = Size c.
Proof.
  intros c.
  assert (H : Cleanup c (8 * 24 * Hour) =
    ({| entries := {[ 13335 := {| Holder := "CLOUDFLARE"; CachedAt := 2 * 24 * Hour;
                                  ExpiresAt := 9 * 24 * Hour |} ]};
        path := "cache.json"; ttl := 7 * 24 * Hour; dirty := true |}, 1))
    by (vm_compute; reflexivity).
  split; [exact H|].
  pose proof (X16_Cleanup_removes_only_expired c (8 * 24 * Hour)) as (_ & Hs & _).
  rewrite H in Hs at 2. exact Hs.
Defined.

Lemma X17_witness :
  Get (Set' (NewCache "cache.json" 7) 0 15169 "GOOGLE") (6 * 24 * Hour) 15169 = ("GOOGLE"%string, true) /\
  Get (Set' (NewCache "cache.json" 7) 0 15169 "GOOGLE") (8 * 24 * Hour) 15169 = (EmptyString, false).
Proof.
  split.
  - rewrite (proj1 (X17_Set_then_Get (NewCache "cache.json" 7) 0 (6 * 24 * Hour) 15169 "GOOGLE")).
    reflexivity.
  - rewrite (proj1 (X17_Set_then_Get (NewCache "cache.json" 7) 0 (8 * 24 * Hour) 15169 "GOOGLE")).
    reflexivity.
Defined.

End CacheCorrect.

(** ** The whois answer *)

Section WhoisCorrect.
Import Whois.

(** *** The fields read off a whois answer *)

Section WhoisFields.
Variable ToLower : string -> string.

Local Abbreviation vals keys l :=
(map Value (List.filter (fun r => existsb (String.eqb (ToLower (Key r))) keys) l)).

Lemma firstNonEmpty_cons_empty s l :
firstNonEmpty (s :: l) = if isEmpty s then firstNonEmpty l else s.
Proof. reflexivity. Qed.

Lemma readRecords_fields l :
forall r0,
  fold_left (readRecord ToLower) l r0 =
  {| Resource := Resource r0;
     OrgName := firstNonEmpty (OrgName r0 :: vals ["org-name"; "orgname"]%string l);
     Description := firstNonEmpty (Description r0 :: vals ["descr"; "description"]%string l);
     Country := firstNonEmpty (Country r0 :: vals ["country"]%string l);
     NetName := firstNonEmpty (NetName r0 :: vals ["netname"; "net-name"]%string l) |}.
Proof.
induction l as [|x l IH]; intros r0.
- cbn [List.filter map firstNonEmpty fold_left].
  destruct r0 as [a b c d e]. cbn [Resource OrgName Description Country NetName].
  unfold isEmpty.
  destruct (String.eqb_spec b ""), (String.eqb_spec c ""), (String.eqb_spec d ""),
    (String.eqb_spec e ""); subst; reflexivity.
- cbn [fold_left List.filter existsb]. destruct r0 as [a b c d e].
  unfold readRecord. cbn [Resource OrgName Description Country NetName].
  remember (ToLower (Key x)) as k eqn:Hk. clear Hk.
  repeat match goal with
         | |- context [String.eqb k ?lit] =>
             destruct (String.eqb_spec k lit) as [->|?];
             cbn [String.eqb Ascii.eqb Bool.eqb orb andb]
         end;
    cbn [orb map];
    repeat match goal with
           | |- context [fold_left _ _ (if isEmpty ?s then _ else _)] =>
               destruct (isEmpty s) eqn:?
           end;
    rewrite IH; cbn [Resource OrgName Description Country NetName firstNonEmpty];
    repeat match goal with H : isEmpty _ = _ |- _ => rewrite H end;
    reflexivity.
Qed.

Lemma fold_left_concat {A B : Type} (f : A -> B -> A) (ll : list (list B)) :
forall a, fold_left (fun a l => fold_left f l a) ll a = fold_left f (concat ll) a.
Proof.
induction ll as [|l ll IH]; intros a; [reflexivity|].
cbn [fold_left concat]. rewrite IH, fold_left_app. reflexivity.
Qed.

(** X18: of a whois answer [GetWhois] keeps, for the organisation name,
  the description, the country and the network name, the first value
  that is not empty among the records whose lower-cased key names the
  field, in the order of the record sets, and the empty text when there
  is none; [GetProviderFromWhois] returns the first of organisation name,
  description and network name that is not empty, and fails when all
  three are empty or the request failed. *)
Theorem X18_whois_first_value_wins (resource : string) (records : list (list WhoisRecord)) :
let org := firstNonEmpty (valuesOf ToLower ["org-name"; "orgname"]%string records) in
let descr := firstNonEmpty (valuesOf ToLower ["descr"; "description"]%string records) in
let country := firstNonEmpty (valuesOf ToLower ["country"]%string records) in
let netname := firstNonEmpty (valuesOf ToLower ["netname"; "net-name"]%string records) in
GetWhois ToLower resource (Ok records) =
  Ok {| Resource := resource; OrgName := org; Description := descr;
        Country := country; NetName := netname |} /\
GetProviderFromWhois ToLower resource (Ok records) =
  Ok (let provider := firstNonEmpty [org; descr; netname] in
      if isEmpty provider then None else Some provider) /\
forall e, GetWhois ToLower resource (Err e) = Err e /\
          GetProviderFromWhois ToLower resource (Err e) = Err e.
Proof.
intros org descr country netname.
assert (Hw : GetWhois ToLower resource (Ok records) =
             Ok {| Resource := resource; OrgName := org; Description := descr;
                   Country := country; NetName := netname |}).
{ unfold GetWhois. rewrite fold_left_concat, readRecords_fields. reflexivity. }
split; [exact Hw|]. split; [|intros e; split; reflexivity].
unfold GetProviderFromWhois. rewrite Hw.
cbn [OrgName Description NetName firstNonEmpty].
destruct (isEmpty org) eqn:Eo; cbn [negb]; [|rewrite Eo; reflexivity].
destruct (isEmpty descr) eqn:Ed; cbn [negb]; [|rewrite Ed; reflexivity].
destruct (isEmpty netname) eqn:En; cbn [negb]; [reflexivity|rewrite En; reflexivity].
Qed.

End WhoisFields.

(** Two record sets: the organisation name of the first set is empty, so
    the one of the second set is kept; the keys are matched in lower
    case. *)
Lemma X18_witness :
  GetProviderFromWhois lowerAsciiString "193.0.0.0/21"
    (Ok [[mkWhoisRecord "NetName" "RIPE-NCC"; mkWhoisRecord "org-name" ""];
         [mkWhoisRecord "descr" "RIPE Network Coordination Centre";
          mkWhoisRecord "Org-Name" "Reseaux IP Europeens"]])
  = Ok (Some "Reseaux IP Europeens"%string).
Proof.
  rewrite (proj1 (proj2 (X18_whois_first_value_wins lowerAsciiString "193.0.0.0/21" _))).
  reflexivity.
Defined.

End WhoisCorrect.

(** ** The text output *)

Section OutputCorrect.
Import Output.

(** *** The columns of a line *)

Lemma Split_no_sep c a : hasByte c a = false -> Split a c = [a].
Proof.
  unfold Split. induction a as [|x a IH]; intros H; [reflexivity|].
  cbn [hasByte] in H. apply orb_false_iff in H as [Hx Ha].
  cbn [Netip.fields]. rewrite Hx, (IH Ha). reflexivity.
Qed.

Lemma Split_app_sep c a b :
  hasByte c a = false -> Split (a ++ String c b) c = a :: Split b c.
Proof.
  unfold Split. induction a as [|x a IH]; intros H.
  - change (Netip.fields c (String c b) = EmptyString :: Netip.fields c b).
    cbn [Netip.fields]. rewrite Ascii.eqb_refl. reflexivity.
  - cbn [hasByte] in H. apply orb_false_iff in H as [Hx Ha].
    change (Netip.fields c (String x (a ++ String c b)) = String x a :: Netip.fields c b).
    cbn [Netip.fields]. rewrite Hx, (IH Ha). reflexivity.
Qed.

Lemma hasByte_app c a b : hasByte c (a ++ b) = hasByte c a || hasByte c b.
Proof.
  induction a as [|x a IH]; [reflexivity|].
  change (hasByte c (String x (a ++ b)) = hasByte c (String x a) || hasByte c b).
  cbn [hasByte]. rewrite IH, orb_assoc. reflexivity.
Qed.

Lemma Split_columns (a b c d e : string) :
  Forall (fun s => hasByte tab s = false) [a; b; c; d; e] ->
  Split (a ++ tabs ++ b ++ tabs ++ c ++ tabs ++ d ++ tabs ++ e) tab = [a; b; c; d; e].
Proof.
  intros H. apply Forall_cons in H as [Ha H]. apply Forall_cons in H as [Hb H].
  apply Forall_cons in H as [Hc H]. apply Forall_cons in H as [Hd H].
  apply Forall_cons in H as [He _]. unfold tabs.
  change (Split (a ++ String tab (b ++ String tab (c ++ String tab (d ++ String tab e)))) tab
          = [a; b; c; d; e]).
  rewrite !Split_app_sep by assumption. rewrite Split_no_sep by assumption. reflexivity.
Qed.

Lemma FormatText_columns r :
  exists a b c d e, columns r = [a; b; c; d; e] /\
    FormatText r = (a ++ tabs ++ b ++ tabs ++ c ++ tabs ++ d ++ tabs ++ e)%string.
Proof.
  unfold columns, FormatText. destruct (negb (String.eqb (Error r) "")); eauto 10.
Qed.

Lemma joinLines_cons x y l :
  joinLines (x :: y :: l) = (x ++ String newline (joinLines (y :: l)))%string.
Proof. reflexivity. Qed.

Lemma Split_joinLines (lines : list string) :
  lines <> [] -> Forall (fun s => hasByte newline s = false) lines ->
  Split (joinLines lines) newline = lines.
Proof.
  induction lines as [|x [|y l] IH]; intros Hne H; [contradiction| |].
  - apply Forall_cons in H as [Hx _]. apply Split_no_sep. exact Hx.
  - apply Forall_cons in H as [Hx H]. rewrite joinLines_cons, Split_app_sep by exact Hx.
    f_equal. apply IH; [discriminate|exact H].
Qed.

(** X19: when none of its five columns contains a tab, the line of a
    result splits at the tabs into exactly these five columns, for a
    result with an error as for one without; and when no column of any
    result contains a newline, the text of a batch that is not empty
    splits at the newlines into the lines of its results, one for each. *)
Theorem X19_FormatText_has_five_columns :
  (forall r, Forall (fun s => hasByte tab s = false) (columns r) ->
     Split (FormatText r) tab = columns r /\ length (Split (FormatText r) tab) = 5%nat) /\
  (forall ip err, hasByte tab ip = false -> hasByte tab err = false ->
     Split (FormatError ip err) tab = [ip; "-"; "-"; "-"; "ERROR: " ++ err]%string) /\
  (forall results, results <> [] ->
     Forall (fun r => Forall (fun s => hasByte newline s = false) (columns r)) results ->
     Split (BatchFormatText results) newline = map FormatText results).
Proof.
  split; [|split].
  - intros r H. destruct (FormatText_columns r) as (a & b & c & d & e & Hc & Hf).
    rewrite Hc in *. rewrite Hf, Split_columns by exact H. split; reflexivity.
  - intros ip err Hi He. unfold FormatError. apply Split_columns.
    repeat constructor; auto.
  - intros results Hne H. unfold BatchFormatText. apply Split_joinLines.
    + destruct results; [contradiction|discriminate].
    + apply Forall_map. eapply Forall_impl; [exact H|]. intros r Hr. cbn beta in Hr |- *.
      destruct (FormatText_columns r) as (a & b & c & d & e & Hc & Hf).
      rewrite Hc in Hr. unfold compose. rewrite Hf.
      apply Forall_cons in Hr as [Ha Hr]. apply Forall_cons in Hr as [Hb Hr].
      apply Forall_cons in Hr as [Hc' Hr]. apply Forall_cons in Hr as [Hd Hr].
      apply Forall_cons in Hr as [He _].
      rewrite !hasByte_app, Ha, Hb, Hc', Hd, He. reflexivity.
Qed.

(** The result of the package's test. *)
Lemma X19_witness :
  let r := {| IP := "8.8.8.8"; CountryCode := "US"; CountryName := "United States";
              Network := "8.8.8.0/24";
              Provider := Some {| Mode := "bgp"; ASNs := [15169]; Holders := ["GOOGLE LLC"];
                                  Source := "RIPEstat"; Cached := false; PError := "" |};
              SnapshotTime := ""; IndexBuiltAt := 0; Error := "" |} in
  Split (FormatText r) tab = ["8.8.8.8"; "US"; "United States"; "8.8.8.0/24"; "GOOGLE LLC"]%string.
Proof.
  intros r.
  apply (proj1 (proj1 X19_FormatText_has_five_columns r ltac:(repeat constructor))).
Defined.

End OutputCorrect.

